(** * Genesis configuration of cpp-ethereum: [libethereum/ChainParams.cpp]

    A shallow embedding of [ChainParams] (chain parameters, genesis header,
    genesis block assembly and its inverse) together with the parts of
    libdevcore / libethcore the file calls: byte strings, fixed-size hashes,
    256-bit integers, hex text, json_spirit values, [RLPStream], [RLP] and
    the [BlockHeader] decoder.

    Conventions.
    - C++ exceptions are values of [exn]; a fallible computation has type
      [Res A].
    - Member functions that assign to fields of [*this] (including the
      [mutable] field [stateRoot] written by [const] members) are state
      transformers [M A] over the receiver.
    - Sizes of containers are [nat] (they index lists); numeric values and
      item counters are [N], with the wrap-around of [unsigned] written out. *)

From Stdlib Require Import ZArith NArith List Lia Bool Eqdep_dec.
From Stdlib Require Import Strings.Byte Strings.String Strings.Ascii.
From stdpp Require Import gmap strings list fin_maps.

Set Warnings "-register-all".
Set Default Proof Using "Type".

(* ===================================================================== *)
(** ** Exceptions and fallible computations                               *)
(* ===================================================================== *)

(** The exception classes the modelled code can raise. [IntThrown z] is the
    plain [throw 0;] of [populateFromGenesis]. *)
Inductive exn : Type :=
  | RLPException        (* RLPStream: item count too large, open list at out() *)
  | BadRLP
  | BadCast
  | OversizeRLP
  | UndersizeRLP
  | InvalidBlockFormat
  | BadHexCharacter
  | JsonTypeError       (* json_spirit: std::runtime_error of get_str/get_obj/get_bool *)
  | CollaboratorFailure (* raised inside jsonToAccountMap *)
  | LoopDiverges        (* an [unsigned] loop counter that can never reach its bound *)
  | IntThrown (z : Z).

Inductive Res (A : Type) : Type :=
  | Ok (a : A)
  | Err (e : exn).
Arguments Ok {A} a.
Arguments Err {A} e.

Definition res_bind {A B} (r : Res A) (k : A -> Res B) : Res B :=
  match r with
  | Ok a => k a
  | Err e => Err e
  end.

Declare Scope res_scope.
Delimit Scope res_scope with res.
Notation "x <- e ;; k" := (res_bind e (fun x => k))
  (at level 100, e at next level, right associativity) : res_scope.

Definition is_Ok {A} (r : Res A) : bool :=
  match r with Ok _ => true | Err _ => false end.

(* ===================================================================== *)
(** ** Bytes, fixed hashes, 256-bit integers                              *)
(* ===================================================================== *)

Definition bytes := list byte.

#[global] Instance byte_eq_decision : EqDecision byte := Byte.byte_eq_dec.

(** The C cast [(byte)n]: the low eight bits. *)
Definition byte_of_N (n : N) : byte :=
  match Byte.of_N (n mod 256) with
  | Some b => b
  | None => x00
  end.

(** [unsigned] arithmetic is modulo 2^32. *)
Definition UNSIGNED_MOD : N := 2 ^ 32.
Definition to_unsigned (n : Z) : N := Z.to_N (n mod Z.of_N UNSIGNED_MOD).

(** [u256]: boost multiprecision unsigned 256-bit integer. *)
Definition U256_MOD : N := 2 ^ 256.

Record u256 : Type := mk_u256 {
  u256_val : N;
  u256_range : (u256_val <? U256_MOD)%N = true
}.

Lemma u256_wrap_range (n : N) : (n mod U256_MOD <? U256_MOD)%N = true.
Proof. apply N.ltb_lt, N.mod_lt. unfold U256_MOD. lia. Qed.

Definition u256_of_N (n : N) : u256 := mk_u256 (n mod U256_MOD) (u256_wrap_range n).

Definition u256_zero : u256 := mk_u256 0 eq_refl.

(** [FixedHash<n>]: an array of exactly [n] bytes. *)
Record FixedHash (n : nat) : Type := mk_FixedHash {
  fh_data : bytes;
  fh_size : Nat.eqb (length fh_data) n = true
}.
Arguments mk_FixedHash {n} fh_data fh_size.
Arguments fh_data {n} _.
Arguments fh_size {n} _.

Definition h64 := FixedHash 8.
Definition h160 := FixedHash 20.
Definition Address := h160.
Definition h256 := FixedHash 32.
Definition h2048 := FixedHash 256.
Definition LogBloom := h2048.

Lemma zero_bytes_size (n : nat) : Nat.eqb (length (repeat x00 n)) n = true.
Proof. induction n as [|n IH]; [reflexivity | exact IH]. Defined.

(** The default constructor [FixedHash()] fills the array with zeroes. *)
Definition FixedHash_zero (n : nat) : FixedHash n :=
  mk_FixedHash (repeat x00 n) (zero_bytes_size n).

(** [explicit operator bool()]: true when some byte is non-zero. *)
Definition FixedHash_bool {n} (h : FixedHash n) : bool :=
  existsb (fun b => negb (Byte.eqb b x00)) (fh_data h).

(** Building a hash from bytes of exactly the right size. *)
Definition FixedHash_exact (n : nat) (d : bytes) : option (FixedHash n) :=
  match bool_dec (Nat.eqb (length d) n) true with
  | left H => Some (mk_FixedHash d H)
  | right _ => None
  end.

(** [FixedHash(bytes const&, FailIfDifferent)]: a copy when the size is
    right, otherwise all zeroes. *)
Definition FixedHash_of_bytes (n : nat) (d : bytes) : FixedHash n :=
  match FixedHash_exact n d with
  | Some h => h
  | None => FixedHash_zero n
  end.

(** Big-endian value of a byte string read into a [size_t]; callers read at
    most eight bytes, so the accumulator does not overflow. *)
Definition be_value (d : bytes) : N :=
  fold_left (fun acc b => (acc * 256 + Byte.to_N b)%N) d 0%N.

(** [fromBigEndian<u256>]: fold the bytes into a number, most significant
    first; the accumulator is a [u256], so it wraps. *)
Definition fromBigEndian_step (acc : N) (b : byte) : N :=
  ((acc * 256) mod U256_MOD + Byte.to_N b)%N.

Definition fromBigEndianN (d : bytes) : N := fold_left fromBigEndian_step d 0%N.

Definition fromBigEndian_u256 (d : bytes) : u256 := u256_of_N (fromBigEndianN d).

(** [bytesRequired(i)]: the number of iterations of
    [for (; _i != 0; ++i, _i >>= 8) {}]. The loop runs at most once per bit
    of [_i], which is the fuel. *)
Fixpoint bytesRequired_loop (fuel : nat) (i : N) : nat :=
  match fuel with
  | O => O
  | S fuel' => if (i =? 0)%N then O else S (bytesRequired_loop fuel' (N.shiftr i 8))
  end.

Definition bytesRequired (i : N) : nat := bytesRequired_loop (N.to_nat (N.size i)) i.

(** The [br] low bytes of [i], most significant first: what
    [for (; _i; _i >>= 8) *(b--) = (byte)_i;] leaves in the [br] bytes it
    was given when [br = bytesRequired(i)]. *)
Fixpoint bigEndianBytes (br : nat) (i : N) : bytes :=
  match br with
  | O => []
  | S br' => bigEndianBytes br' (N.shiftr i 8) ++ [byte_of_N i]
  end.

(* ===================================================================== *)
(** ** Hex text                                                           *)
(* ===================================================================== *)

(** Modelled from the spec: [fromHex] of libdevcore (CommonData.cpp is not
    under src/). Section 4.1/4.2 of the specification: values are
    hexadecimal strings, an optional [0x] prefix is accepted, and malformed
    hex is a failure. A string of odd length has a lone leading digit. *)
Definition fromHex_char (c : ascii) : option N :=
  let n := N_of_ascii c in
  if (48 <=? n)%N && (n <=? 57)%N then Some (n - 48)%N
  else if (97 <=? n)%N && (n <=? 102)%N then Some (n - 97 + 10)%N
  else if (65 <=? n)%N && (n <=? 70)%N then Some (n - 65 + 10)%N
  else None.

Fixpoint fromHex_pairs (cs : list ascii) : Res bytes :=
  match cs with
  | [] => Ok []
  | h :: l :: rest =>
      match fromHex_char h, fromHex_char l with
      | Some hv, Some lv =>
          res_bind (fromHex_pairs rest) (fun tl => Ok (byte_of_N (hv * 16 + lv) :: tl))
      | _, _ => Err BadHexCharacter
      end
  | [_] => Err BadHexCharacter
  end.

Definition strip_0x (cs : list ascii) : list ascii :=
  match cs with
  | "0"%char :: "x"%char :: rest => rest
  | _ => cs
  end.

Definition fromHex (s : string) : Res bytes :=
  let cs := list_ascii_of_string s in
  let body := strip_0x cs in
  if Nat.odd (length cs) then
    match body with
    | c :: rest =>
        match fromHex_char c with
        | Some h => res_bind (fromHex_pairs rest) (fun tl => Ok (byte_of_N h :: tl))
        | None => Err BadHexCharacter
        end
    | [] => Err BadHexCharacter
    end
  else fromHex_pairs body.

(** Modelled from the spec: the constructor [FixedHash<n>(std::string)]
    (libdevcore/FixedHash.h is not under src/): the text is read as hex and
    the bytes are taken when there are exactly [n] of them; any other size
    gives the zero hash. *)
Definition FixedHash_of_string (n : nat) (s : string) : Res (FixedHash n) :=
  res_bind (fromHex s) (fun d => Ok (FixedHash_of_bytes n d)).

(** The idiom [u256(fromBigEndian<u256>(fromHex(text)))]. *)
Definition u256_of_hex (s : string) : Res u256 :=
  res_bind (fromHex s) (fun d => Ok (fromBigEndian_u256 d)).

(* ===================================================================== *)
(** ** json_spirit values                                                 *)
(* ===================================================================== *)

(** [js::mValue]; [js::mObject] is [std::map<std::string, mValue>]. Real
    numbers carry no payload here: no modelled function reads one. *)
Inductive mValue : Type :=
  | Null_v
  | Str_v (s : string)
  | Bool_v (b : bool)
  | Int_v (z : Z)
  | Real_v
  | Obj_v (o : gmap string mValue)
  | Array_v (l : list mValue).

Abbreviation mObject := (gmap string mValue).

(** A JSON document is represented by the value [json_spirit::read_string]
    produces for it; text that does not parse leaves the value null.
    [write_string] followed by [read_string] gives the value back. *)
Definition json_text := mValue.
Definition read_string (t : json_text) : mValue := t.
Definition write_string (v : mValue) : json_text := v.

Definition get_obj (v : mValue) : Res mObject :=
  match v with Obj_v o => Ok o | _ => Err JsonTypeError end.
Definition get_str (v : mValue) : Res string :=
  match v with Str_v s => Ok s | _ => Err JsonTypeError end.
Definition get_bool (v : mValue) : Res bool :=
  match v with Bool_v b => Ok b | _ => Err JsonTypeError end.

(** [obj[key]]: [std::map::operator[]] default-constructs a null value for
    an absent key. Every use below reads the entry with [get_str] or
    [get_obj] at once, which throws on null, so the entry inserted into the
    local copy of the map is never observed and is not tracked. *)
Definition obj_at (o : mObject) (k : string) : mValue :=
  match o !! k with Some v => v | None => Null_v end.

(** [obj.count(key)] as a truth value. *)
Definition obj_count (o : mObject) (k : string) : bool :=
  match o !! k with Some _ => true | None => false end.

(* ===================================================================== *)
(** ** RLPStream                                                          *)
(* ===================================================================== *)

(** Modelled from the spec: class [RLPStream] of libdevcore (RLP.h/RLP.cpp
    are not under src/), the "encode list of fields" capability of section
    6, with Ethereum's RLP byte format. *)
Module RLPConst.
Definition c_rlpMaxLengthBytes : N := 8.
Definition c_rlpDataImmLenStart : N := 0x80.
Definition c_rlpListStart : N := 0xc0.
Definition c_rlpDataImmLenCount : N := c_rlpListStart - c_rlpDataImmLenStart - c_rlpMaxLengthBytes.
Definition c_rlpDataIndLenZero : N := c_rlpDataImmLenStart + c_rlpDataImmLenCount - 1.
Definition c_rlpListImmLenCount : N := 256 - c_rlpListStart - c_rlpMaxLengthBytes.
Definition c_rlpListIndLenZero : N := c_rlpListStart + c_rlpListImmLenCount - 1.
End RLPConst.
Import RLPConst.

(** [m_listStack] holds, for every list still open, the number of items it
    still expects and the offset in [m_out] where it began; the head of the
    Rocq list is the back of the C++ vector. *)
Record RLPStream : Type := mk_RLPStream {
  m_out : bytes;
  m_listStack : list (N * nat)
}.

Definition RLPStream_empty : RLPStream := mk_RLPStream [] [].

Definition push_bytes (d : bytes) (s : RLPStream) : RLPStream :=
  mk_RLPStream (m_out s ++ d) (m_listStack s).

(** The prefix of a list whose payload has [s] bytes. *)
Definition list_prefix (s : nat) : Res bytes :=
  let brs := bytesRequired (N.of_nat s) in
  if (N.of_nat s <? c_rlpListImmLenCount)%N then
    Ok [byte_of_N (c_rlpListStart + N.of_nat s)]
  else if (c_rlpListIndLenZero + N.of_nat brs <=? 0xff)%N then
    Ok (byte_of_N (c_rlpListIndLenZero + N.of_nat brs) :: bigEndianBytes brs (N.of_nat s))
  else Err RLPException.

(** The [while (m_listStack.size())] loop of [noteAppended]: the innermost
    open list receives [itemCount] items; a list that becomes complete gets
    its prefix inserted at its start offset ([memmove]) and then counts as
    one item of the list around it. *)
Fixpoint noteAppended_loop (stack : list (N * nat)) (out : bytes) (itemCount : N)
  : Res RLPStream :=
  match stack with
  | [] => Ok (mk_RLPStream out [])
  | (expected, p) :: rest =>
      if (expected <? itemCount)%N then Err RLPException
      else if negb (expected - itemCount =? 0)%N then
        Ok (mk_RLPStream out ((expected - itemCount, p)%N :: rest))
      else
        res_bind (list_prefix (length out - p)) (fun pre =>
          noteAppended_loop rest (take p out ++ pre ++ drop p out) 1)
  end.

Definition noteAppended (itemCount : N) (s : RLPStream) : Res RLPStream :=
  if (itemCount =? 0)%N then Ok s
  else noteAppended_loop (m_listStack s) (m_out s) itemCount.

Definition appendRaw (d : bytes) (itemCount : N) (s : RLPStream) : Res RLPStream :=
  noteAppended itemCount (push_bytes d s).

(** [pushCount(_count, _base)]. *)
Definition pushCount (count : nat) (base : N) (s : RLPStream) : Res RLPStream :=
  let br := bytesRequired (N.of_nat count) in
  if (0xff <? N.of_nat br + base)%N then Err RLPException
  else Ok (push_bytes (byte_of_N (N.of_nat br + base) :: bigEndianBytes br (N.of_nat count)) s).

(** [append(bytesConstRef _s, bool _compact = false)]. *)
Definition append_bytes (d : bytes) (s : RLPStream) : Res RLPStream :=
  match d with
  | [b] =>
      if (Byte.to_N b <? c_rlpDataImmLenStart)%N then noteAppended 1 (push_bytes [b] s)
      else
        res_bind (appendRaw d 0 (push_bytes [byte_of_N (1 + c_rlpDataImmLenStart)] s))
                 (noteAppended 1)
  | _ =>
      res_bind
        (if (N.of_nat (length d) <? c_rlpDataImmLenCount)%N
         then Ok (push_bytes [byte_of_N (N.of_nat (length d) + c_rlpDataImmLenStart)] s)
         else pushCount (length d) c_rlpDataIndLenZero s)
        (fun s1 => res_bind (appendRaw d 0 s1) (noteAppended 1))
  end.

(** [append(FixedHash<n>)] with the default flags appends the whole array. *)
Definition append_hash {n} (h : FixedHash n) (s : RLPStream) : Res RLPStream :=
  append_bytes (fh_data h) s.

(** [append(bigint _i)]. *)
Definition append_bigint (i : N) (s : RLPStream) : Res RLPStream :=
  if (i =? 0)%N then noteAppended 1 (push_bytes [byte_of_N c_rlpDataImmLenStart] s)
  else if (i <? c_rlpDataImmLenStart)%N then noteAppended 1 (push_bytes [byte_of_N i] s)
  else
    let br := bytesRequired i in
    res_bind
      (if (N.of_nat br <? c_rlpDataImmLenCount)%N
       then Ok (push_bytes [byte_of_N (N.of_nat br + c_rlpDataImmLenStart)] s)
       else
         let brbr := bytesRequired (N.of_nat br) in
         if (0xff <? c_rlpDataIndLenZero + N.of_nat brbr)%N then Err RLPException
         else Ok (push_bytes (byte_of_N (c_rlpDataIndLenZero + N.of_nat brbr)
                              :: bigEndianBytes brbr (N.of_nat br)) s))
      (fun s1 => noteAppended 1 (push_bytes (bigEndianBytes br i) s1)).

Definition append_u256 (v : u256) (s : RLPStream) : Res RLPStream :=
  append_bigint (u256_val v) s.

(** [appendList(bytesConstRef _rlp)]: a complete list from its payload. *)
Definition appendList_bytes (rlp : bytes) (s : RLPStream) : Res RLPStream :=
  res_bind
    (if (N.of_nat (length rlp) <? c_rlpListImmLenCount)%N
     then Ok (push_bytes [byte_of_N (N.of_nat (length rlp) + c_rlpListStart)] s)
     else pushCount (length rlp) c_rlpListIndLenZero s)
    (appendRaw rlp 1).

(** [appendList(size_t _items)]: open a list of [_items] items. *)
Definition appendList (items : N) (s : RLPStream) : Res RLPStream :=
  if negb (items =? 0)%N then
    Ok (mk_RLPStream (m_out s) ((items, length (m_out s)) :: m_listStack s))
  else appendList_bytes [] s.

(** [RLPStream(size_t _listItems)]. *)
Definition RLPStream_list (listItems : N) : Res RLPStream := appendList listItems RLPStream_empty.

(** [out()]: refuses while a list is open. *)
Definition out (s : RLPStream) : Res bytes :=
  match m_listStack s with
  | [] => Ok (m_out s)
  | _ :: _ => Err RLPException
  end.

(** [rlp(x)] is [(RLPStream() << x).out()]. *)
Definition rlp_with (app : RLPStream -> Res RLPStream) : Res bytes :=
  res_bind (app RLPStream_empty) out.

Definition rlp_bytes (d : bytes) : Res bytes := rlp_with (append_bytes d).
Definition rlp_hash {n} (h : FixedHash n) : Res bytes := rlp_with (append_hash h).
Definition rlp_u256 (v : u256) : Res bytes := rlp_with (append_u256 v).
Definition rlpList (payload : bytes) : Res bytes := rlp_with (appendList_bytes payload).

(** [RLPEmptyList], the encoding of the empty list. *)
Definition RLPEmptyList : bytes := [xc0].

(* ===================================================================== *)
(** ** RLP views                                                          *)
(* ===================================================================== *)

(** Modelled from the spec: class [RLP] of libdevcore (not under src/), the
    "decode list of fields" capability of section 6 "with list-vs-scalar
    and item-count introspection". An [RLP] object is a view of a byte
    range; the cache behind [operator[]] is not observable and is left out.
    Only the canonical form is accepted: a long length has no leading zero
    and is at least 56, and a lone byte below 0x80 stands for itself. *)
Definition RLP := bytes.

Definition isNull (r : RLP) : bool :=
  match r with [] => true | _ :: _ => false end.

Definition isList (r : RLP) : bool :=
  match r with [] => false | b :: _ => (c_rlpListStart <=? Byte.to_N b)%N end.

Definition isData (r : RLP) : bool :=
  match r with [] => false | b :: _ => (Byte.to_N b <? c_rlpListStart)%N end.

Definition isSingleByte (r : RLP) : bool :=
  match r with [] => false | b :: _ => (Byte.to_N b <? c_rlpDataImmLenStart)%N end.

(** [lengthSize()]: how many bytes after the first hold the length. *)
Definition lengthSize (r : RLP) : nat :=
  match r with
  | [] => 0
  | b :: _ =>
      let n := Byte.to_N b in
      if isData r && (c_rlpDataIndLenZero <? n)%N then N.to_nat (n - c_rlpDataIndLenZero)
      else if isList r && (c_rlpListIndLenZero <? n)%N then N.to_nat (n - c_rlpListIndLenZero)
      else 0
  end.

Definition payloadOffset (r : RLP) : nat :=
  if isSingleByte r then 0 else 1 + lengthSize r.

(** The long form of [length()]: [ls] length bytes follow the first byte. *)
Definition long_length (ls : nat) (after_first : bytes) : Res N :=
  if (length after_first <? ls)%nat then Err BadRLP
  else if (N.to_nat c_rlpMaxLengthBytes <? ls)%nat then Err UndersizeRLP
  else
    match after_first with
    | [] => Err BadRLP
    | b1 :: _ =>
        if (Byte.to_N b1 =? 0)%N then Err BadRLP
        else
          let ret := be_value (take ls after_first) in
          if (ret <? c_rlpListStart - c_rlpDataImmLenStart - c_rlpMaxLengthBytes)%N then Err BadRLP
          else if (2 ^ 64 - 1 - 0x100 <=? ret)%N then Err UndersizeRLP
          else Ok ret
    end.

(** [length()]: the size of the payload. *)
Definition rlp_length (r : RLP) : Res N :=
  match r with
  | [] => Ok 0%N
  | b :: rest =>
      let n := Byte.to_N b in
      if (n <? c_rlpDataImmLenStart)%N then Ok 1%N
      else if (n <=? c_rlpDataIndLenZero)%N then Ok (n - c_rlpDataImmLenStart)%N
      else if (n <? c_rlpListStart)%N then long_length (N.to_nat (n - c_rlpDataIndLenZero)) rest
      else if (n <=? c_rlpListIndLenZero)%N then Ok (n - c_rlpListStart)%N
      else long_length (N.to_nat (n - c_rlpListIndLenZero)) rest
  end.

Definition actualSize (r : RLP) : Res N :=
  if isNull r then Ok 0%N
  else if isSingleByte r then Ok 1%N
  else res_bind (rlp_length r) (fun l => Ok (N.of_nat (payloadOffset r) + l)%N).

(** [RLP(bytes, VeryStrict)]: the bytes must hold exactly one item. *)
Definition RLP_strict (d : bytes) : Res RLP :=
  res_bind (actualSize d) (fun sz =>
    if (sz <? N.of_nat (length d))%N then Err OversizeRLP
    else if (N.of_nat (length d) <? sz)%N then Err UndersizeRLP
    else Ok d).

(** [RLP(bytes, ThrowOnFail | FailIfTooSmall)]: the item may be followed by
    more bytes. *)
Definition RLP_lax (d : bytes) : Res RLP :=
  res_bind (actualSize d) (fun sz =>
    if (N.of_nat (length d) <? sz)%N then Err UndersizeRLP else Ok d).

Definition sizeAsEncoded (d : bytes) : Res nat :=
  res_bind (RLP_lax d) (fun r => res_bind (actualSize r) (fun sz => Ok (N.to_nat sz))).

(** [vector_ref::cropped(begin, count)]: empty when out of range. *)
Definition cropped (begin count : nat) (d : bytes) : bytes :=
  if (begin + count <=? length d)%nat then take count (drop begin d) else [].

Definition payload (r : RLP) : Res bytes :=
  res_bind (rlp_length r) (fun l =>
    if (N.of_nat (length r) <? l)%N then Err BadRLP
    else Ok (cropped (payloadOffset r) (N.to_nat l) r)).

(** [data()]: the item as encoded. *)
Definition data (r : RLP) : bytes := r.

(** The walk of [operator[]] over a payload: item [i], or the empty range
    when the payload holds fewer items. *)
Fixpoint item_at (i : nat) (d : bytes) : Res bytes :=
  res_bind (sizeAsEncoded d) (fun sz =>
    match i with
    | O => Ok (take sz d)
    | S j => if (sz =? 0)%nat then Ok [] else item_at j (drop sz d)
    end).

Definition RLP_index (r : RLP) (i : nat) : Res RLP :=
  res_bind (payload r) (fun p => res_bind (item_at i p) RLP_lax).

(** The walk of [items()], keeping the raw items it steps over. Every step
    removes at least one byte, so the size of the range is enough fuel. *)
Fixpoint split_items_loop (fuel : nat) (d : bytes) : Res (list bytes) :=
  match d with
  | [] => Ok []
  | _ :: _ =>
      match fuel with
      | O => Err LoopDiverges
      | S fuel' =>
          res_bind (sizeAsEncoded d) (fun sz =>
            res_bind (split_items_loop fuel' (drop sz d)) (fun tl => Ok (take sz d :: tl)))
      end
  end.

Definition split_items (d : bytes) : Res (list bytes) := split_items_loop (length d) d.

Definition itemCount (r : RLP) : Res nat :=
  if isList r then
    res_bind (payload r) (fun p => res_bind (split_items p) (fun its => Ok (length its)))
  else Ok 0.

(** [requireGood()]. *)
Definition requireGood (r : RLP) : Res unit :=
  match r with
  | [] => Err BadRLP
  | b :: rest =>
      if negb (Byte.to_N b =? c_rlpDataImmLenStart + 1)%N then Ok tt
      else
        match rest with
        | [] => Err BadRLP
        | b1 :: _ => if (Byte.to_N b1 <? c_rlpDataImmLenStart)%N then Err BadRLP else Ok tt
        end
  end.

(** [toHash<FixedHash<n>>(VeryStrict)]. *)
Definition toHash (n : nat) (r : RLP) : Res (FixedHash n) :=
  res_bind (requireGood r) (fun _ =>
    res_bind (payload r) (fun p =>
      if negb (isData r) then Err BadCast
      else
        match FixedHash_exact n p with
        | Some h => Ok h
        | None => Err BadCast
        end)).

(** [isInt()]: data without a leading zero byte. *)
Definition isInt (r : RLP) : Res bool :=
  match r with
  | [] => Ok false
  | b :: rest =>
      let n := Byte.to_N b in
      if (n <? c_rlpDataImmLenStart)%N then Ok (negb (n =? 0)%N)
      else if (n =? c_rlpDataImmLenStart)%N then Ok true
      else if (n <=? c_rlpDataIndLenZero)%N then
        match rest with
        | [] => Err BadRLP
        | b1 :: _ => Ok (negb (Byte.to_N b1 =? 0)%N)
        end
      else if (n <? c_rlpListStart)%N then
        match drop (N.to_nat (n - c_rlpDataIndLenZero)) rest with
        | [] => Err BadRLP
        | b1 :: _ => Ok (negb (Byte.to_N b1 =? 0)%N)
        end
      else Ok false
  end.

(** [toInt<u256>(Strict)]. *)
Definition toInt_u256 (r : RLP) : Res u256 :=
  res_bind (requireGood r) (fun _ =>
    res_bind (isInt r) (fun int =>
      if negb int || isList r || isNull r then Err BadCast
      else
        res_bind (payload r) (fun p =>
          if (32 <? length p)%nat then Err BadCast
          else Ok (fromBigEndian_u256 p)))).

(** [toBytes()]. *)
Definition toBytes (r : RLP) : Res bytes :=
  if negb (isData r) then Err BadCast else payload r.

(** A raw item: a non-empty byte range whose first item, wherever it is
    followed by more bytes, is the whole range. *)
Definition item_ok (it : bytes) : Prop :=
  it <> [] /\ forall rest, actualSize (it ++ rest) = Ok (N.of_nat (length it)).

(** Powers of 256, the weights of big-endian bytes. *)
Definition pow256 (k : nat) : N := (256 ^ N.of_nat k)%N.

(** [res_mapM f l]: run [f] over [l] from left to right, stopping at the
    first exception. *)
Fixpoint res_mapM {A B} (f : A -> Res B) (l : list A) : Res (list B) :=
  match l with
  | [] => Ok []
  | a :: l' => res_bind (f a) (fun b => res_bind (res_mapM f l') (fun bs => Ok (b :: bs)))
  end.

(* ===================================================================== *)
(** ** BlockHeader decoding                                               *)
(* ===================================================================== *)

(** Modelled from the spec: the decoding constructor of [BlockHeader]
    (libethcore/BlockHeader.cpp is not under src/). Section 4.5: the bytes
    are "either a full block or a bare header"; of a block, the first item
    is the header and the next two must be lists; the header's thirteen
    basic fields are read in order and the items after them are the seal.
    The header hash the constructor also computes is not read by
    ChainParams.cpp and is left out. *)
Inductive BlockDataType : Type := HeaderData | BlockData.

Definition BasicFields : N := 13.

Record BlockHeader : Type := mk_BlockHeader {
  m_parentHash : h256;
  m_sha3Uncles : h256;
  m_author : Address;
  m_stateRoot : h256;
  m_transactionsRoot : h256;
  m_receiptsRoot : h256;
  m_logBloom : LogBloom;
  m_difficulty : u256;
  m_number : u256;
  m_gasLimit : u256;
  m_gasUsed : u256;
  m_timestamp : u256;
  m_extraData : bytes;
  m_seal : list bytes
}.

Definition extractHeader (block : bytes) : Res RLP :=
  res_bind (RLP_strict block) (fun root =>
    if negb (isList root) then Err InvalidBlockFormat
    else
      res_bind (RLP_index root 0) (fun header =>
        if negb (isList header) then Err InvalidBlockFormat
        else
          res_bind (RLP_index root 1) (fun txs =>
            if negb (isList txs) then Err InvalidBlockFormat
            else
              res_bind (RLP_index root 2) (fun uncles =>
                if negb (isList uncles) then Err InvalidBlockFormat
                else Ok header)))).

Definition field_hash (n : nat) (header : RLP) (i : nat) : Res (FixedHash n) :=
  res_bind (RLP_index header i) (toHash n).
Definition field_int (header : RLP) (i : nat) : Res u256 :=
  res_bind (RLP_index header i) toInt_u256.

Definition BlockHeader_populate (header : RLP) : Res BlockHeader :=
  (f0 <- field_hash 32 header 0 ;;
   f1 <- field_hash 32 header 1 ;;
   f2 <- field_hash 20 header 2 ;;
   f3 <- field_hash 32 header 3 ;;
   f4 <- field_hash 32 header 4 ;;
   f5 <- field_hash 32 header 5 ;;
   f6 <- field_hash 256 header 6 ;;
   f7 <- field_int header 7 ;;
   f8 <- field_int header 8 ;;
   f9 <- field_int header 9 ;;
   f10 <- field_int header 10 ;;
   f11 <- field_int header 11 ;;
   f12 <- res_bind (RLP_index header 12) toBytes ;;
   cnt <- itemCount header ;;
   seal <- res_mapM (fun i => res_bind (RLP_index header i) (fun r => Ok (data r)))
             (seq (N.to_nat BasicFields) (cnt - N.to_nat BasicFields)) ;;
   Ok (mk_BlockHeader f0 f1 f2 f3 f4 f5 f6 f7 f8 f9 f10 f11 f12 seal))%res.

Definition BlockHeader_of (block : bytes) (bdt : BlockDataType) : Res BlockHeader :=
  res_bind (match bdt with
            | BlockData => extractHeader block
            | HeaderData => RLP_strict block
            end) BlockHeader_populate.

(* ===================================================================== *)
(** ** External collaborators                                             *)
(* ===================================================================== *)

(** What ChainParams.cpp consumes from the rest of the repository without
    looking inside (section 6 of the specification): the account mapping
    and the precompiled table as opaque containers, the account parser, the
    secure trie, and two hash constants.

    [jsonToAccountMap] receives [&cp.precompiled], a pointer through which
    it may write, so it returns the table as it leaves it. *)
Class Collaborators : Type := {
  AccountMap : Type;
  PrecompiledMap : Type;
  PrecompiledMap_empty : PrecompiledMap;
  jsonToAccountMap : json_text -> PrecompiledMap -> Res (AccountMap * PrecompiledMap);
  SecureTrieDB : Type;
  trie_init : SecureTrieDB;
  commit : AccountMap -> SecureTrieDB -> SecureTrieDB;
  root : SecureTrieDB -> h256;
  EmptyListSHA3 : h256;
  EmptyTrie : h256
}.

(* ===================================================================== *)
(** ** ChainParams                                                        *)
(* ===================================================================== *)

Section ChainParams.
Context `{Collab : Collaborators}.

Record ChainParams : Type := mk_ChainParams {
  sealEngineName : string;
  accountStartNonce : u256;
  maximumExtraDataSize : u256;
  tieBreakingGas : bool;
  blockReward : u256;
  otherParams : gmap string string;
  precompiled : PrecompiledMap;
  genesisState : AccountMap;
  stateRoot : h256;
  parentHash : h256;
  author : Address;
  difficulty : u256;
  gasLimit : u256;
  gasUsed : u256;
  timestamp : u256;
  extraData : bytes;
  sealFields : N;
  sealRLP : bytes
}.

Definition set_sealEngineName (v : string) (cp : ChainParams) : ChainParams :=
  mk_ChainParams v (accountStartNonce cp) (maximumExtraDataSize cp) (tieBreakingGas cp) (blockReward cp) (otherParams cp) (precompiled cp) (genesisState cp) (stateRoot cp) (parentHash cp) (author cp) (difficulty cp) (gasLimit cp) (gasUsed cp) (timestamp cp) (extraData cp) (sealFields cp) (sealRLP cp).
Definition set_accountStartNonce (v : u256) (cp : ChainParams) : ChainParams :=
  mk_ChainParams (sealEngineName cp) v (maximumExtraDataSize cp) (tieBreakingGas cp) (blockReward cp) (otherParams cp) (precompiled cp) (genesisState cp) (stateRoot cp) (parentHash cp) (author cp) (difficulty cp) (gasLimit cp) (gasUsed cp) (timestamp cp) (extraData cp) (sealFields cp) (sealRLP cp).
Definition set_maximumExtraDataSize (v : u256) (cp : ChainParams) : ChainParams :=
  mk_ChainParams (sealEngineName cp) (accountStartNonce cp) v (tieBreakingGas cp) (blockReward cp) (otherParams cp) (precompiled cp) (genesisState cp) (stateRoot cp) (parentHash cp) (author cp) (difficulty cp) (gasLimit cp) (gasUsed cp) (timestamp cp) (extraData cp) (sealFields cp) (sealRLP cp).
Definition set_tieBreakingGas (v : bool) (cp : ChainParams) : ChainParams :=
  mk_ChainParams (sealEngineName cp) (accountStartNonce cp) (maximumExtraDataSize cp) v (blockReward cp) (otherParams cp) (precompiled cp) (genesisState cp) (stateRoot cp) (parentHash cp) (author cp) (difficulty cp) (gasLimit cp) (gasUsed cp) (timestamp cp) (extraData cp) (sealFields cp) (sealRLP cp).
Definition set_blockReward (v : u256) (cp : ChainParams) : ChainParams :=
  mk_ChainParams (sealEngineName cp) (accountStartNonce cp) (maximumExtraDataSize cp) (tieBreakingGas cp) v (otherParams cp) (precompiled cp) (genesisState cp) (stateRoot cp) (parentHash cp) (author cp) (difficulty cp) (gasLimit cp) (gasUsed cp) (timestamp cp) (extraData cp) (sealFields cp) (sealRLP cp).
Definition set_otherParams (v : gmap string string) (cp : ChainParams) : ChainParams :=
  mk_ChainParams (sealEngineName cp) (accountStartNonce cp) (maximumExtraDataSize cp) (tieBreakingGas cp) (blockReward cp) v (precompiled cp) (genesisState cp) (stateRoot cp) (parentHash cp) (author cp) (difficulty cp) (gasLimit cp) (gasUsed cp) (timestamp cp) (extraData cp) (sealFields cp) (sealRLP cp).
Definition set_precompiled (v : PrecompiledMap) (cp : ChainParams) : ChainParams :=
  mk_ChainParams (sealEngineName cp) (accountStartNonce cp) (maximumExtraDataSize cp) (tieBreakingGas cp) (blockReward cp) (otherParams cp) v (genesisState cp) (stateRoot cp) (parentHash cp) (author cp) (difficulty cp) (gasLimit cp) (gasUsed cp) (timestamp cp) (extraData cp) (sealFields cp) (sealRLP cp).
Definition set_genesisState (v : AccountMap) (cp : ChainParams) : ChainParams :=
  mk_ChainParams (sealEngineName cp) (accountStartNonce cp) (maximumExtraDataSize cp) (tieBreakingGas cp) (blockReward cp) (otherParams cp) (precompiled cp) v (stateRoot cp) (parentHash cp) (author cp) (difficulty cp) (gasLimit cp) (gasUsed cp) (timestamp cp) (extraData cp) (sealFields cp) (sealRLP cp).
Definition set_stateRoot (v : h256) (cp : ChainParams) : ChainParams :=
  mk_ChainParams (sealEngineName cp) (accountStartNonce cp) (maximumExtraDataSize cp) (tieBreakingGas cp) (blockReward cp) (otherParams cp) (precompiled cp) (genesisState cp) v (parentHash cp) (author cp) (difficulty cp) (gasLimit cp) (gasUsed cp) (timestamp cp) (extraData cp) (sealFields cp) (sealRLP cp).
Definition set_parentHash (v : h256) (cp : ChainParams) : ChainParams :=
  mk_ChainParams (sealEngineName cp) (accountStartNonce cp) (maximumExtraDataSize cp) (tieBreakingGas cp) (blockReward cp) (otherParams cp) (precompiled cp) (genesisState cp) (stateRoot cp) v (author cp) (difficulty cp) (gasLimit cp) (gasUsed cp) (timestamp cp) (extraData cp) (sealFields cp) (sealRLP cp).
Definition set_author (v : Address) (cp : ChainParams) : ChainParams :=
  mk_ChainParams (sealEngineName cp) (accountStartNonce cp) (maximumExtraDataSize cp) (tieBreakingGas cp) (blockReward cp) (otherParams cp) (precompiled cp) (genesisState cp) (stateRoot cp) (parentHash cp) v (difficulty cp) (gasLimit cp) (gasUsed cp) (timestamp cp) (extraData cp) (sealFields cp) (sealRLP cp).
Definition set_difficulty (v : u256) (cp : ChainParams) : ChainParams :=
  mk_ChainParams (sealEngineName cp) (accountStartNonce cp) (maximumExtraDataSize cp) (tieBreakingGas cp) (blockReward cp) (otherParams cp) (precompiled cp) (genesisState cp) (stateRoot cp) (parentHash cp) (author cp) v (gasLimit cp) (gasUsed cp) (timestamp cp) (extraData cp) (sealFields cp) (sealRLP cp).
Definition set_gasLimit (v : u256) (cp : ChainParams) : ChainParams :=
  mk_ChainParams (sealEngineName cp) (accountStartNonce cp) (maximumExtraDataSize cp) (tieBreakingGas cp) (blockReward cp) (otherParams cp) (precompiled cp) (genesisState cp) (stateRoot cp) (parentHash cp) (author cp) (difficulty cp) v (gasUsed cp) (timestamp cp) (extraData cp) (sealFields cp) (sealRLP cp).
Definition set_gasUsed (v : u256) (cp : ChainParams) : ChainParams :=
  mk_ChainParams (sealEngineName cp) (accountStartNonce cp) (maximumExtraDataSize cp) (tieBreakingGas cp) (blockReward cp) (otherParams cp) (precompiled cp) (genesisState cp) (stateRoot cp) (parentHash cp) (author cp) (difficulty cp) (gasLimit cp) v (timestamp cp) (extraData cp) (sealFields cp) (sealRLP cp).
Definition set_timestamp (v : u256) (cp : ChainParams) : ChainParams :=
  mk_ChainParams (sealEngineName cp) (accountStartNonce cp) (maximumExtraDataSize cp) (tieBreakingGas cp) (blockReward cp) (otherParams cp) (precompiled cp) (genesisState cp) (stateRoot cp) (parentHash cp) (author cp) (difficulty cp) (gasLimit cp) (gasUsed cp) v (extraData cp) (sealFields cp) (sealRLP cp).
Definition set_extraData (v : bytes) (cp : ChainParams) : ChainParams :=
  mk_ChainParams (sealEngineName cp) (accountStartNonce cp) (maximumExtraDataSize cp) (tieBreakingGas cp) (blockReward cp) (otherParams cp) (precompiled cp) (genesisState cp) (stateRoot cp) (parentHash cp) (author cp) (difficulty cp) (gasLimit cp) (gasUsed cp) (timestamp cp) v (sealFields cp) (sealRLP cp).
Definition set_sealFields (v : N) (cp : ChainParams) : ChainParams :=
  mk_ChainParams (sealEngineName cp) (accountStartNonce cp) (maximumExtraDataSize cp) (tieBreakingGas cp) (blockReward cp) (otherParams cp) (precompiled cp) (genesisState cp) (stateRoot cp) (parentHash cp) (author cp) (difficulty cp) (gasLimit cp) (gasUsed cp) (timestamp cp) (extraData cp) v (sealRLP cp).
Definition set_sealRLP (v : bytes) (cp : ChainParams) : ChainParams :=
  mk_ChainParams (sealEngineName cp) (accountStartNonce cp) (maximumExtraDataSize cp) (tieBreakingGas cp) (blockReward cp) (otherParams cp) (precompiled cp) (genesisState cp) (stateRoot cp) (parentHash cp) (author cp) (difficulty cp) (gasLimit cp) (gasUsed cp) (timestamp cp) (extraData cp) (sealFields cp) v.

(** State transformers over the receiver [*this]. *)
Definition M (A : Type) : Type := ChainParams -> Res A * ChainParams.

(** The copy constructor, lines 42-63: every field is assigned from
    [_org]; [otherParams] starts empty and is filled entry by entry. *)
Definition ChainParams_copy (_org : ChainParams) : ChainParams :=
  mk_ChainParams
    (sealEngineName _org)
    (accountStartNonce _org)
    (maximumExtraDataSize _org)
    (tieBreakingGas _org)
    (blockReward _org)
    (map_fold (fun k v acc => <[k:=v]> acc) ∅ (otherParams _org))
    (precompiled _org)
    (genesisState _org)
    (stateRoot _org)
    (parentHash _org)
    (author _org)
    (difficulty _org)
    (gasLimit _org)
    (gasUsed _org)
    (timestamp _org)
    (extraData _org)
    (sealFields _org)
    (sealRLP _org).

(** [calculateStateRoot() const], lines 183-196; [stateRoot] is [mutable]. *)
Definition calculateStateRoot : M h256 := fun this =>
  let state := trie_init in
  if negb (FixedHash_bool (stateRoot this)) then
    let state' := commit (genesisState this) state in
    let this' := set_stateRoot (root state') this in
    (Ok (stateRoot this'), this')
  else (Ok (stateRoot this), this).

(** [genesisBlock() const], lines 198-222. *)
Definition genesisBlock : M bytes := fun this =>
  let block := RLPStream_list 3 in
  let '(_, this) := calculateStateRoot this in
  ((block <- block ;;
    block <- appendList ((BasicFields + sealFields this) mod UNSIGNED_MOD)%N block ;;
    block <- append_hash (parentHash this) block ;;
    block <- append_hash EmptyListSHA3 block ;;
    block <- append_hash (author this) block ;;
    block <- append_hash (stateRoot this) block ;;
    block <- append_hash EmptyTrie block ;;
    block <- append_hash EmptyTrie block ;;
    block <- append_hash (FixedHash_zero 256) block ;;
    block <- append_u256 (difficulty this) block ;;
    block <- append_bigint 0 block ;;
    block <- append_u256 (gasLimit this) block ;;
    block <- append_u256 (gasUsed this) block ;;
    block <- append_u256 (timestamp this) block ;;
    block <- append_bytes (extraData this) block ;;
    block <- appendRaw (sealRLP this) (sealFields this) block ;;
    block <- appendRaw RLPEmptyList 1 block ;;
    block <- appendRaw RLPEmptyList 1 block ;;
    out block)%res, this).

(** The loop of lines 169-170, appending to [sealRLP] as it goes; what was
    appended before an exception stays. The counter is an [unsigned]
    compared with a [size_t]: it cannot pass a bound of 2^32 or more. *)
Fixpoint collect_seal_loop (header : RLP) (indices : list nat) (acc : bytes)
  : Res unit * bytes :=
  match indices with
  | [] => (Ok tt, acc)
  | i :: rest =>
      match RLP_index header i with
      | Err e => (Err e, acc)
      | Ok r => collect_seal_loop header rest (acc ++ data r)
      end
  end.

Definition collect_seal (header : RLP) (cnt : nat) (acc : bytes) : Res unit * bytes :=
  if (N.to_nat BasicFields <? cnt)%nat && (UNSIGNED_MOD <=? N.of_nat cnt)%N
  then (Err LoopDiverges, acc)
  else collect_seal_loop header
         (seq (N.to_nat BasicFields) (cnt - N.to_nat BasicFields)) acc.

(** [populateFromGenesis], lines 155-181. The assignments made before an
    exception stay in the receiver. *)
Definition populateFromGenesis (_genesisRLP : bytes) (_state : AccountMap) : M unit :=
  fun this =>
  match (r <- RLP_strict _genesisRLP ;;
         first <- RLP_index r 0 ;;
         BlockHeader_of _genesisRLP (if isList first then BlockData else HeaderData))%res with
  | Err e => (Err e, this)
  | Ok bi =>
      let this := set_parentHash (m_parentHash bi) this in
      let this := set_author (m_author bi) this in
      let this := set_difficulty (m_difficulty bi) this in
      let this := set_gasLimit (m_gasLimit bi) this in
      let this := set_gasUsed (m_gasUsed bi) this in
      let this := set_timestamp (m_timestamp bi) this in
      let this := set_extraData (m_extraData bi) this in
      let this := set_genesisState _state this in
      match (r <- RLP_strict _genesisRLP ;;
             header <- RLP_index r 0 ;;
             cnt <- itemCount header ;;
             Ok (header, cnt))%res with
      | Err e => (Err e, this)
      | Ok (header, cnt) =>
          let this := set_sealFields
                        (to_unsigned (Z.of_nat cnt - Z.of_N BasicFields)) this in
          let this := set_sealRLP [] this in
          let '(looped, seal) := collect_seal header cnt (sealRLP this) in
          let this := set_sealRLP seal this in
          match looped with
          | Err e => (Err e, this)
          | Ok _ =>
              let '(b, this) := genesisBlock this in
              match b with
              | Err e => (Err e, this)
              | Ok b =>
                  if bool_decide (b = _genesisRLP) then (Ok tt, this)
                  else (Err (IntThrown 0), this)
              end
          end
      end
  end.

(** [setGenesis], lines 65-91. The receiver is not read. *)
Definition setGenesis (_json : json_text) (_stateRoot : h256) (_org : ChainParams)
  : Res ChainParams :=
  let cp := ChainParams_copy _org in
  (genesis <- get_obj (read_string _json) ;;
   ph <- res_bind (get_str (obj_at genesis "parentHash")) (FixedHash_of_string 32) ;;
   let cp := set_parentHash ph cp in
   au <- (if obj_count genesis "coinbase"
          then res_bind (get_str (obj_at genesis "coinbase")) (FixedHash_of_string 20)
          else res_bind (get_str (obj_at genesis "author")) (FixedHash_of_string 20)) ;;
   let cp := set_author au cp in
   di <- (if obj_count genesis "difficulty"
          then res_bind (get_str (obj_at genesis "difficulty")) u256_of_hex
          else Ok u256_zero) ;;
   let cp := set_difficulty di cp in
   gl <- res_bind (get_str (obj_at genesis "gasLimit")) u256_of_hex ;;
   let cp := set_gasLimit gl cp in
   gu <- (if obj_count genesis "gasUsed"
          then res_bind (get_str (obj_at genesis "gasUsed")) u256_of_hex
          else Ok u256_zero) ;;
   let cp := set_gasUsed gu cp in
   ts <- res_bind (get_str (obj_at genesis "timestamp")) u256_of_hex ;;
   let cp := set_timestamp ts cp in
   ed <- res_bind (get_str (obj_at genesis "extraData")) fromHex ;;
   let cp := set_extraData ed cp in
   cp <- (if (obj_count genesis "mixhash" || obj_count genesis "mixHash")
             && obj_count genesis "nonce"
          then
            mixHash <- res_bind
                         (get_str (obj_at genesis
                            (if obj_count genesis "mixhash" then "mixhash" else "mixHash")))
                         (FixedHash_of_string 32) ;;
            nonce <- res_bind (get_str (obj_at genesis "nonce")) (FixedHash_of_string 8) ;;
            let cp := set_sealFields 2 cp in
            e1 <- rlp_hash mixHash ;;
            e2 <- rlp_hash nonce ;;
            Ok (set_sealRLP (e1 ++ e2) cp)
          else Ok cp) ;;
   if FixedHash_bool _stateRoot then Ok (set_stateRoot _stateRoot cp)
   else
     let '(r, cp) := calculateStateRoot cp in
     r <- r ;;
     Ok (set_stateRoot r cp))%res.

(** [setGenesisState], lines 93-99. The receiver is not read. *)
Definition setGenesisState (_json : json_text) (_precompiled : PrecompiledMap)
    (_org : ChainParams) : Res ChainParams :=
  let cp := ChainParams_copy _org in
  let cp := set_precompiled _precompiled cp in
  (r <- jsonToAccountMap _json (precompiled cp) ;;
   let cp := set_precompiled (snd r) cp in
   Ok (set_genesisState (fst r) cp))%res.

(** The loop of lines 116-118 over one entry of [params]. *)
Definition is_named_param (k : string) : bool :=
  bool_decide (k = "accountStartNonce") || bool_decide (k = "maximumExtraDataSize")
  || bool_decide (k = "blockReward") || bool_decide (k = "tieBreakingGas").

Definition otherParams_step (acc : Res (gmap string string)) (kv : string * mValue)
  : Res (gmap string string) :=
  (m <- acc ;;
   if negb (is_named_param (fst kv)) then
     s <- get_str (snd kv) ;;
     Ok (<[fst kv := s]> m)
   else Ok m)%res.

(** [loadConfig], lines 102-131. The values [setGenesis] and
    [setGenesisState] return are dropped (lines 124 and 129); only their
    exceptions reach the caller. *)
Definition loadConfig (this : ChainParams) (_json : json_text) (_importGenesis : bool)
    (_stateRoot : h256) : Res ChainParams :=
  let cp := ChainParams_copy this in
  (obj <- get_obj (read_string _json) ;;
   sen <- get_str (obj_at obj "sealEngine") ;;
   let cp := set_sealEngineName sen cp in
   params <- get_obj (obj_at obj "params") ;;
   asn <- res_bind (get_str (obj_at params "accountStartNonce")) u256_of_hex ;;
   let cp := set_accountStartNonce asn cp in
   meds <- res_bind (get_str (obj_at params "maximumExtraDataSize")) u256_of_hex ;;
   let cp := set_maximumExtraDataSize meds cp in
   tbg <- (if obj_count params "tieBreakingGas"
           then get_bool (obj_at params "tieBreakingGas")
           else Ok true) ;;
   let cp := set_tieBreakingGas tbg cp in
   br <- res_bind (get_str (obj_at params "blockReward")) u256_of_hex ;;
   let cp := set_blockReward br cp in
   op <- fold_left otherParams_step (map_to_list params) (Ok (otherParams cp)) ;;
   let cp := set_otherParams op cp in
   _ <- (if _importGenesis
         then res_bind (setGenesis (write_string (obj_at obj "genesis")) _stateRoot cp)
                       (fun _ => Ok tt)
         else Ok tt) ;;
   _ <- setGenesisState (write_string (obj_at obj "accounts")) PrecompiledMap_empty cp ;;
   Ok cp)%res.

(** [loadGenesisState] and [loadGenesis], lines 133-141. *)
Definition loadGenesisState (this : ChainParams) (_json : json_text)
    (_precompiled : PrecompiledMap) : Res ChainParams :=
  setGenesisState _json _precompiled this.

Definition loadGenesis (this : ChainParams) (_json : json_text) (_stateRoot : h256)
  : Res ChainParams :=
  setGenesis _json _stateRoot this.


(** *** Reference layout of the genesis block

    The byte format of section 4.5 written as plain functions on bytes,
    against which [genesisBlock] is compared: the encoding of a byte
    string, of an integer and of a list given its payload. *)
Definition enc_length_prefix (short_base long_base : N) (len : nat) : bytes :=
  if (N.of_nat len <? 56)%N then [byte_of_N (short_base + N.of_nat len)]
  else
    let br := bytesRequired (N.of_nat len) in
    byte_of_N (long_base + N.of_nat br) :: bigEndianBytes br (N.of_nat len).

Definition enc_data (d : bytes) : bytes :=
  match d with
  | [b] => if (Byte.to_N b <? 0x80)%N then [b] else [x81; b]
  | _ => enc_length_prefix 0x80 0xb7 (length d) ++ d
  end.

Definition enc_int (i : N) : bytes :=
  if (i =? 0)%N then [x80]
  else if (i <? 0x80)%N then [byte_of_N i]
  else
    let br := bytesRequired i in
    enc_length_prefix 0x80 0xb7 br ++ bigEndianBytes br i.

Definition enc_list (payload : bytes) : bytes :=
  enc_length_prefix 0xc0 0xf7 (length payload) ++ payload.

(** The thirteen basic header fields, encoded, in the order of section 4.5. *)
Definition basic_fields (this : ChainParams) : list bytes :=
  [ enc_data (fh_data (parentHash this));
    enc_data (fh_data EmptyListSHA3);
    enc_data (fh_data (author this));
    enc_data (fh_data (stateRoot this));
    enc_data (fh_data EmptyTrie);
    enc_data (fh_data EmptyTrie);
    enc_data (fh_data (FixedHash_zero 256));
    enc_int (u256_val (difficulty this));
    enc_int 0;
    enc_int (u256_val (gasLimit this));
    enc_int (u256_val (gasUsed this));
    enc_int (u256_val (timestamp this));
    enc_data (extraData this) ].

(** The block as section 4.5 describes it: a list of three items, the
    header list (basic fields, then the raw seal items) and two empty
    lists. *)
Definition canonical_block (this : ChainParams) (seal : list bytes) : bytes :=
  enc_list (enc_list (concat (basic_fields this ++ seal)) ++ RLPEmptyList ++ RLPEmptyList).

(** The sizes [size_t] can hold, with room for the fixed fields and the
    list prefixes: every container in memory satisfies it. *)
Definition fits_size_t (this : ChainParams) : Prop :=
  (N.of_nat (length (extraData this) + length (sealRLP this)) + 1024 < 2 ^ 64 - 0x101)%N.

(** Lines 200 and 204-221 of [genesisBlock] on their own: the stream
    operations, run on a receiver whose state root is settled. *)
Definition genesis_stream (this : ChainParams) : Res bytes :=
  (block <- RLPStream_list 3 ;;
   block <- appendList ((BasicFields + sealFields this) mod UNSIGNED_MOD)%N block ;;
   block <- append_hash (parentHash this) block ;;
   block <- append_hash EmptyListSHA3 block ;;
   block <- append_hash (author this) block ;;
   block <- append_hash (stateRoot this) block ;;
   block <- append_hash EmptyTrie block ;;
   block <- append_hash EmptyTrie block ;;
   block <- append_hash (FixedHash_zero 256) block ;;
   block <- append_u256 (difficulty this) block ;;
   block <- append_bigint 0 block ;;
   block <- append_u256 (gasLimit this) block ;;
   block <- append_u256 (gasUsed this) block ;;
   block <- append_u256 (timestamp this) block ;;
   block <- append_bytes (extraData this) block ;;
   block <- appendRaw (sealRLP this) (sealFields this) block ;;
   block <- appendRaw RLPEmptyList 1 block ;;
   block <- appendRaw RLPEmptyList 1 block ;;
   out block)%res.

(** What [genesisBlock] reads from the receiver. *)
Definition genesis_inputs (this : ChainParams) :=
  (parentHash this, author this, stateRoot this, genesisState this,
   difficulty this, gasLimit this, gasUsed this, timestamp this,
   extraData this, sealFields this, sealRLP this).

(** The receiver after lines 157-170 of [populateFromGenesis], before the
    re-assembly check: the same steps, stopped before line 172. *)
Definition populate_fields (_genesisRLP : bytes) (_state : AccountMap) : M unit :=
  fun this =>
  match (r <- RLP_strict _genesisRLP ;;
         first <- RLP_index r 0 ;;
         BlockHeader_of _genesisRLP (if isList first then BlockData else HeaderData))%res with
  | Err e => (Err e, this)
  | Ok bi =>
      let this := set_parentHash (m_parentHash bi) this in
      let this := set_author (m_author bi) this in
      let this := set_difficulty (m_difficulty bi) this in
      let this := set_gasLimit (m_gasLimit bi) this in
      let this := set_gasUsed (m_gasUsed bi) this in
      let this := set_timestamp (m_timestamp bi) this in
      let this := set_extraData (m_extraData bi) this in
      let this := set_genesisState _state this in
      match (r <- RLP_strict _genesisRLP ;;
             header <- RLP_index r 0 ;;
             cnt <- itemCount header ;;
             Ok (header, cnt))%res with
      | Err e => (Err e, this)
      | Ok (header, cnt) =>
          let this := set_sealFields
                        (to_unsigned (Z.of_nat cnt - Z.of_N BasicFields)) this in
          let this := set_sealRLP [] this in
          let '(looped, seal) := collect_seal header cnt (sealRLP this) in
          (looped, set_sealRLP seal this)
      end
  end.

(** The receiver after the assignments of [populateFromGenesis], when the
    bytes are the canonical block of [P]. *)
Definition populated (P T : ChainParams) (st : AccountMap) (items : list bytes)
  : ChainParams :=
  mk_ChainParams (sealEngineName T) (accountStartNonce T) (maximumExtraDataSize T)
    (tieBreakingGas T) (blockReward T) (otherParams T) (precompiled T) st
    (stateRoot T) (parentHash P) (author P) (difficulty P) (gasLimit P) (gasUsed P)
    (timestamp P) (extraData P) (N.of_nat (length items)) (concat items).

(** The fields [genesisBlock] reads other than the account mapping. *)
Definition header_inputs (this : ChainParams) :=
  (parentHash this, author this, stateRoot this,
   difficulty this, gasLimit this, gasUsed this, timestamp this,
   extraData this, sealFields this, sealRLP this).

(** Modelled from the spec: the secure trie and [dev::eth::commit]
    (libdevcore/TrieDB.h and libethereum/State.h are not under src/).
    [genesisState] is an unordered map: two maps with the same entries can
    yield them in different orders. [entries m] is the sequence in which
    iterating [m] yields its address/account pairs, the order in which
    [commit] visits them. Section 4.4: the root is "deterministic given
    identical input mapping, independent of iteration order supplied". *)
Definition order_independent {Entry : Type} (entries : AccountMap -> list Entry) : Prop :=
  forall m1 m2 : AccountMap,
    entries m1 ≡ₚ entries m2 ->
    root (commit m1 trie_init) = root (commit m2 trie_init).

(** The receiver after [k] calls of [genesisBlock] in a row. *)
Definition after_calls (k : nat) (this : ChainParams) : ChainParams :=
  Nat.iter k (fun c => snd (genesisBlock c)) this.

End ChainParams.

Arguments ChainParams {Collab}.

(* ===================================================================== *)
(** ** A concrete instance                                                *)
(* ===================================================================== *)

(** Collaborators small enough to run: accounts are a list of addresses
    with a balance, the "trie" is the list of what was committed, and its
    root is the empty-trie hash exactly when nothing was committed. *)
Module Example.

Definition hex_hash (n : nat) (s : string) : FixedHash n :=
  FixedHash_of_bytes n (match fromHex s with Ok d => d | Err _ => [] end).

Definition empty_trie_hash : h256 :=
  hex_hash 32 "56e81f171bcc55a6ff8345e692c0f86e5b48e01b996cadc001622fb5e363b421".

Definition empty_list_hash : h256 :=
  hex_hash 32 "1dcc4de8dec75d7aab85b567b6ccd41ad312451b948a7413f0a142fd40d49347".

Definition accounts_of_json (j : json_text) (pre : list bytes)
  : Res (list (bytes * N) * list bytes) :=
  match read_string j with
  | Obj_v o =>
      res_bind
        (res_mapM (fun kv => res_bind (fromHex (fst kv)) (fun a => Ok (a, 1%N)))
           (map_to_list o))
        (fun l => Ok (l, pre))
  | _ => Err CollaboratorFailure
  end.

Definition collaborators : Collaborators := {|
  AccountMap := list (bytes * N);
  PrecompiledMap := list bytes;
  PrecompiledMap_empty := [];
  jsonToAccountMap := accounts_of_json;
  SecureTrieDB := list (bytes * N);
  trie_init := [];
  commit := fun m t => m ++ t;
  root := fun t =>
    match t with
    | [] => empty_trie_hash
    | _ :: _ => FixedHash_of_bytes 32 (repeat (byte_of_N (N.of_nat (length t))) 32)
    end;
  EmptyListSHA3 := empty_list_hash;
  EmptyTrie := empty_trie_hash
|}.

(** A freshly constructed value: nothing loaded, no state root yet. *)
Definition fresh : @ChainParams collaborators :=
  @mk_ChainParams collaborators
    "" u256_zero u256_zero true u256_zero ∅ [] [] (FixedHash_zero 32)
    (FixedHash_zero 32) (FixedHash_zero 20)
    (u256_of_N 1) (u256_of_N (2 ^ 31)) u256_zero u256_zero [] 0%N [].

(** A proof-of-work style value: 70 bytes of extra data and a seal of a
    32-byte item and an 8-byte item. *)
Definition sealed : @ChainParams collaborators :=
  set_sealFields 2
    (set_sealRLP ([xa0] ++ repeat x01 32 ++ [x88] ++ repeat x02 8)
       (set_extraData (repeat x07 70)
          (set_stateRoot empty_trie_hash fresh))).

(** The end-to-end configuration of section 8. *)
Definition zero_hex (n : nat) : string :=
  String "0" (String "x" (string_of_list_ascii (repeat "0"%char (2 * n)))).

Definition config : json_text :=
  Obj_v (list_to_map
    [ ("sealEngine", Str_v "NoProof");
      ("params", Obj_v (list_to_map
         [ ("accountStartNonce", Str_v "0x00");
           ("maximumExtraDataSize", Str_v "0x20");
           ("blockReward", Str_v "0x00") ]));
      ("genesis", Obj_v (list_to_map
         [ ("parentHash", Str_v (zero_hex 32));
           ("author", Str_v (zero_hex 20));
           ("gasLimit", Str_v "0x2fefd8");
           ("timestamp", Str_v "0x00");
           ("extraData", Str_v "0x") ]));
      ("accounts", Obj_v ∅) ]).

(** The same with a chain-specific parameter next to the named ones. *)
Definition config_with_extra : json_text :=
  Obj_v (list_to_map
    [ ("sealEngine", Str_v "NoProof");
      ("params", Obj_v (list_to_map
         [ ("accountStartNonce", Str_v "0x00");
           ("maximumExtraDataSize", Str_v "0x20");
           ("blockReward", Str_v "0x00");
           ("networkID", Str_v "0x01") ]));
      ("genesis", Obj_v (list_to_map
         [ ("parentHash", Str_v (zero_hex 32));
           ("author", Str_v (zero_hex 20));
           ("gasLimit", Str_v "0x2fefd8");
           ("timestamp", Str_v "0x00");
           ("extraData", Str_v "0x") ]));
      ("accounts", Obj_v ∅) ]).

(** A proof-of-work genesis object: camel-case [mixHash] and a [nonce]. *)
Definition pow_genesis : mObject :=
  list_to_map
    [ ("parentHash", Str_v (zero_hex 32));
      ("coinbase", Str_v (zero_hex 20));
      ("difficulty", Str_v "0x400");
      ("gasLimit", Str_v "0x2fefd8");
      ("timestamp", Str_v "0x00");
      ("extraData", Str_v "0x11bbe8db");
      ("mixHash", Str_v (zero_hex 32));
      ("nonce", Str_v "0x0000000000000042") ].

(** The two raw items of the seal of [sealed]. *)
Definition sealed_items : list bytes := [[xa0] ++ repeat x01 32; [x88] ++ repeat x02 8].

Definition zero256 : h256 := FixedHash_zero 32.

(** Values that break an invariant of section 3, or a bound. *)
Definition miscounted : @ChainParams collaborators := set_sealFields 1 fresh.

Definition stray_seal : @ChainParams collaborators :=
  set_sealRLP [xc0] (set_stateRoot empty_trie_hash fresh).

Definition oversized : @ChainParams collaborators :=
  set_extraData [x01; x02; x03] (set_maximumExtraDataSize (u256_of_N 2) fresh).

(** A genesis object with both ["coinbase"] and ["author"], and without
    ["difficulty"] and ["gasUsed"]. *)
Definition two_authors_genesis : mObject :=
  list_to_map
    [ ("parentHash", Str_v (zero_hex 32));
      ("coinbase", Str_v "0x1111111111111111111111111111111111111111");
      ("author", Str_v "0x2222222222222222222222222222222222222222");
      ("gasLimit", Str_v "0x2fefd8");
      ("timestamp", Str_v "0x00");
      ("extraData", Str_v "0x") ].

(** An account list with one address. *)
Definition one_account : json_text :=
  Obj_v (list_to_map [ ("0x0000000000000000000000000000000000000001", Obj_v ∅) ]).

(** A value that already has a chain-specific parameter. *)
Definition with_chain_id : @ChainParams collaborators :=
  set_otherParams (<["chainID" := "0x3d"%string]> ∅) fresh.

(** No precompiled contracts, and an account mapping with one holder. *)
Definition no_precompiled : @PrecompiledMap collaborators := [].

Definition one_holder : @AccountMap collaborators := [([x01], 1%N)].



(** Two account mappings with the same two entries in different iteration
    orders, on values with no state root yet. *)
Definition holders_ab : @AccountMap collaborators := [([x0a], 1%N); ([x0b], 1%N)].

Definition holders_ba : @AccountMap collaborators := [([x0b], 1%N); ([x0a], 1%N)].

Definition fresh_ab : @ChainParams collaborators := set_genesisState holders_ab fresh.

Definition fresh_ba : @ChainParams collaborators := set_genesisState holders_ba fresh.







(** The bytes [genesisBlock] returns, or nothing when it throws. *)
Definition block_of (cp : @ChainParams collaborators) : bytes :=
  match fst (genesisBlock cp) with
  | Ok b => b
  | Err _ => []
  end.

(** The value a computation returns, with a fallback when it throws. *)
Definition value_of {A} (r : Res A) (fallback : A) : A :=
  match r with
  | Ok a => a
  | Err _ => fallback
  end.

End Example.

(* ===================================================================== *)
(** ** Basic facts                                                        *)
(* ===================================================================== *)

Lemma byte_to_N_lt (b : byte) : (Byte.to_N b < 256)%N.
Proof. pose proof (Byte.to_N_bounded b). lia. Qed.

Lemma to_N_byte_of_N (n : N) : Byte.to_N (byte_of_N n) = (n mod 256)%N.
Proof.
  unfold byte_of_N. destruct (Byte.of_N (n mod 256)) as [b|] eqn:E.
  - now apply Byte.to_of_N.
  - apply Byte.of_N_None_iff in E. pose proof (N.mod_lt n 256). lia.
Qed.

Lemma to_N_byte_of_N_small (n : N) : (n < 256)%N -> Byte.to_N (byte_of_N n) = n.
Proof. intros. rewrite to_N_byte_of_N. now apply N.mod_small. Qed.

Lemma byte_of_N_to_N (b : byte) : byte_of_N (Byte.to_N b) = b.
Proof.
  unfold byte_of_N. rewrite N.mod_small by apply byte_to_N_lt.
  now rewrite Byte.of_to_N.
Qed.

Lemma FixedHash_eq {n} (a b : FixedHash n) : fh_data a = fh_data b -> a = b.
Proof.
  destruct a as [da Ha], b as [db Hb]; simpl; intros ->.
  f_equal. apply UIP_dec, bool_dec.
Qed.

Lemma FixedHash_length {n} (h : FixedHash n) : length (fh_data h) = n.
Proof. destruct h as [d H]; simpl. now apply Nat.eqb_eq. Qed.

Lemma FixedHash_exact_data {n} (h : FixedHash n) : FixedHash_exact n (fh_data h) = Some h.
Proof.
  unfold FixedHash_exact.
  destruct (bool_dec (length (fh_data h) =? n)%nat true) as [H|H].
  - f_equal. now apply FixedHash_eq.
  - destruct H. apply fh_size.
Qed.

Lemma u256_eq (a b : u256) : u256_val a = u256_val b -> a = b.
Proof.
  destruct a as [va Ha], b as [vb Hb]; simpl; intros ->.
  f_equal. apply UIP_dec, bool_dec.
Qed.

Lemma u256_val_lt (v : u256) : (u256_val v < U256_MOD)%N.
Proof. destruct v as [n H]; simpl. now apply N.ltb_lt. Qed.

Section ChainParamsFacts.
Context `{Collab : Collaborators}.

Lemma ChainParams_copy_id (cp : ChainParams) : ChainParams_copy cp = cp.
Proof.
  destruct cp; unfold ChainParams_copy; simpl. f_equal.
  apply (map_fold_weak_ind (fun r m => r = m)); [reflexivity|].
  intros i x m r _ ->. reflexivity.
Qed.

Lemma calculateStateRoot_cached (cp : ChainParams) :
  FixedHash_bool (stateRoot cp) = true ->
  calculateStateRoot cp = (Ok (stateRoot cp), cp).
Proof. intros H. unfold calculateStateRoot. now rewrite H. Qed.

Lemma calculateStateRoot_fresh (cp : ChainParams) :
  FixedHash_bool (stateRoot cp) = false ->
  calculateStateRoot cp =
    (Ok (root (commit (genesisState cp) trie_init)),
     set_stateRoot (root (commit (genesisState cp) trie_init)) cp).
Proof. intros H. unfold calculateStateRoot. now rewrite H. Qed.

Lemma genesisBlock_reads_inputs (cp1 cp2 : ChainParams) :
  genesis_inputs cp1 = genesis_inputs cp2 ->
  fst (genesisBlock cp1) = fst (genesisBlock cp2).
Proof.
  destruct cp1, cp2. unfold genesis_inputs; simpl. intros H.
  injection H as -> -> -> -> -> -> -> -> -> -> ->.
  unfold genesisBlock, calculateStateRoot; simpl.
  destruct (FixedHash_bool _); reflexivity.
Qed.

Lemma genesisBlock_again (cp : ChainParams) :
  genesisBlock (snd (genesisBlock cp)) = genesisBlock cp.
Proof.
  destruct cp. unfold genesisBlock, calculateStateRoot; simpl.
  destruct (FixedHash_bool stateRoot0) eqn:E; simpl.
  - rewrite E. reflexivity.
  - destruct (FixedHash_bool (root _)); reflexivity.
Qed.

End ChainParamsFacts.

(* ===================================================================== *)
(** ** Big-endian numbers                                                 *)
(* ===================================================================== *)

Lemma pow256_0 : pow256 0 = 1%N.
Proof. reflexivity. Qed.

Lemma pow256_S (k : nat) : pow256 (S k) = (256 * pow256 k)%N.
Proof. unfold pow256. rewrite Nat2N.inj_succ, N.pow_succ_r'. reflexivity. Qed.

Lemma pow256_pos (k : nat) : (0 < pow256 k)%N.
Proof. unfold pow256. apply N.neq_0_lt_0, N.pow_nonzero. lia. Qed.

Lemma pow256_mono (a b : nat) : (a <= b)%nat -> (pow256 a <= pow256 b)%N.
Proof. intros. unfold pow256. apply N.pow_le_mono_r; lia. Qed.

Lemma shiftr8 (i : N) : N.shiftr i 8 = (i / 256)%N.
Proof. rewrite N.shiftr_div_pow2. reflexivity. Qed.

(** [lia] works best when the quotient and remainder are plain variables. *)
Ltac name_div256 i q r :=
  let Hdm := fresh "Hdm" in
  let Hm := fresh "Hm" in
  pose proof (N.div_mod i 256%N ltac:(lia)) as Hdm;
  pose proof (N.mod_lt i 256%N ltac:(lia)) as Hm;
  set (q := (i / 256)%N) in *; set (r := (i mod 256)%N) in *;
  clearbody q r.

Lemma bytesRequired_loop_0 (fuel : nat) : bytesRequired_loop fuel 0%N = 0%nat.
Proof. destruct fuel; reflexivity. Qed.

Lemma size_shiftr8 (i : N) : i <> 0%N -> (N.size (N.shiftr i 8) + 1 <= N.size i)%N.
Proof.
  intros Hi. destruct (N.eq_dec (N.shiftr i 8) 0%N) as [E|E].
  - rewrite E. rewrite (N.size_log2 i) by assumption. simpl. lia.
  - rewrite (N.size_log2 _ E), (N.size_log2 i) by assumption.
    rewrite N.log2_shiftr.
    assert (8 <= N.log2 i)%N.
    { destruct (N.le_gt_cases 8%N (N.log2 i)) as [?|Hlt]; [assumption|].
      apply N.shiftr_eq_0 in Hlt. contradiction. }
    lia.
Qed.

Lemma bytesRequired_loop_spec (fuel : nat) : forall i : N,
  (N.size i <= N.of_nat fuel)%N ->
  (i < pow256 (bytesRequired_loop fuel i))%N /\
  (i <> 0%N ->
   bytesRequired_loop fuel i <> 0%nat /\
   (pow256 (bytesRequired_loop fuel i - 1) <= i)%N).
Proof.
  induction fuel as [|fuel IH]; intros i Hsize.
  - assert (i = 0%N) as ->.
    { destruct (N.eq_dec i 0%N) as [|Hn]; [assumption|].
      rewrite (N.size_log2 _ Hn) in Hsize. lia. }
    simpl. rewrite pow256_0. split; [lia | congruence].
  - simpl. destruct (N.eqb_spec i 0%N) as [->|Hi].
    + rewrite pow256_0. split; [lia | congruence].
    + pose proof (size_shiftr8 i Hi) as Hs.
      rewrite Nat2N.inj_succ in Hsize.
      destruct (IH (N.shiftr i 8)) as [Hlt Hge]; [lia|].
      rewrite shiftr8 in *. rewrite pow256_S.
      clear IH Hsize Hs. name_div256 i q r.
      split; [lia|]. intros _. split; [congruence|].
      simpl. rewrite Nat.sub_0_r.
      destruct (N.eq_dec q 0%N) as [E|E].
      * subst q. rewrite bytesRequired_loop_0, pow256_0. lia.
      * destruct (Hge E) as [Hk Hle].
        destruct (bytesRequired_loop fuel q) as [|k]; [congruence|].
        simpl in Hle. rewrite Nat.sub_0_r in Hle. rewrite pow256_S. lia.
Qed.

Lemma bytesRequired_spec (i : N) :
  (i < pow256 (bytesRequired i))%N /\
  (i <> 0%N -> bytesRequired i <> 0%nat /\ (pow256 (bytesRequired i - 1) <= i)%N).
Proof. apply bytesRequired_loop_spec. lia. Qed.

Lemma bytesRequired_le (i : N) (k : nat) : (i < pow256 k)%N -> (bytesRequired i <= k)%nat.
Proof.
  intros Hi. destruct (N.eq_dec i 0%N) as [->|Hn].
  - unfold bytesRequired. rewrite bytesRequired_loop_0. lia.
  - destruct (bytesRequired_spec i) as [_ H]. destruct (H Hn) as [Hk Hle].
    destruct (Nat.le_gt_cases (bytesRequired i) k) as [|Hgt]; [assumption|].
    pose proof (pow256_mono k (bytesRequired i - 1) ltac:(lia)). lia.
Qed.

Lemma bytesRequired_0 : bytesRequired 0%N = 0%nat.
Proof. reflexivity. Qed.

Lemma bytesRequired_pos (i : N) : i <> 0%N -> (0 < bytesRequired i)%nat.
Proof. intros Hn. destruct (bytesRequired_spec i) as [_ H]. destruct (H Hn). lia. Qed.

Lemma length_bigEndianBytes (br : nat) : forall i, length (bigEndianBytes br i) = br.
Proof.
  induction br as [|br IH]; intros i; simpl; [reflexivity|].
  rewrite length_app, IH. simpl. lia.
Qed.

Lemma be_value_app (a b : bytes) :
  be_value (a ++ b) = fold_left (fun acc x => (acc * 256 + Byte.to_N x)%N) b (be_value a).
Proof. unfold be_value. apply fold_left_app. Qed.

Lemma be_value_snoc (a : bytes) (b : byte) :
  be_value (a ++ [b]) = (be_value a * 256 + Byte.to_N b)%N.
Proof. rewrite be_value_app. reflexivity. Qed.

Lemma be_value_bigEndianBytes (br : nat) : forall i,
  be_value (bigEndianBytes br i) = (i mod pow256 br)%N.
Proof.
  induction br as [|br IH]; intros i.
  - simpl. rewrite pow256_0, N.mod_1_r. reflexivity.
  - simpl. rewrite be_value_snoc, IH, shiftr8, to_N_byte_of_N, pow256_S.
    rewrite N.Div0.mod_mul_r. ring.
Qed.

Lemma be_value_bytesRequired (i : N) :
  be_value (bigEndianBytes (bytesRequired i) i) = i.
Proof.
  rewrite be_value_bigEndianBytes. apply N.mod_small. apply bytesRequired_spec.
Qed.

Lemma be_value_lt (d : bytes) : (be_value d < pow256 (length d))%N.
Proof.
  induction d as [|b d IH] using rev_ind.
  - simpl. rewrite pow256_0. unfold be_value. simpl. lia.
  - rewrite be_value_snoc, length_app. simpl.
    replace (length d + 1)%nat with (S (length d)) by lia.
    rewrite pow256_S. pose proof (byte_to_N_lt b). lia.
Qed.

(** The most significant byte of a number written in exactly the bytes it
    requires is not zero. *)
Lemma bigEndianBytes_head (br : nat) : forall i,
  (pow256 br <= i)%N -> (i < pow256 (S br))%N ->
  exists b tl, bigEndianBytes (S br) i = b :: tl /\ Byte.to_N b <> 0%N.
Proof.
  induction br as [|br IH]; intros i Hlo Hhi.
  - simpl. exists (byte_of_N i), []. split; [reflexivity|].
    rewrite pow256_S, pow256_0 in Hhi. rewrite pow256_0 in Hlo.
    rewrite to_N_byte_of_N_small; lia.
  - change (bigEndianBytes (S (S br)) i)
      with (bigEndianBytes (S br) (N.shiftr i 8) ++ [byte_of_N i]).
    rewrite shiftr8. rewrite !pow256_S in *.
    destruct (IH (i / 256)%N) as (b & tl & E & Hb).
    + name_div256 i q r. lia.
    + rewrite ?pow256_S. name_div256 i q r. lia.
    + rewrite E. exists b, (tl ++ [byte_of_N i]). split; [reflexivity | assumption].
Qed.

Lemma bigEndianBytes_bytesRequired_head (i : N) :
  i <> 0%N ->
  exists b tl, bigEndianBytes (bytesRequired i) i = b :: tl /\ Byte.to_N b <> 0%N.
Proof.
  intros Hn. destruct (bytesRequired_spec i) as [Hlt H]. destruct (H Hn) as [Hk Hle].
  destruct (bytesRequired i) as [|k]; [congruence|].
  simpl in Hle. rewrite Nat.sub_0_r in Hle. now apply bigEndianBytes_head.
Qed.

(** Reading with a wrapping accumulator is reading without, reduced. *)
Lemma fromBigEndianN_be_value (d : bytes) :
  fromBigEndianN d = (be_value d mod U256_MOD)%N.
Proof.
  unfold fromBigEndianN, be_value.
  assert (G : forall a a', a = (a' mod U256_MOD)%N ->
            fold_left fromBigEndian_step d a =
            (fold_left (fun acc x => (acc * 256 + Byte.to_N x)%N) d a' mod U256_MOD)%N).
  { induction d as [|b d IH]; intros a a' Ha; simpl; [assumption|].
    apply IH. unfold fromBigEndian_step. subst a.
    pose proof (byte_to_N_lt b) as Hb.
    assert (HM : U256_MOD = (2 ^ 248 * 256)%N) by reflexivity.
    rewrite N.Div0.mul_mod_idemp_l.
    rewrite (N.Div0.add_mod (a' * 256)).
    rewrite (N.mod_small (Byte.to_N b)) by (rewrite HM; lia).
    symmetry. apply N.mod_small.
    (* (a'*256) mod M is a multiple of 256 below M *)
    rewrite HM. rewrite N.Div0.mul_mod_distr_r.
    pose proof (N.mod_lt a' (2 ^ 248)%N ltac:(lia)). lia. }
  apply G. reflexivity.
Qed.

Lemma fromBigEndian_u256_bytesRequired (v : u256) :
  fromBigEndian_u256 (bigEndianBytes (bytesRequired (u256_val v)) (u256_val v)) = v.
Proof.
  apply u256_eq. unfold fromBigEndian_u256, u256_of_N; simpl.
  rewrite fromBigEndianN_be_value, N.Div0.mod_mod, be_value_bytesRequired.
  apply N.mod_small, u256_val_lt.
Qed.

Lemma fromBigEndian_u256_nil : fromBigEndian_u256 [] = u256_zero.
Proof. apply u256_eq. reflexivity. Qed.

Lemma bytesRequired_u256 (v : u256) : (bytesRequired (u256_val v) <= 32)%nat.
Proof. apply bytesRequired_le. pose proof (u256_val_lt v). exact H. Qed.

(* ===================================================================== *)
(** ** RLPStream against the reference layout                             *)
(* ===================================================================== *)

Lemma pow256_8 : pow256 8 = (2 ^ 64)%N.
Proof. reflexivity. Qed.

Lemma pow256_32 : pow256 32 = U256_MOD.
Proof. reflexivity. Qed.

Lemma bytesRequired_size_t (len : nat) :
  (N.of_nat len < 2 ^ 64)%N -> (bytesRequired (N.of_nat len) <= 8)%nat.
Proof. intros H. apply bytesRequired_le. now rewrite pow256_8. Qed.

Lemma push_push (d1 d2 : bytes) (s : RLPStream) :
  push_bytes d2 (push_bytes d1 s) = push_bytes (d1 ++ d2) s.
Proof. unfold push_bytes; simpl. now rewrite app_assoc. Qed.

Lemma noteAppended_push_open (d out : bytes) (e : N) (p : nat) rest :
  (1 < e)%N ->
  noteAppended 1 (push_bytes d (mk_RLPStream out ((e, p) :: rest))) =
  Ok (mk_RLPStream (out ++ d) ((e - 1, p)%N :: rest)).
Proof.
  intros He. unfold noteAppended, push_bytes; simpl.
  destruct (N.ltb_spec e 1); [lia|].
  destruct (N.eqb_spec (e - 1) 0); [lia|]. reflexivity.
Qed.

Lemma list_prefix_enc (len : nat) :
  (N.of_nat len < 2 ^ 64)%N ->
  list_prefix len = Ok (enc_length_prefix 0xc0 0xf7 len).
Proof.
  intros H. unfold list_prefix, enc_length_prefix.
  change c_rlpListImmLenCount with 56%N.
  change c_rlpListStart with 0xc0%N. change c_rlpListIndLenZero with 0xf7%N.
  destruct (N.of_nat len <? 56)%N; [reflexivity|].
  pose proof (bytesRequired_size_t len H).
  destruct (N.leb_spec (0xf7 + N.of_nat (bytesRequired (N.of_nat len))) 0xff); [reflexivity | lia].
Qed.

(** Completing a list that began at offset 0 wraps the whole output. *)
Lemma noteAppended_loop_close (out : bytes) (e n : N) rest :
  e = n -> (N.of_nat (length out) < 2 ^ 64)%N ->
  noteAppended_loop ((e, 0%nat) :: rest) out n = noteAppended_loop rest (enc_list out) 1.
Proof.
  intros -> H. simpl.
  rewrite N.ltb_irrefl, N.sub_diag. simpl.
  rewrite Nat.sub_0_r, list_prefix_enc by assumption. reflexivity.
Qed.

Lemma append_bytes_enc (d : bytes) (s : RLPStream) :
  (N.of_nat (length d) < 2 ^ 64)%N ->
  append_bytes d s = noteAppended 1 (push_bytes (enc_data d) s).
Proof.
  intros H.
  assert (G : res_bind
        (if (N.of_nat (length d) <? c_rlpDataImmLenCount)%N
         then Ok (push_bytes [byte_of_N (N.of_nat (length d) + c_rlpDataImmLenStart)] s)
         else pushCount (length d) c_rlpDataIndLenZero s)
        (fun s1 => res_bind (appendRaw d 0 s1) (noteAppended 1)) =
      noteAppended 1 (push_bytes (enc_length_prefix 0x80 0xb7 (length d) ++ d) s)).
  { unfold enc_length_prefix, pushCount.
    change c_rlpDataImmLenCount with 56%N. change c_rlpDataImmLenStart with 0x80%N.
    change c_rlpDataIndLenZero with 0xb7%N.
    destruct (N.of_nat (length d) <? 56)%N.
    - simpl. unfold appendRaw. change (noteAppended 0 ?x) with (Ok x). simpl.
      rewrite push_push, (N.add_comm 128). reflexivity.
    - pose proof (bytesRequired_size_t _ H).
      destruct (N.ltb_spec 0xff (N.of_nat (bytesRequired (N.of_nat (length d))) + 0xb7)); [lia|].
      simpl. unfold appendRaw. change (noteAppended 0 ?x) with (Ok x). simpl.
      rewrite push_push, (N.add_comm 183). reflexivity. }
  destruct d as [|b [|b' d']]; try exact G.
  unfold append_bytes, enc_data. change c_rlpDataImmLenStart with 0x80%N.
  destruct (Byte.to_N b <? 128)%N; [reflexivity|].
  unfold appendRaw. change (noteAppended 0 ?x) with (Ok x). simpl.
  rewrite push_push. reflexivity.
Qed.

Lemma append_bigint_enc (i : N) (s : RLPStream) :
  (i < U256_MOD)%N ->
  append_bigint i s = noteAppended 1 (push_bytes (enc_int i) s).
Proof.
  intros H. unfold append_bigint, enc_int.
  change c_rlpDataImmLenStart with 0x80%N. change c_rlpDataImmLenCount with 56%N.
  destruct (i =? 0)%N; [reflexivity|].
  destruct (i <? 128)%N; [reflexivity|].
  assert (Hbr : (bytesRequired i <= 32)%nat) by (apply bytesRequired_le; now rewrite pow256_32).
  unfold enc_length_prefix.
  destruct (N.ltb_spec (N.of_nat (bytesRequired i)) 56); [|lia].
  simpl. rewrite push_push, (N.add_comm 128). reflexivity.
Qed.

Lemma append_hash_enc {n} (h : FixedHash n) (s : RLPStream) :
  (N.of_nat n < 2 ^ 64)%N ->
  append_hash h s = noteAppended 1 (push_bytes (enc_data (fh_data h)) s).
Proof. intros H. apply append_bytes_enc. now rewrite FixedHash_length. Qed.

Lemma append_u256_enc (v : u256) (s : RLPStream) :
  append_u256 v s = noteAppended 1 (push_bytes (enc_int (u256_val v)) s).
Proof. apply append_bigint_enc, u256_val_lt. Qed.

Lemma noteAppended_1_nil (outb : bytes) :
  noteAppended 1 (mk_RLPStream outb []) = Ok (mk_RLPStream outb []).
Proof. reflexivity. Qed.

Lemma rlp_bytes_enc (d : bytes) :
  (N.of_nat (length d) < 2 ^ 64)%N -> rlp_bytes d = Ok (enc_data d).
Proof. intros H. unfold rlp_bytes, rlp_with. now rewrite append_bytes_enc. Qed.

Lemma rlp_hash_enc {n} (h : FixedHash n) :
  (N.of_nat n < 2 ^ 64)%N -> rlp_hash h = Ok (enc_data (fh_data h)).
Proof. intros H. unfold rlp_hash, rlp_with. now rewrite append_hash_enc. Qed.

Lemma rlp_u256_enc (v : u256) : rlp_u256 v = Ok (enc_int (u256_val v)).
Proof. unfold rlp_u256, rlp_with. now rewrite append_u256_enc. Qed.

Lemma rlpList_enc (p : bytes) :
  (N.of_nat (length p) < 2 ^ 64)%N -> rlpList p = Ok (enc_list p).
Proof.
  intros H. unfold rlpList, rlp_with, appendList_bytes, enc_list, enc_length_prefix, pushCount.
  change c_rlpListImmLenCount with 56%N. change c_rlpListStart with 0xc0%N.
  change c_rlpListIndLenZero with 0xf7%N.
  destruct (N.of_nat (length p) <? 56)%N.
  - cbn [res_bind]. unfold appendRaw. rewrite push_push, (N.add_comm _ 192). reflexivity.
  - pose proof (bytesRequired_size_t _ H).
    destruct (N.ltb_spec 0xff (N.of_nat (bytesRequired (N.of_nat (length p))) + 0xf7)); [lia|].
    cbn [res_bind]. unfold appendRaw. rewrite push_push, (N.add_comm _ 247). reflexivity.
Qed.

(** Sizes of the encodings. *)
Lemma length_enc_length_prefix (a b : N) (len : nat) :
  (N.of_nat len < 2 ^ 64)%N ->
  (1 <= length (enc_length_prefix a b len) <= 9)%nat.
Proof.
  intros H. unfold enc_length_prefix. destruct (N.of_nat len <? 56)%N; simpl; [lia|].
  rewrite length_bigEndianBytes. pose proof (bytesRequired_size_t len H). lia.
Qed.

Lemma length_enc_data (d : bytes) :
  (N.of_nat (length d) < 2 ^ 64)%N ->
  (1 <= length (enc_data d) <= length d + 9)%nat.
Proof.
  intros H. pose proof (length_enc_length_prefix 0x80 0xb7 (length d) H).
  destruct d as [|b [|b' d']]; unfold enc_data.
  - rewrite length_app. simpl in *. lia.
  - destruct (Byte.to_N b <? 128)%N; simpl; lia.
  - rewrite length_app. lia.
Qed.

Lemma length_enc_int (v : u256) : (1 <= length (enc_int (u256_val v)) <= 33)%nat.
Proof.
  unfold enc_int. destruct (u256_val v =? 0)%N; [simpl; lia|].
  destruct (u256_val v <? 128)%N; [simpl; lia|].
  pose proof (bytesRequired_u256 v). unfold enc_length_prefix.
  destruct (N.ltb_spec (N.of_nat (bytesRequired (u256_val v))) 56); [|lia].
  rewrite length_app, length_bigEndianBytes. simpl. lia.
Qed.

Lemma length_enc_list (payload : bytes) :
  (N.of_nat (length payload) < 2 ^ 64)%N ->
  (length payload + 1 <= length (enc_list payload) <= length payload + 9)%nat.
Proof.
  intros H. unfold enc_list. rewrite length_app.
  pose proof (length_enc_length_prefix 0xc0 0xf7 _ H). lia.
Qed.

(* ===================================================================== *)
(** ** The layout of the genesis block                                    *)
(* ===================================================================== *)

Lemma split_items_loop_concat (fuel : nat) : forall (d : bytes) (items : list bytes),
  split_items_loop fuel d = Ok items -> concat items = d.
Proof.
  induction fuel as [|fuel IH]; intros d items H.
  - destruct d; simpl in H; [|discriminate]. injection H as <-. reflexivity.
  - destruct d as [|b d]; simpl in H; [injection H as <-; reflexivity|].
    destruct (sizeAsEncoded (b :: d)) as [sz|] eqn:Esz; simpl in H; [|discriminate].
    destruct (split_items_loop fuel (drop sz (b :: d))) as [tl|] eqn:Etl;
      simpl in H; [|discriminate].
    injection H as <-. simpl. rewrite (IH _ _ Etl). apply take_drop.
Qed.

Lemma split_items_concat (d : bytes) (items : list bytes) :
  split_items d = Ok items -> concat items = d.
Proof. apply split_items_loop_concat. Qed.

Section Layout.
Context `{Collab : Collaborators}.

Lemma genesisBlock_stream (cp : ChainParams) :
  genesisBlock cp =
  (genesis_stream (snd (calculateStateRoot cp)), snd (calculateStateRoot cp)).
Proof. unfold genesisBlock. destruct (calculateStateRoot cp). reflexivity. Qed.

Lemma length_basic_fields (this : ChainParams) :
  (N.of_nat (length (extraData this)) < 2 ^ 64)%N ->
  (length (concat (basic_fields this)) <= length (extraData this) + 1000)%nat.
Proof.
  intros H. unfold basic_fields. cbn [concat].
  rewrite !length_app. cbn [length].
  pose proof (length_enc_data (fh_data (parentHash this))) as H1.
  pose proof (length_enc_data (fh_data EmptyListSHA3)) as H2.
  pose proof (length_enc_data (fh_data (author this))) as H3.
  pose proof (length_enc_data (fh_data (stateRoot this))) as H4.
  pose proof (length_enc_data (fh_data EmptyTrie)) as H5.
  pose proof (length_enc_data (fh_data (FixedHash_zero 256))) as H6.
  pose proof (length_enc_data (extraData this) H) as H7.
  rewrite !FixedHash_length in *.
  specialize (H1 ltac:(lia)). specialize (H2 ltac:(lia)). specialize (H3 ltac:(lia)).
  specialize (H4 ltac:(lia)). specialize (H5 ltac:(lia)). specialize (H6 ltac:(lia)).
  pose proof (length_enc_int (difficulty this)).
  pose proof (length_enc_int (gasLimit this)).
  pose proof (length_enc_int (gasUsed this)).
  pose proof (length_enc_int (timestamp this)).
  pose proof (length_enc_int u256_zero) as Hz. change (u256_val u256_zero) with 0%N in Hz.
  lia.
Qed.

(** The two closing [appendRaw(RLPEmptyList)] calls complete the outer
    list. *)
Lemma finish_outer (X : bytes) :
  (N.of_nat (length X) + 2 < 2 ^ 64)%N ->
  res_bind (appendRaw RLPEmptyList 1 (mk_RLPStream X [(2%N, 0%nat)]))
    (fun block => res_bind (appendRaw RLPEmptyList 1 block) out) =
  Ok (enc_list (X ++ RLPEmptyList ++ RLPEmptyList)).
Proof.
  intros H. unfold appendRaw.
  rewrite noteAppended_push_open by lia. cbn [res_bind].
  unfold noteAppended, push_bytes. cbn [N.eqb m_out m_listStack N.sub Pos.sub_mask
    Pos.pred_double Pos.double_mask Pos.double_pred_mask Pos.succ_double_mask].
  rewrite noteAppended_loop_close; [| reflexivity |].
  - cbn [noteAppended_loop res_bind out m_listStack m_out]. now rewrite <- app_assoc.
  - rewrite !length_app. unfold RLPEmptyList. cbn [length]. lia.
Qed.

Lemma noteAppended_loop_outer (X : bytes) :
  noteAppended_loop [(3%N, 0%nat)] X 1 = Ok (mk_RLPStream X [(2%N, 0%nat)]).
Proof. reflexivity. Qed.

(** With a seal that splits into [sealFields] items, the stream operations
    of [genesisBlock] produce the canonical block. *)
Lemma genesis_stream_canonical (this : ChainParams) (items : list bytes) :
  split_items (sealRLP this) = Ok items ->
  N.of_nat (length items) = sealFields this ->
  (BasicFields + sealFields this < UNSIGNED_MOD)%N ->
  fits_size_t this ->
  genesis_stream this = Ok (canonical_block this items).
Proof.
  intros Hsplit Hlen Hov Hfit.
  pose proof (split_items_concat _ _ Hsplit) as Hcat.
  unfold fits_size_t in Hfit. change BasicFields with 13%N in *.
  assert (Hed : (N.of_nat (length (extraData this)) < 2 ^ 64)%N) by lia.
  pose proof (length_basic_fields this Hed) as Hbf.
  assert (Hcb : concat (basic_fields this) =
    ((((((((((((([] ++ enc_data (fh_data (parentHash this))) ++
      enc_data (fh_data EmptyListSHA3)) ++ enc_data (fh_data (author this))) ++
      enc_data (fh_data (stateRoot this))) ++ enc_data (fh_data EmptyTrie)) ++
      enc_data (fh_data EmptyTrie)) ++ enc_data (fh_data (FixedHash_zero 256))) ++
      enc_int (u256_val (difficulty this))) ++ enc_int 0) ++
      enc_int (u256_val (gasLimit this))) ++ enc_int (u256_val (gasUsed this))) ++
      enc_int (u256_val (timestamp this))) ++ enc_data (extraData this))).
  { unfold basic_fields. cbn [concat]. rewrite app_nil_r, <- !app_assoc. reflexivity. }
  unfold genesis_stream, canonical_block. change BasicFields with 13%N.
  rewrite N.mod_small by assumption.
  change (RLPStream_list 3) with (Ok (mk_RLPStream [] [(3%N, 0%nat)])).
  cbn [res_bind]. unfold appendList.
  destruct (N.eqb_spec (13 + sealFields this) 0%N); [lia|].
  cbn [negb res_bind m_out m_listStack length].
  do 12 (first [ rewrite append_hash_enc by reflexivity
                | rewrite append_u256_enc
                | rewrite append_bigint_enc by reflexivity ];
         rewrite noteAppended_push_open by lia; cbn [res_bind]).
  rewrite append_bytes_enc by assumption.
  rewrite concat_app, Hcat.
  destruct (N.eq_dec (sealFields this) 0%N) as [E0|E0].
  - (* no seal: the thirteenth field completes the header *)
    assert (items = []) as -> by (destruct items; [reflexivity | simpl in Hlen; lia]).
    simpl in Hcat. rewrite <- Hcat, E0, app_nil_r.
    unfold noteAppended at 1. cbn [N.eqb push_bytes m_out m_listStack].
    rewrite <- Hcb.
    rewrite noteAppended_loop_close; [| reflexivity | lia].
    rewrite noteAppended_loop_outer. cbn [res_bind].
    unfold appendRaw at 1. change (noteAppended 0 ?x) with (Ok x). cbn [res_bind].
    unfold push_bytes. cbn [m_out m_listStack]. rewrite app_nil_r.
    apply finish_outer.
    pose proof (length_enc_list (concat (basic_fields this)) ltac:(lia)). lia.
  - (* a seal: its last item completes the header *)
    rewrite noteAppended_push_open by lia. cbn [res_bind].
    rewrite <- Hcb.
    unfold appendRaw at 1. unfold noteAppended at 1.
    destruct (N.eqb_spec (sealFields this) 0%N); [contradiction|].
    unfold push_bytes. cbn [m_out m_listStack].
    rewrite noteAppended_loop_close; [| lia | rewrite length_app; lia].
    rewrite noteAppended_loop_outer. cbn [res_bind].
    apply finish_outer.
    pose proof (length_enc_list (concat (basic_fields this) ++ sealRLP this)
                  ltac:(rewrite length_app; lia)) as Hl.
    rewrite length_app in Hl. lia.
Qed.

End Layout.

(* ===================================================================== *)
(** ** RLP views of encoded items                                         *)
(* ===================================================================== *)

(** Decide the numeric tests in the goal and discard impossible branches. *)
Ltac split_tests :=
  repeat match goal with
  | |- context [(?a <? ?b)%N] => destruct (N.ltb_spec a b); try lia
  | |- context [(?a <=? ?b)%N] => destruct (N.leb_spec a b); try lia
  | |- context [(?a =? ?b)%N] => destruct (N.eqb_spec a b); try lia
  | |- context [(?a <? ?b)%nat] => destruct (Nat.ltb_spec a b); try lia
  | |- context [(?a <=? ?b)%nat] => destruct (Nat.leb_spec a b); try lia
  | |- context [(?a =? ?b)%nat] => destruct (Nat.eqb_spec a b); try lia
  end.

Lemma item_ok_sizeAsEncoded (it rest : bytes) :
  item_ok it -> sizeAsEncoded (it ++ rest) = Ok (length it).
Proof.
  intros [_ H]. unfold sizeAsEncoded, RLP_lax. rewrite H. cbn [res_bind].
  rewrite length_app. split_tests. cbn [res_bind]. rewrite H. cbn [res_bind].
  now rewrite Nat2N.id.
Qed.

Lemma item_ok_lax (it : bytes) : item_ok it -> RLP_lax it = Ok it.
Proof.
  intros [_ H]. specialize (H []). rewrite app_nil_r in H.
  unfold RLP_lax. rewrite H. cbn [res_bind]. split_tests. reflexivity.
Qed.

Lemma item_ok_strict (it : bytes) : item_ok it -> RLP_strict it = Ok it.
Proof.
  intros [_ H]. specialize (H []). rewrite app_nil_r in H.
  unfold RLP_strict. rewrite H. cbn [res_bind]. split_tests. reflexivity.
Qed.

Lemma item_at_concat (items : list bytes) (rest : bytes) :
  Forall item_ok items ->
  forall (i : nat) (it : bytes), items !! i = Some it ->
  item_at i (concat items ++ rest) = Ok it.
Proof.
  induction 1 as [|it0 tl H0 Htl IH]; intros i it Hi; [discriminate|].
  cbn [concat]. rewrite <- app_assoc.
  destruct i as [|j]; cbn [item_at].
  - injection Hi as <-. rewrite item_ok_sizeAsEncoded by assumption. cbn [res_bind].
    now rewrite take_app_length.
  - rewrite item_ok_sizeAsEncoded by assumption. cbn [res_bind].
    destruct H0 as [Hne _]. destruct it0 as [|b it0]; [congruence|].
    cbn [length Nat.eqb]. change (S (length it0)) with (length (b :: it0)).
    rewrite drop_app_length. now apply IH.
Qed.

Lemma split_items_loop_items (items : list bytes) :
  Forall item_ok items ->
  forall fuel, (length (concat items) <= fuel)%nat ->
  split_items_loop fuel (concat items) = Ok items.
Proof.
  induction 1 as [|it0 tl H0 Htl IH]; intros fuel Hfuel.
  - destruct fuel; reflexivity.
  - cbn [concat] in *. rewrite length_app in Hfuel.
    pose proof H0 as [Hne _]. destruct it0 as [|b it0]; [congruence|].
    destruct fuel as [|fuel]; [simpl in Hfuel; lia|].
    change ((b :: it0) ++ concat tl) with (b :: (it0 ++ concat tl)).
    cbn [split_items_loop].
    change (b :: (it0 ++ concat tl)) with ((b :: it0) ++ concat tl).
    rewrite item_ok_sizeAsEncoded by assumption. cbn [res_bind].
    rewrite drop_app_length, take_app_length.
    rewrite IH by (simpl in Hfuel; lia). reflexivity.
Qed.

Lemma split_items_items (items : list bytes) :
  Forall item_ok items -> split_items (concat items) = Ok items.
Proof. intros H. apply split_items_loop_items; [assumption | lia]. Qed.

Ltac rlp_consts :=
  change c_rlpMaxLengthBytes with 8%N in *;
  change c_rlpDataImmLenStart with 128%N in *;
  change c_rlpListStart with 192%N in *;
  change c_rlpDataImmLenCount with 56%N in *;
  change c_rlpDataIndLenZero with 183%N in *;
  change c_rlpListImmLenCount with 56%N in *;
  change c_rlpListIndLenZero with 247%N in *.

Lemma long_length_encoded (len : N) (rest : bytes) :
  (56 <= len)%N -> (len < 2 ^ 64 - 257)%N ->
  long_length (bytesRequired len) (bigEndianBytes (bytesRequired len) len ++ rest) = Ok len.
Proof.
  intros Hlo Hhi. unfold long_length. rlp_consts.
  assert (Hbr : (bytesRequired len <= 8)%nat)
    by (apply bytesRequired_le; rewrite pow256_8; lia).
  rewrite length_app, length_bigEndianBytes.
  destruct (Nat.ltb_spec (bytesRequired len + length rest) (bytesRequired len)); [lia|].
  change (N.to_nat 8) with 8%nat.
  destruct (Nat.ltb_spec 8 (bytesRequired len)); [lia|].
  destruct (bigEndianBytes_bytesRequired_head len ltac:(lia)) as (b1 & tl & E & Hb1).
  pose proof (length_bigEndianBytes (bytesRequired len) len) as Hl.
  pose proof (be_value_bytesRequired len) as Hv.
  rewrite E in *. cbn [app].
  destruct (N.eqb_spec (Byte.to_N b1) 0); [contradiction|].
  change (b1 :: tl ++ rest) with ((b1 :: tl) ++ rest).
  assert (Ht : take (bytesRequired len) ((b1 :: tl) ++ rest) = b1 :: tl)
    by (rewrite <- Hl; apply take_app_length).
  rewrite !Ht, !Hv.
  change (192 - 128 - 8)%N with 56%N. change (2 ^ 64 - 1 - 256)%N with (2 ^ 64 - 257)%N.
  split_tests. reflexivity.
Qed.

(** What the views report for a length-prefixed item followed by anything. *)
Lemma views_prefixed (is_list : bool) (p rest : bytes) :
  (N.of_nat (length p) < 2 ^ 64 - 257)%N ->
  let pre := if is_list then enc_length_prefix 0xc0 0xf7 (length p)
             else enc_length_prefix 0x80 0xb7 (length p) in
  let r := pre ++ p ++ rest in
  isNull r = false /\ isSingleByte r = false /\ isList r = is_list /\
  isData r = negb is_list /\ rlp_length r = Ok (N.of_nat (length p)) /\
  payloadOffset r = length pre.
Proof.
  intros Hlen pre r. subst pre r. unfold enc_length_prefix.
  destruct (N.ltb_spec (N.of_nat (length p)) 56) as [Hs|Hl].
  - (* short form *)
    destruct is_list; unfold payloadOffset, lengthSize, isNull, isSingleByte, isList,
      isData, rlp_length; cbn [app length]; rlp_consts;
      rewrite !to_N_byte_of_N_small by lia;
      split_tests; cbn [andb negb]; repeat split; try reflexivity; f_equal; lia.
  - (* long form *)
    assert (Hbr : (bytesRequired (N.of_nat (length p)) <= 8)%nat)
      by (apply bytesRequired_le; rewrite pow256_8; lia).
    pose proof (bytesRequired_pos (N.of_nat (length p)) ltac:(lia)) as Hbr1.
    pose proof (long_length_encoded (N.of_nat (length p)) (p ++ rest) Hl Hlen) as Hll.
    set (br := bytesRequired (N.of_nat (length p))) in *.
    destruct is_list; unfold payloadOffset, lengthSize, isNull, isSingleByte, isList,
      isData, rlp_length; cbn [app length]; rlp_consts;
      rewrite !to_N_byte_of_N_small by lia;
      split_tests; cbn [andb negb];
      rewrite ?length_bigEndianBytes;
      repeat split; try reflexivity.
    + replace (N.to_nat (247 + N.of_nat br - 247)) with br by lia. exact Hll.
    + lia.
    + replace (N.to_nat (183 + N.of_nat br - 183)) with br by lia. exact Hll.
    + lia.
Qed.

Lemma actualSize_prefixed (is_list : bool) (p rest : bytes) :
  (N.of_nat (length p) < 2 ^ 64 - 257)%N ->
  let pre := if is_list then enc_length_prefix 0xc0 0xf7 (length p)
             else enc_length_prefix 0x80 0xb7 (length p) in
  actualSize (pre ++ p ++ rest) = Ok (N.of_nat (length (pre ++ p))).
Proof.
  intros Hlen pre.
  destruct (views_prefixed is_list p rest Hlen) as (Hn & Hs & _ & _ & Hl & Ho).
  fold pre in Hn, Hs, Hl, Ho.
  unfold actualSize. rewrite Hn, Hs, Hl, Ho. cbn [res_bind].
  rewrite length_app. f_equal. lia.
Qed.

Lemma payload_prefixed (is_list : bool) (p rest : bytes) :
  (N.of_nat (length p) < 2 ^ 64 - 257)%N ->
  let pre := if is_list then enc_length_prefix 0xc0 0xf7 (length p)
             else enc_length_prefix 0x80 0xb7 (length p) in
  payload (pre ++ p ++ rest) = Ok p.
Proof.
  intros Hlen pre.
  destruct (views_prefixed is_list p rest Hlen) as (_ & _ & _ & _ & Hl & Ho).
  fold pre in Hl, Ho.
  unfold payload. rewrite Hl, Ho. cbn [res_bind].
  rewrite !length_app. split_tests. unfold cropped. rewrite !length_app, Nat2N.id.
  split_tests. rewrite drop_app_length, take_app_length. reflexivity.
Qed.

Lemma prefix_nonempty (a b : N) (len : nat) : enc_length_prefix a b len <> [].
Proof. unfold enc_length_prefix. destruct (N.of_nat len <? 56)%N; discriminate. Qed.

Lemma item_ok_prefixed (is_list : bool) (p : bytes) :
  (N.of_nat (length p) < 2 ^ 64 - 257)%N ->
  item_ok ((if is_list then enc_length_prefix 0xc0 0xf7 (length p)
            else enc_length_prefix 0x80 0xb7 (length p)) ++ p).
Proof.
  intros Hlen. split.
  - intros E. apply app_eq_nil in E as [E _]. destruct is_list; now apply prefix_nonempty in E.
  - intros rest. rewrite <- app_assoc. now apply actualSize_prefixed.
Qed.

Lemma item_ok_enc_list (p : bytes) :
  (N.of_nat (length p) < 2 ^ 64 - 257)%N -> item_ok (enc_list p).
Proof. apply (item_ok_prefixed true). Qed.

Lemma item_ok_single (b : byte) : (Byte.to_N b < 128)%N -> item_ok [b].
Proof.
  intros Hb. split; [discriminate|]. intros rest. cbn [app length].
  unfold actualSize. cbn [isNull isSingleByte]. rlp_consts. split_tests. reflexivity.
Qed.

(** [enc_data] is the length-prefixed form except for a lone byte below
    0x80. *)
Lemma enc_data_cases (d : bytes) :
  (exists b, d = [b] /\ (Byte.to_N b < 128)%N /\ enc_data d = [b]) \/
  ((forall b, d = [b] -> (128 <= Byte.to_N b)%N) /\
   enc_data d = enc_length_prefix 0x80 0xb7 (length d) ++ d).
Proof.
  destruct d as [|b [|b' d']].
  - right. split; [discriminate | reflexivity].
  - unfold enc_data. destruct (N.ltb_spec (Byte.to_N b) 128).
    + left. exists b. repeat split; assumption.
    + right. split; [intros ? [= <-]; assumption | reflexivity].
  - right. split; [discriminate | reflexivity].
Qed.

Lemma item_ok_enc_data (d : bytes) :
  (N.of_nat (length d) < 2 ^ 64 - 257)%N -> item_ok (enc_data d).
Proof.
  intros Hlen. destruct (enc_data_cases d) as [(b & -> & Hb & ->) | [_ ->]].
  - now apply item_ok_single.
  - now apply (item_ok_prefixed false).
Qed.

Lemma enc_int_data (i : N) : enc_int i = enc_data (bigEndianBytes (bytesRequired i) i).
Proof.
  unfold enc_int. destruct (N.eqb_spec i 0) as [->|Hi]; [reflexivity|].
  destruct (N.ltb_spec i 128) as [Hs|Hl].
  - assert (bytesRequired i = 1%nat) as ->.
    { pose proof (bytesRequired_pos i Hi).
      pose proof (bytesRequired_le i 1 ltac:(rewrite pow256_S, pow256_0; lia)). lia. }
    cbn [bigEndianBytes app]. unfold enc_data.
    rewrite to_N_byte_of_N_small by lia. split_tests. reflexivity.
  - pose proof (bytesRequired_pos i Hi) as Hbr.
    pose proof (length_bigEndianBytes (bytesRequired i) i) as Hlen.
    destruct (enc_data_cases (bigEndianBytes (bytesRequired i) i))
      as [(b & E & Hb & _) | [_ ->]].
    + exfalso. rewrite E in Hlen. cbn [length] in Hlen.
      pose proof (be_value_bytesRequired i) as Hv. rewrite E in Hv.
      unfold be_value in Hv. cbn [fold_left] in Hv. lia.
    + now rewrite Hlen.
Qed.

Lemma item_ok_enc_int (v : u256) : item_ok (enc_int (u256_val v)).
Proof.
  rewrite enc_int_data. apply item_ok_enc_data. rewrite length_bigEndianBytes.
  pose proof (bytesRequired_u256 v). lia.
Qed.

(** Views of a list given by its raw items. *)
Lemma list_views (its : list bytes) :
  Forall item_ok its ->
  (N.of_nat (length (concat its)) < 2 ^ 64 - 257)%N ->
  let r := enc_list (concat its) in
  RLP_strict r = Ok r /\ RLP_lax r = Ok r /\ isList r = true /\
  payload r = Ok (concat its) /\
  itemCount r = Ok (length its) /\
  (forall i it, its !! i = Some it -> RLP_index r i = Ok it).
Proof.
  intros Hits Hlen r.
  pose proof (item_ok_enc_list _ Hlen) as Hok.
  destruct (views_prefixed true (concat its) [] Hlen) as (_ & _ & Hl & _ & _ & _).
  pose proof (payload_prefixed true (concat its) [] Hlen) as Hp.
  cbv zeta in Hl, Hp. rewrite app_nil_r in Hl, Hp. fold (enc_list (concat its)) in Hl, Hp.
  fold r in Hl, Hp, Hok.
  repeat split.
  - now apply item_ok_strict.
  - now apply item_ok_lax.
  - exact Hl.
  - exact Hp.
  - unfold itemCount. rewrite Hl, Hp. cbn [res_bind].
    now rewrite split_items_items.
  - intros i it Hi. unfold RLP_index. rewrite Hp. cbn [res_bind].
    pose proof (item_at_concat its [] Hits i it Hi) as Hat. rewrite app_nil_r in Hat.
    rewrite Hat. cbn [res_bind]. apply item_ok_lax.
    eapply Forall_lookup_1; eassumption.
Qed.

(** Views of an encoded byte string. *)
Lemma enc_data_views (d : bytes) :
  (N.of_nat (length d) < 2 ^ 64 - 257)%N ->
  isData (enc_data d) = true /\ isList (enc_data d) = false /\
  isNull (enc_data d) = false /\ payload (enc_data d) = Ok d /\
  requireGood (enc_data d) = Ok tt.
Proof.
  intros Hlen. destruct (enc_data_cases d) as [(b & -> & Hb & ->) | [Hbig ->]].
  - unfold isData, isList, isNull, payload, requireGood, rlp_length, payloadOffset,
      isSingleByte, cropped. rlp_consts.
    split_tests. cbn [negb res_bind length N.of_nat Pos.of_succ_nat].
    split_tests. repeat split; reflexivity.
  - destruct (views_prefixed false d [] Hlen) as (Hn & Hs & Hl & Hd & Hrl & Ho).
    pose proof (payload_prefixed false d [] Hlen) as Hp.
    cbv zeta in *. rewrite app_nil_r in *.
    repeat split; try assumption.
    unfold enc_length_prefix in *.
    destruct (N.ltb_spec (N.of_nat (length d)) 56) as [Hshort|Hlong].
    + cbn [app requireGood]. rlp_consts. rewrite to_N_byte_of_N_small by lia.
      destruct (N.eqb_spec (128 + N.of_nat (length d)) (128 + 1)) as [E|E];
        [|reflexivity].
      cbn [negb]. destruct d as [|b [|b' d']]; cbn [length] in E; try lia.
      specialize (Hbig b eq_refl). split_tests. reflexivity.
    + pose proof (bytesRequired_pos (N.of_nat (length d)) ltac:(lia)).
      assert ((bytesRequired (N.of_nat (length d)) <= 8)%nat)
        by (apply bytesRequired_le; rewrite pow256_8; lia).
      cbn [app requireGood]. rlp_consts. rewrite to_N_byte_of_N_small by lia.
      split_tests. reflexivity.
Qed.

Lemma toHash_enc {n} (h : FixedHash n) :
  (N.of_nat n < 2 ^ 64 - 257)%N -> toHash n (enc_data (fh_data h)) = Ok h.
Proof.
  intros Hn. rewrite <- (FixedHash_length h) in Hn.
  destruct (enc_data_views _ Hn) as (Hd & _ & _ & Hp & Hg).
  unfold toHash. rewrite Hg, Hp, Hd. cbn [res_bind negb].
  now rewrite FixedHash_exact_data.
Qed.

Lemma toBytes_enc (d : bytes) :
  (N.of_nat (length d) < 2 ^ 64 - 257)%N -> toBytes (enc_data d) = Ok d.
Proof.
  intros Hlen. destruct (enc_data_views _ Hlen) as (Hd & _ & _ & Hp & _).
  unfold toBytes. now rewrite Hd.
Qed.

(** An encoded byte string without a leading zero byte passes [isInt]. *)
Lemma isInt_enc_data (d : bytes) :
  (length d < 56)%nat ->
  (forall b tl, d = b :: tl -> Byte.to_N b <> 0%N) ->
  isInt (enc_data d) = Ok true.
Proof.
  intros Hlen Hhead.
  destruct (enc_data_cases d) as [(b & -> & Hb & ->) | [Hbig ->]].
  - specialize (Hhead b [] eq_refl). unfold isInt. rlp_consts. split_tests. reflexivity.
  - unfold enc_length_prefix.
    destruct (N.ltb_spec (N.of_nat (length d)) 56); [|lia].
    cbn [app isInt]. rlp_consts. rewrite to_N_byte_of_N_small by lia.
    destruct (N.ltb_spec (128 + N.of_nat (length d)) 128); [lia|].
    destruct (N.eqb_spec (128 + N.of_nat (length d)) 128); [reflexivity|].
    destruct (N.leb_spec (128 + N.of_nat (length d)) 183); [|lia].
    destruct d as [|b tl]; [simpl in *; lia|].
    specialize (Hhead b tl eq_refl). split_tests. reflexivity.
Qed.

Lemma toInt_enc (v : u256) : toInt_u256 (enc_int (u256_val v)) = Ok v.
Proof.
  rewrite enc_int_data.
  set (d := bigEndianBytes (bytesRequired (u256_val v)) (u256_val v)).
  pose proof (bytesRequired_u256 v) as Hbr.
  assert (Hlen : length d = bytesRequired (u256_val v)) by apply length_bigEndianBytes.
  destruct (enc_data_views d ltac:(lia)) as (_ & Hl & Hn & Hp & Hg).
  unfold toInt_u256. rewrite Hg. cbn [res_bind].
  rewrite isInt_enc_data.
  - cbn [res_bind negb orb]. rewrite Hl, Hn, Hp. cbn [res_bind].
    split_tests. f_equal. apply fromBigEndian_u256_bytesRequired.
  - lia.
  - intros b tl E. destruct (N.eq_dec (u256_val v) 0%N) as [E0|E0].
    + subst d. rewrite E0 in E. discriminate.
    + destruct (bigEndianBytes_bytesRequired_head _ E0) as (b1 & tl1 & E1 & Hb1).
      subst d. rewrite E1 in E. now injection E as <- _.
Qed.

Lemma toInt_enc_0 : toInt_u256 (enc_int 0) = Ok u256_zero.
Proof. exact (toInt_enc u256_zero). Qed.

(** Reading the items of a list by index, in a row. *)
Lemma res_mapM_index (r : RLP) (its : list bytes) :
  (forall i it, its !! i = Some it -> RLP_index r i = Ok it) ->
  forall n k, (k + n <= length its)%nat ->
  res_mapM (fun i => res_bind (RLP_index r i) (fun x => Ok (data x))) (seq k n) =
  Ok (take n (drop k its)).
Proof.
  intros Hidx. induction n as [|n IH]; intros k Hk.
  - reflexivity.
  - cbn [seq res_mapM].
    destruct (its !! k) as [it|] eqn:E; [|apply lookup_ge_None in E; lia].
    rewrite (Hidx _ _ E). cbn [res_bind data].
    rewrite IH by lia. cbn [res_bind].
    rewrite (drop_S _ _ _ E). reflexivity.
Qed.

Lemma collect_seal_loop_index (r : RLP) (its : list bytes) :
  (forall i it, its !! i = Some it -> RLP_index r i = Ok it) ->
  forall n k acc, (k + n <= length its)%nat ->
  collect_seal_loop r (seq k n) acc = (Ok tt, acc ++ concat (take n (drop k its))).
Proof.
  intros Hidx. induction n as [|n IH]; intros k acc Hk.
  - cbn. now rewrite app_nil_r.
  - cbn [seq collect_seal_loop].
    destruct (its !! k) as [it|] eqn:E; [|apply lookup_ge_None in E; lia].
    rewrite (Hidx _ _ E). cbn [data].
    rewrite IH by lia. rewrite (drop_S _ _ _ E). cbn [take concat].
    now rewrite app_assoc.
Qed.

(** *** Items found by the decoder are raw items

    The size of the first item of a range is read from its first bytes
    only, so cutting the range right after the item changes nothing. *)
Lemma long_length_local (ls m : nat) (tl rest : bytes) (l : N) :
  long_length ls tl = Ok l -> (1 <= ls <= m)%nat ->
  long_length ls (take m tl ++ rest) = Ok l.
Proof.
  unfold long_length. intros H Hls.
  destruct (Nat.ltb_spec (length tl) ls) as [|Hl]; [discriminate|].
  destruct (N.to_nat c_rlpMaxLengthBytes <? ls)%nat; [discriminate|].
  destruct tl as [|b1 tl']; [discriminate|].
  destruct m as [|m']; [lia|]. cbn [take app].
  destruct (Byte.to_N b1 =? 0)%N; [discriminate|].
  assert (Ht : take ls (b1 :: take m' tl' ++ rest) = take ls (b1 :: tl')).
  { change (b1 :: take m' tl' ++ rest) with (take (S m') (b1 :: tl') ++ rest).
    rewrite take_app_le by (rewrite length_take; cbn [length] in *; lia).
    rewrite take_take. f_equal. lia. }
  rewrite Ht.
  destruct (Nat.ltb_spec (length (b1 :: take m' tl' ++ rest)) ls) as [Hbad|]; [|exact H].
  exfalso. cbn [length] in *. rewrite length_app, length_take in Hbad. lia.
Qed.

Lemma long_length_fits (ls : nat) (tl : bytes) (l : N) :
  long_length ls tl = Ok l -> (ls <= length tl)%nat.
Proof.
  unfold long_length. destruct (Nat.ltb_spec (length tl) ls); [discriminate | lia].
Qed.

Ltac cut_item b tl :=
  match goal with
  | |- context [take (N.to_nat ?e) (b :: tl)] =>
      let k := fresh "k" in
      let Ek := fresh "Ek" in
      destruct (N.to_nat e) as [|k] eqn:Ek; [lia|];
      cbn [take app isNull]
  end.

Lemma actualSize_local (d : bytes) (n : N) :
  d <> [] -> actualSize d = Ok n -> (n <= N.of_nat (length d))%N ->
  (1 <= n)%N /\ forall rest, actualSize (take (N.to_nat n) d ++ rest) = Ok n.
Proof.
  intros Hne H Hle. destruct d as [|b tl]; [congruence|]. clear Hne.
  unfold actualSize in *. cbn [isNull] in *.
  unfold isSingleByte, payloadOffset, lengthSize, isSingleByte, isData, isList,
    rlp_length in *.
  rlp_consts.
  destruct (N.ltb_spec (Byte.to_N b) 128) as [H1|H1].
  { injection H as <-. split; [lia|]. intros rest.
    cut_item b tl. split_tests. reflexivity. }
  destruct (N.leb_spec (Byte.to_N b) 183) as [H2|H2].
  { cbn [res_bind] in H.
    destruct (N.ltb_spec (Byte.to_N b) 192); [|lia].
    destruct (N.ltb_spec 183 (Byte.to_N b)); [lia|]. cbn [andb] in H.
    destruct (N.leb_spec 192 (Byte.to_N b)); [lia|]. cbn [andb] in H.
    injection H as <-. split; [lia|]. intros rest.
    cut_item b tl. split_tests. reflexivity. }
  destruct (N.ltb_spec (Byte.to_N b) 192) as [H3|H3].
  { destruct (long_length (N.to_nat (Byte.to_N b - 183)) tl) as [l|] eqn:El;
      [|discriminate].
    cbn [res_bind] in H.
    destruct (N.ltb_spec 183 (Byte.to_N b)); [|lia]. cbn [andb] in H.
    injection H as <-. split; [lia|]. intros rest.
    cut_item b tl. split_tests.
    rewrite (long_length_local _ _ _ _ _ El) by lia. reflexivity. }
  destruct (N.leb_spec (Byte.to_N b) 247) as [H4|H4].
  { cbn [res_bind] in H.
    destruct (N.ltb_spec 183 (Byte.to_N b)); [|lia]. cbn [andb] in H.
    destruct (N.leb_spec 192 (Byte.to_N b)); [|lia]. cbn [andb] in H.
    destruct (N.ltb_spec 247 (Byte.to_N b)); [lia|].
    injection H as <-. split; [lia|]. intros rest.
    cut_item b tl. split_tests. reflexivity. }
  destruct (long_length (N.to_nat (Byte.to_N b - 247)) tl) as [l|] eqn:El;
    [|discriminate].
  cbn [res_bind] in H.
  destruct (N.leb_spec 192 (Byte.to_N b)); [|lia].
  destruct (N.ltb_spec 247 (Byte.to_N b)); [|lia]. cbn [andb] in H.
  injection H as <-. split; [lia|]. intros rest.
  cut_item b tl. split_tests.
  rewrite (long_length_local _ _ _ _ _ El) by lia. reflexivity.
Qed.

Lemma sizeAsEncoded_item (d : bytes) (sz : nat) :
  d <> [] -> sizeAsEncoded d = Ok sz ->
  (1 <= sz <= length d)%nat /\ item_ok (take sz d).
Proof.
  intros Hne H. unfold sizeAsEncoded, RLP_lax in H.
  destruct (actualSize d) as [n|] eqn:En; [|discriminate]. cbn [res_bind] in H.
  destruct (N.ltb_spec (N.of_nat (length d)) n) as [|Hle]; [discriminate|].
  cbn [res_bind] in H. rewrite En in H. cbn [res_bind] in H. injection H as <-.
  destruct (actualSize_local d n Hne En Hle) as [H1 Hloc].
  split; [lia|]. split.
  - destruct d as [|b tl]; [congruence|].
    destruct (N.to_nat n) eqn:E; [lia | discriminate].
  - intros rest. rewrite Hloc, length_take. f_equal. lia.
Qed.

Lemma split_items_loop_ok (fuel : nat) : forall (d : bytes) (items : list bytes),
  split_items_loop fuel d = Ok items -> Forall item_ok items.
Proof.
  induction fuel as [|fuel IH]; intros d items H.
  - destruct d; [|discriminate]. injection H as <-. constructor.
  - destruct d as [|b d]; [injection H as <-; constructor|].
    cbn [split_items_loop] in H.
    destruct (sizeAsEncoded (b :: d)) as [sz|] eqn:Esz; [|discriminate].
    cbn [res_bind] in H.
    destruct (split_items_loop fuel (drop sz (b :: d))) as [tl|] eqn:Etl; [|discriminate].
    cbn [res_bind] in H. injection H as <-.
    constructor; [|eapply IH; eassumption].
    now apply (sizeAsEncoded_item (b :: d) sz).
Qed.

Lemma split_items_ok (d : bytes) (items : list bytes) :
  split_items d = Ok items -> Forall item_ok items.
Proof. apply split_items_loop_ok. Qed.

(* ===================================================================== *)
(** ** Decoding the canonical block                                       *)
(* ===================================================================== *)

Lemma item_ok_RLPEmptyList : item_ok RLPEmptyList.
Proof. apply (item_ok_enc_list []). reflexivity. Qed.

Lemma isList_RLPEmptyList : isList RLPEmptyList = true.
Proof. reflexivity. Qed.

Lemma to_unsigned_seal (n : nat) :
  (BasicFields + N.of_nat n < UNSIGNED_MOD)%N ->
  to_unsigned (Z.of_nat (N.to_nat BasicFields + n) - Z.of_N BasicFields) = N.of_nat n.
Proof.
  unfold to_unsigned, UNSIGNED_MOD, BasicFields. intros H.
  change (N.to_nat 13) with 13%nat.
  replace (Z.of_nat (13 + n) - Z.of_N 13)%Z with (Z.of_nat n) by lia.
  rewrite Z.mod_small by lia. lia.
Qed.

Section RoundTrip.
Context `{Collab : Collaborators}.

Lemma populateFromGenesis_steps (raw : bytes) (st : AccountMap) (this : ChainParams) :
  populateFromGenesis raw st this =
  match populate_fields raw st this with
  | (Err e, cp1) => (Err e, cp1)
  | (Ok _, cp1) =>
      match genesisBlock cp1 with
      | (Err e, cp2) => (Err e, cp2)
      | (Ok b, cp2) =>
          if bool_decide (b = raw) then (Ok tt, cp2) else (Err (IntThrown 0), cp2)
      end
  end.
Proof.
  unfold populateFromGenesis, populate_fields.
  destruct (res_bind (RLP_strict raw) _) as [bi|e]; [|reflexivity].
  destruct (res_bind (RLP_strict raw) _) as [[header cnt]|e]; [|reflexivity].
  destruct (collect_seal header cnt _) as [[u|e] seal]; [|reflexivity].
  destruct (genesisBlock _) as [[b|e] cp2]; reflexivity.
Qed.

Lemma basic_fields_length (this : ChainParams) : length (basic_fields this) = 13%nat.
Proof. reflexivity. Qed.

Lemma basic_fields_ok (this : ChainParams) :
  (N.of_nat (length (extraData this)) < 2 ^ 64 - 257)%N ->
  Forall item_ok (basic_fields this).
Proof.
  intros H. unfold basic_fields.
  repeat (apply Forall_cons_2;
    [ first [ apply item_ok_enc_int
            | exact (item_ok_enc_int u256_zero)
            | apply item_ok_enc_data; rewrite ?FixedHash_length; first [exact H | lia] ] |]).
  apply Forall_nil_2.
Qed.

(** The views of the canonical block and of its header. *)
Lemma canonical_views (this : ChainParams) (items : list bytes) :
  Forall item_ok items ->
  (N.of_nat (length (extraData this) + length (concat items)) + 1024 < 2 ^ 64 - 257)%N ->
  let hdr := enc_list (concat (basic_fields this ++ items)) in
  let blk := canonical_block this items in
  RLP_strict blk = Ok blk /\ isList blk = true /\ itemCount blk = Ok 3%nat /\
  RLP_index blk 0 = Ok hdr /\ RLP_index blk 1 = Ok RLPEmptyList /\
  RLP_index blk 2 = Ok RLPEmptyList /\
  isList hdr = true /\
  itemCount hdr = Ok (N.to_nat BasicFields + length items)%nat /\
  (forall i it, (basic_fields this ++ items) !! i = Some it -> RLP_index hdr i = Ok it).
Proof.
  intros Hitems Hfit hdr blk.
  assert (Hed : (N.of_nat (length (extraData this)) < 2 ^ 64)%N) by lia.
  pose proof (length_basic_fields this Hed) as Hbf.
  assert (Hall : Forall item_ok (basic_fields this ++ items)).
  { apply Forall_app. split; [apply basic_fields_ok; lia | assumption]. }
  assert (Hpl : (N.of_nat (length (concat (basic_fields this ++ items))) < 2 ^ 64 - 257)%N).
  { rewrite concat_app, length_app. lia. }
  destruct (list_views _ Hall Hpl) as (_ & _ & HL & _ & HC & HI). fold hdr in HL, HC, HI.
  pose proof (length_enc_list (concat (basic_fields this ++ items)) ltac:(lia)) as Hlh.
  fold hdr in Hlh. pose proof (item_ok_enc_list _ Hpl) as Hhdr. fold hdr in Hhdr.
  rewrite concat_app, length_app in Hlh, Hpl.
  assert (Hblk : blk = enc_list (concat [hdr; RLPEmptyList; RLPEmptyList])).
  { unfold blk, canonical_block. fold hdr. cbn [concat]. now rewrite app_nil_r. }
  assert (Hall2 : Forall item_ok [hdr; RLPEmptyList; RLPEmptyList]).
  { repeat (apply Forall_cons_2; [first [apply item_ok_RLPEmptyList | exact Hhdr]|]).
    apply Forall_nil_2. }
  assert (Hpl2 : (N.of_nat (length (concat [hdr; RLPEmptyList; RLPEmptyList]))
                  < 2 ^ 64 - 257)%N).
  { cbn [concat]. rewrite !length_app. unfold RLPEmptyList. cbn [length]. lia. }
  destruct (list_views _ Hall2 Hpl2) as (HS & _ & HL2 & _ & HC2 & HI2).
  rewrite <- Hblk in HS, HL2, HC2, HI2.
  repeat split; try assumption.
  - now apply (HI2 0%nat).
  - now apply (HI2 1%nat).
  - now apply (HI2 2%nat).
Qed.

(** [BlockHeader] reads back what the canonical block was built from. *)
Lemma BlockHeader_of_canonical (this : ChainParams) (items : list bytes) :
  Forall item_ok items ->
  (N.of_nat (length (extraData this) + length (concat items)) + 1024 < 2 ^ 64 - 257)%N ->
  BlockHeader_of (canonical_block this items) BlockData =
  Ok (mk_BlockHeader (parentHash this) EmptyListSHA3 (author this) (stateRoot this)
        EmptyTrie EmptyTrie (FixedHash_zero 256) (difficulty this) u256_zero
        (gasLimit this) (gasUsed this) (timestamp this) (extraData this) items).
Proof.
  intros Hitems Hfit.
  destruct (canonical_views this items Hitems Hfit)
    as (HS & HL & _ & H0 & H1 & H2 & HLh & HC & HI).
  unfold BlockHeader_of, extractHeader.
  rewrite HS. cbn [res_bind]. rewrite HL. cbn [negb].
  rewrite H0. cbn [res_bind]. rewrite HLh. cbn [negb].
  rewrite H1. cbn [res_bind]. rewrite isList_RLPEmptyList. cbn [negb].
  rewrite H2. cbn [res_bind]. rewrite isList_RLPEmptyList. cbn [negb].
  unfold BlockHeader_populate, field_hash, field_int. cbn [res_bind].
  rewrite (HI 0%nat _ eq_refl); cbn [res_bind]; rewrite toHash_enc by reflexivity; cbn [res_bind].
  rewrite (HI 1%nat _ eq_refl); cbn [res_bind]; rewrite toHash_enc by reflexivity; cbn [res_bind].
  rewrite (HI 2%nat _ eq_refl); cbn [res_bind]; rewrite toHash_enc by reflexivity; cbn [res_bind].
  rewrite (HI 3%nat _ eq_refl); cbn [res_bind]; rewrite toHash_enc by reflexivity; cbn [res_bind].
  rewrite (HI 4%nat _ eq_refl); cbn [res_bind]; rewrite toHash_enc by reflexivity; cbn [res_bind].
  rewrite (HI 5%nat _ eq_refl); cbn [res_bind]; rewrite toHash_enc by reflexivity; cbn [res_bind].
  rewrite (HI 6%nat _ eq_refl); cbn [res_bind]; rewrite toHash_enc by reflexivity; cbn [res_bind].
  rewrite (HI 7%nat _ eq_refl); cbn [res_bind]; rewrite toInt_enc; cbn [res_bind].
  rewrite (HI 8%nat _ eq_refl); cbn [res_bind]; rewrite toInt_enc_0; cbn [res_bind].
  rewrite (HI 9%nat _ eq_refl); cbn [res_bind]; rewrite toInt_enc; cbn [res_bind].
  rewrite (HI 10%nat _ eq_refl); cbn [res_bind]; rewrite toInt_enc; cbn [res_bind].
  rewrite (HI 11%nat _ eq_refl); cbn [res_bind]; rewrite toInt_enc; cbn [res_bind].
  rewrite (HI 12%nat _ eq_refl); cbn [res_bind]; rewrite toBytes_enc by lia; cbn [res_bind].
  rewrite HC. cbn [res_bind].
  replace (N.to_nat BasicFields + length items - N.to_nat BasicFields)%nat
    with (length items) by lia.
  rewrite (res_mapM_index _ _ HI) by (rewrite length_app, basic_fields_length;
    change (N.to_nat BasicFields) with 13%nat; lia).
  cbn [res_bind]. change (N.to_nat BasicFields) with (length (basic_fields this)).
  rewrite drop_app_length, firstn_all. reflexivity.
Qed.


Lemma genesis_stream_inputs (cp1 cp2 : ChainParams) :
  genesis_inputs cp1 = genesis_inputs cp2 -> genesis_stream cp1 = genesis_stream cp2.
Proof.
  destruct cp1, cp2. unfold genesis_inputs; simpl. intros H.
  injection H as -> -> -> -> -> -> -> -> -> -> ->. reflexivity.
Qed.

Lemma populate_fields_canonical (P T : ChainParams) (st : AccountMap)
    (items : list bytes) :
  Forall item_ok items ->
  (N.of_nat (length (extraData P) + length (concat items)) + 1024 < 2 ^ 64 - 257)%N ->
  (BasicFields + N.of_nat (length items) < UNSIGNED_MOD)%N ->
  populate_fields (canonical_block P items) st T = (Ok tt, populated P T st items).
Proof.
  intros Hitems Hfit Hov.
  destruct (canonical_views P items Hitems Hfit)
    as (HS & HL & _ & H0 & H1 & H2 & HLh & HC & HI).
  unfold populate_fields.
  rewrite HS. cbn [res_bind]. rewrite H0. cbn [res_bind]. rewrite HLh.
  rewrite (BlockHeader_of_canonical P items Hitems Hfit).
  rewrite HC. cbn [res_bind].
  rewrite to_unsigned_seal by assumption.
  unfold collect_seal.
  destruct (N.leb_spec UNSIGNED_MOD (N.of_nat (N.to_nat BasicFields + length items)))
    as [Hbad|_].
  { exfalso. unfold BasicFields, UNSIGNED_MOD in *. lia. }
  rewrite andb_false_r.
  replace (N.to_nat BasicFields + length items - N.to_nat BasicFields)%nat
    with (length items) by lia.
  rewrite (collect_seal_loop_index _ _ HI)
    by (rewrite length_app, basic_fields_length;
        change (N.to_nat BasicFields) with 13%nat; lia).
  change (N.to_nat BasicFields) with (length (basic_fields P)).
  rewrite drop_app_length, firstn_all. reflexivity.
Qed.

End RoundTrip.

(* ===================================================================== *)
(** ** The state root and determinism                                     *)
(* ===================================================================== *)

Section StateRoot.
Context `{Collab : Collaborators}.

Lemma populate_fields_stateRoot (raw : bytes) (st : AccountMap) (this : ChainParams) :
  stateRoot (snd (populate_fields raw st this)) = stateRoot this /\
  (fst (populate_fields raw st this) = Ok tt ->
   genesisState (snd (populate_fields raw st this)) = st).
Proof.
  unfold populate_fields.
  destruct (res_bind (RLP_strict raw) _) as [bi|e]; [|split; [reflexivity | discriminate]].
  destruct (res_bind (RLP_strict raw) _) as [[header cnt]|e];
    [|split; [reflexivity | discriminate]].
  destruct (collect_seal header cnt _) as [looped seal]. split; reflexivity.
Qed.

Lemma calculateStateRoot_stateRoot (cp : ChainParams) :
  stateRoot (snd (calculateStateRoot cp)) = stateRoot cp \/
  stateRoot (snd (calculateStateRoot cp)) = root (commit (genesisState cp) trie_init).
Proof.
  unfold calculateStateRoot. destruct (FixedHash_bool (stateRoot cp)); [left | right];
    reflexivity.
Qed.

(** C5. [calculateStateRoot] memoizes: with a non-zero [stateRoot] it
    returns the cached value and leaves the receiver as it is, directly,
    through [genesisBlock], and when called again, and the result does not
    mention the trie; with a zero [stateRoot] it commits [genesisState] to
    a fresh trie, stores the root and returns it. *)
Theorem calculateStateRoot_memoized (cp : ChainParams) :
  (FixedHash_bool (stateRoot cp) = true ->
     calculateStateRoot cp = (Ok (stateRoot cp), cp) /\
     snd (genesisBlock cp) = cp /\
     calculateStateRoot (snd (calculateStateRoot cp)) = (Ok (stateRoot cp), cp)) /\
  (FixedHash_bool (stateRoot cp) = false ->
     calculateStateRoot cp =
       (Ok (root (commit (genesisState cp) trie_init)),
        set_stateRoot (root (commit (genesisState cp) trie_init)) cp)).
Proof.
  split; intros H.
  - pose proof (calculateStateRoot_cached cp H) as E. repeat split.
    + exact E.
    + rewrite genesisBlock_stream, E. reflexivity.
    + rewrite E. exact E.
  - now apply calculateStateRoot_fresh.
Qed.

Lemma calculateStateRoot_again (cp : ChainParams) :
  snd (calculateStateRoot (snd (calculateStateRoot cp))) = snd (calculateStateRoot cp).
Proof.
  destruct cp as [? ? ? ? ? ? ? ? sr ? ? ? ? ? ? ? ? ?].
  unfold calculateStateRoot; cbn.
  destruct (FixedHash_bool sr) eqn:E; cbn; [now rewrite E|].
  destruct (FixedHash_bool (root _)); reflexivity.
Qed.

Lemma genesisBlock_after_calls (k : nat) (cp : ChainParams) :
  fst (genesisBlock (after_calls k cp)) = fst (genesisBlock cp).
Proof.
  induction k as [|k IH]; [reflexivity|].
  change (after_calls (S k) cp) with (snd (genesisBlock (after_calls k cp))).
  now rewrite genesisBlock_again.
Qed.

(** C10. [genesisBlock] is deterministic. Its bytes do not depend on call
    history: any number of earlier calls of [genesisBlock], or a call of
    [calculateStateRoot], on the same value leave them as they are, though
    the first call may write [stateRoot]. They depend only on the fields
    [genesisBlock] reads, and on the account mapping only through the root
    of the trie it is committed to. So they do not depend on the iteration
    order of the account mapping: with a trie whose root is independent of
    the order of the entries (section 4.4), two values that agree on the
    other fields read and whose account mappings hold the same entries, in
    any order, give the same bytes. *)
Theorem genesisBlock_deterministic {Entry : Type} (entries : AccountMap -> list Entry)
    (cp : ChainParams) :
  (forall k : nat, fst (genesisBlock (after_calls k cp)) = fst (genesisBlock cp)) /\
  fst (genesisBlock (snd (calculateStateRoot cp))) = fst (genesisBlock cp) /\
  (forall cp' : ChainParams,
     genesis_inputs cp' = genesis_inputs cp ->
     fst (genesisBlock cp') = fst (genesisBlock cp)) /\
  (forall cp' : ChainParams,
     header_inputs cp' = header_inputs cp ->
     root (commit (genesisState cp') trie_init) = root (commit (genesisState cp) trie_init) ->
     fst (genesisBlock cp') = fst (genesisBlock cp)) /\
  (order_independent entries ->
   forall cp' : ChainParams,
     header_inputs cp' = header_inputs cp ->
     entries (genesisState cp') ≡ₚ entries (genesisState cp) ->
     fst (genesisBlock cp') = fst (genesisBlock cp)).
Proof.
  split; [intros k; apply genesisBlock_after_calls|].
  split; [rewrite !genesisBlock_stream; cbn [fst]; now rewrite calculateStateRoot_again|].
  split; [intros cp' H; now apply genesisBlock_reads_inputs|].
  assert (Hroot : forall cp' : ChainParams,
            header_inputs cp' = header_inputs cp ->
            root (commit (genesisState cp') trie_init)
              = root (commit (genesisState cp) trie_init) ->
            fst (genesisBlock cp') = fst (genesisBlock cp)).
  { intros cp' Hin Hr.
    destruct cp as [? ? ? ? ? ? ? gs sr ? ? ? ? ? ? ? ? ?].
    destruct cp' as [? ? ? ? ? ? ? gs' sr' ? ? ? ? ? ? ? ? ?].
    unfold header_inputs in Hin. cbn in Hin, Hr.
    injection Hin as -> -> -> -> -> -> -> -> -> ->.
    unfold genesisBlock, calculateStateRoot. cbn.
    destruct (FixedHash_bool sr); cbn; [reflexivity|].
    now rewrite Hr. }
  split; [exact Hroot|].
  intros Hord cp' Hin Hperm. apply Hroot; [exact Hin|]. now apply Hord.
Qed.


(** C4. [populateFromGenesis] accepts only bytes that re-assemble exactly:
    when it returns normally, [genesisBlock] of the receiver gives back the
    input bytes; when the populated receiver re-assembles to other bytes,
    it throws ([throw 0]); and the receiver's [stateRoot] is its old one or
    the trie root of the supplied account mapping, never a value decoded
    from the input. *)
Theorem populateFromGenesis_integrity (raw : bytes) (st : AccountMap)
    (this : ChainParams) :
  (fst (populateFromGenesis raw st this) = Ok tt ->
     genesisBlock (snd (populateFromGenesis raw st this)) =
       (Ok raw, snd (populateFromGenesis raw st this))) /\
  (forall (cp1 cp2 : ChainParams) (b : bytes),
     populate_fields raw st this = (Ok tt, cp1) ->
     genesisBlock cp1 = (Ok b, cp2) ->
     b <> raw ->
     populateFromGenesis raw st this = (Err (IntThrown 0), cp2)) /\
  (stateRoot (snd (populateFromGenesis raw st this)) = stateRoot this \/
   stateRoot (snd (populateFromGenesis raw st this)) = root (commit st trie_init)).
Proof.
  rewrite populateFromGenesis_steps.
  pose proof (populate_fields_stateRoot raw st this) as [Hsr Hgs].
  destruct (populate_fields raw st this) as [[[]|e] cp1] eqn:Epf; cbn [fst snd] in *.
  - specialize (Hgs eq_refl).
    pose proof (genesisBlock_again cp1) as Hagain.
    pose proof (genesisBlock_stream cp1) as Hstream.
    pose proof (calculateStateRoot_stateRoot cp1) as Hroot.
    rewrite Hsr, Hgs in Hroot.
    destruct (genesisBlock cp1) as [[b|e] cp2] eqn:Egb; cbn [fst snd] in *.
    + apply (f_equal snd) in Hstream. cbn [snd] in Hstream. rewrite <- Hstream in Hroot.
      destruct (bool_decide_reflect (b = raw)) as [->|Hne]; cbn [fst snd].
      * repeat split; [intros _; exact Hagain | | exact Hroot].
        intros cp1' cp2' b' [= <-] Hg Hb. rewrite Egb in Hg. congruence.
      * repeat split; [discriminate | | exact Hroot].
        intros cp1' cp2' b' [= <-] Hg Hb. rewrite Egb in Hg. congruence.
    + apply (f_equal snd) in Hstream. cbn [snd] in Hstream. rewrite <- Hstream in Hroot.
      repeat split; [discriminate | | exact Hroot].
      intros cp1' cp2' b' [= <-] Hg. rewrite Egb in Hg. discriminate.
  - repeat split; [discriminate | intros ? ? ? [=] | left; exact Hsr].
Qed.

End StateRoot.

(* ===================================================================== *)
(** ** Assembly and its inverse                                           *)
(* ===================================================================== *)

Section Assembly.
Context `{Collab : Collaborators}.

Lemma calculateStateRoot_frame (cp : ChainParams) :
  let this := snd (calculateStateRoot cp) in
  parentHash this = parentHash cp /\ author this = author cp /\
  genesisState this = genesisState cp /\ difficulty this = difficulty cp /\
  gasLimit this = gasLimit cp /\ gasUsed this = gasUsed cp /\
  timestamp this = timestamp cp /\ extraData this = extraData cp /\
  sealFields this = sealFields cp /\ sealRLP this = sealRLP cp /\
  maximumExtraDataSize this = maximumExtraDataSize cp.
Proof.
  unfold calculateStateRoot. destruct (FixedHash_bool (stateRoot cp));
    repeat split; reflexivity.
Qed.

(** The basic fields are what [rlp(x)] gives for each field in turn. *)
Lemma basic_fields_rlp (this : ChainParams) :
  (N.of_nat (length (extraData this)) < 2 ^ 64)%N ->
  res_mapM (fun r : Res bytes => r)
    [ rlp_hash (parentHash this); rlp_hash EmptyListSHA3; rlp_hash (author this);
      rlp_hash (stateRoot this); rlp_hash EmptyTrie; rlp_hash EmptyTrie;
      rlp_hash (FixedHash_zero 256); rlp_u256 (difficulty this); rlp_u256 u256_zero;
      rlp_u256 (gasLimit this); rlp_u256 (gasUsed this); rlp_u256 (timestamp this);
      rlp_bytes (extraData this) ] = Ok (basic_fields this).
Proof.
  intros H. rewrite !rlp_hash_enc by reflexivity. rewrite !rlp_u256_enc.
  rewrite rlp_bytes_enc by assumption. reflexivity.
Qed.

(** C1, as amended. For a value whose [sealRLP] splits into exactly
    [sealFields] raw items, with [BasicFields + sealFields] below 2^32 and
    sizes a [size_t] holds, [genesisBlock] returns the canonical block: a
    list of three items, the header and two empty lists; the header is a
    list of [BasicFields + sealFields] items, the thirteen basic fields in
    their fixed order, each as [rlp] encodes it, then the raw items of
    [sealRLP]; both lists are what [RLPStream] makes of their payloads. *)
Theorem genesisBlock_canonical (cp : ChainParams) (items : list bytes) :
  split_items (sealRLP cp) = Ok items ->
  N.of_nat (length items) = sealFields cp ->
  (BasicFields + sealFields cp < UNSIGNED_MOD)%N ->
  fits_size_t cp ->
  let this := snd (calculateStateRoot cp) in
  let blk := canonical_block this items in
  let hdr := enc_list (concat (basic_fields this ++ items)) in
  genesisBlock cp = (Ok blk, this) /\
  RLP_strict blk = Ok blk /\ isList blk = true /\ itemCount blk = Ok 3%nat /\
  RLP_index blk 0 = Ok hdr /\
  RLP_index blk 1 = Ok RLPEmptyList /\ RLP_index blk 2 = Ok RLPEmptyList /\
  isList hdr = true /\
  itemCount hdr = Ok (N.to_nat (BasicFields + sealFields cp)) /\
  (forall i it, (basic_fields this ++ items) !! i = Some it -> RLP_index hdr i = Ok it) /\
  res_mapM (fun r : Res bytes => r)
    [ rlp_hash (parentHash this); rlp_hash EmptyListSHA3; rlp_hash (author this);
      rlp_hash (stateRoot this); rlp_hash EmptyTrie; rlp_hash EmptyTrie;
      rlp_hash (FixedHash_zero 256); rlp_u256 (difficulty this); rlp_u256 u256_zero;
      rlp_u256 (gasLimit this); rlp_u256 (gasUsed this); rlp_u256 (timestamp this);
      rlp_bytes (extraData this) ] = Ok (basic_fields this) /\
  rlpList (concat (basic_fields this ++ items)) = Ok hdr /\
  rlpList (hdr ++ RLPEmptyList ++ RLPEmptyList) = Ok blk.
Proof.
  intros Hsplit Hlen Hov Hfit this blk hdr.
  destruct (calculateStateRoot_frame cp)
    as (_ & _ & _ & _ & _ & _ & _ & Hed & Hsf & Hsr & _).
  fold this in Hed, Hsf, Hsr.
  assert (Hfit' : fits_size_t this) by (unfold fits_size_t in *; now rewrite Hed, Hsr).
  pose proof (split_items_concat _ _ Hsplit) as Hcat.
  pose proof (split_items_ok _ _ Hsplit) as Hitems.
  assert (Hbound : (N.of_nat (length (extraData this) + length (concat items)) + 1024
                    < 2 ^ 64 - 257)%N).
  { unfold fits_size_t in Hfit'. now rewrite Hcat, <- Hsr. }
  destruct (canonical_views this items Hitems Hbound)
    as (HS & HL & HC3 & H0 & H1 & H2 & HLh & HC & HI).
  split.
  { rewrite genesisBlock_stream. fold this. f_equal.
    apply genesis_stream_canonical; rewrite ?Hsr, ?Hsf; assumption. }
  pose proof (length_basic_fields this ltac:(unfold fits_size_t in Hfit'; lia)) as Hbf.
  assert (Hpl : (N.of_nat (length (concat (basic_fields this ++ items))) < 2 ^ 64 - 257)%N).
  { rewrite concat_app, length_app. lia. }
  pose proof (length_enc_list (concat (basic_fields this ++ items)) ltac:(lia)) as Hlh.
  fold hdr in Hlh. rewrite concat_app, length_app in Hlh, Hpl.
  split; [exact HS|]. split; [exact HL|]. split; [exact HC3|]. split; [exact H0|].
  split; [exact H1|]. split; [exact H2|]. split; [exact HLh|].
  split; [unfold hdr; rewrite HC; f_equal; unfold BasicFields in *; lia|].
  split; [exact HI|].
  split; [apply basic_fields_rlp; unfold fits_size_t in Hfit'; lia|].
  split; [apply rlpList_enc; rewrite concat_app, length_app; lia|].
  apply rlpList_enc. rewrite !length_app. unfold RLPEmptyList. cbn [length]. lia.
Qed.

(** C2, as amended. Let [P] have a non-zero [stateRoot] and a [sealRLP]
    that splits into exactly [sealFields] raw items. Called with
    [genesisBlock(P)] and [P.genesisState] on a receiver whose [stateRoot]
    is [P]'s, or is zero while the trie root of [P.genesisState] is
    [P.stateRoot], [populateFromGenesis] returns normally; the receiver then
    assembles to the same bytes, holds [P]'s header fields and account
    mapping, has [sealFields] equal to the header's item count minus
    [BasicFields] and [sealRLP] equal to the concatenation of the header's
    items after the basic ones. *)
Theorem populateFromGenesis_roundtrip (P T : ChainParams) (items : list bytes) :
  split_items (sealRLP P) = Ok items ->
  N.of_nat (length items) = sealFields P ->
  (BasicFields + sealFields P < UNSIGNED_MOD)%N ->
  fits_size_t P ->
  FixedHash_bool (stateRoot P) = true ->
  (stateRoot T = stateRoot P \/
   (FixedHash_bool (stateRoot T) = false /\
    root (commit (genesisState P) trie_init) = stateRoot P)) ->
  exists (blk : bytes) (Q : ChainParams) (hdr : RLP) (all : list bytes),
    genesisBlock P = (Ok blk, P) /\
    populateFromGenesis blk (genesisState P) T = (Ok tt, Q) /\
    genesisBlock Q = (Ok blk, Q) /\
    parentHash Q = parentHash P /\ author Q = author P /\
    difficulty Q = difficulty P /\ gasLimit Q = gasLimit P /\
    gasUsed Q = gasUsed P /\ timestamp Q = timestamp P /\
    extraData Q = extraData P /\ genesisState Q = genesisState P /\
    stateRoot Q = stateRoot P /\
    RLP_index blk 0 = Ok hdr /\
    res_bind (payload hdr) split_items = Ok all /\
    sealFields Q = (N.of_nat (length all) - BasicFields)%N /\
    sealRLP Q = concat (drop (N.to_nat BasicFields) all) /\
    sealFields Q = sealFields P /\ sealRLP Q = sealRLP P.
Proof.
  intros Hsplit Hlen Hov Hfit Hnz HT.
  pose proof (split_items_concat _ _ Hsplit) as Hcat.
  pose proof (split_items_ok _ _ Hsplit) as Hitems.
  assert (Hbound : (N.of_nat (length (extraData P) + length (concat items)) + 1024
                    < 2 ^ 64 - 257)%N).
  { unfold fits_size_t in Hfit. now rewrite Hcat. }
  pose proof (calculateStateRoot_cached P Hnz) as HcalcP.
  assert (HgbP : genesisBlock P = (Ok (canonical_block P items), P)).
  { rewrite genesisBlock_stream, HcalcP. cbn [snd]. f_equal.
    now apply genesis_stream_canonical. }
  destruct (canonical_views P items Hitems Hbound)
    as (HS & HL & HC3 & H0 & H1 & H2 & HLh & HC & HI).
  assert (Hall : Forall item_ok (basic_fields P ++ items)).
  { apply Forall_app. split; [apply basic_fields_ok; lia | assumption]. }
  assert (Hpl : (N.of_nat (length (concat (basic_fields P ++ items))) < 2 ^ 64 - 257)%N).
  { pose proof (length_basic_fields P ltac:(lia)). rewrite concat_app, length_app. lia. }
  destruct (list_views _ Hall Hpl) as (_ & _ & _ & Hpay & _ & _).
  set (T1 := populated P T (genesisState P) items).
  set (Q := snd (calculateStateRoot T1)).
  assert (HsrQ : stateRoot Q = stateRoot P).
  { subst Q. unfold calculateStateRoot. change (stateRoot T1) with (stateRoot T).
    destruct HT as [E|[Ez Er]].
    - rewrite E, Hnz. exact E.
    - rewrite Ez. exact Er. }
  assert (HQ : genesis_inputs Q = genesis_inputs P).
  { destruct (calculateStateRoot_frame T1)
      as (E1 & E2 & E3 & E4 & E5 & E6 & E7 & E8 & E9 & E10 & _).
    fold Q in E1, E2, E3, E4, E5, E6, E7, E8, E9, E10.
    unfold genesis_inputs. rewrite HsrQ, E1, E2, E3, E4, E5, E6, E7, E8, E9, E10.
    subst T1. unfold populated. cbn. now rewrite Hlen, Hcat. }
  assert (Hstream : genesis_stream Q = Ok (canonical_block P items)).
  { rewrite (genesis_stream_inputs _ _ HQ). now apply genesis_stream_canonical. }
  assert (HcalcQ : calculateStateRoot Q = (Ok (stateRoot Q), Q)).
  { apply calculateStateRoot_cached. now rewrite HsrQ. }
  exists (canonical_block P items), Q,
    (enc_list (concat (basic_fields P ++ items))), (basic_fields P ++ items).
  split; [exact HgbP|]. split.
  { rewrite populateFromGenesis_steps.
    rewrite populate_fields_canonical by (rewrite ?Hlen; assumption).
    fold T1. rewrite genesisBlock_stream. fold Q. rewrite Hstream.
    now rewrite bool_decide_eq_true_2. }
  split.
  { rewrite genesisBlock_stream, HcalcQ. cbn [snd]. now rewrite Hstream. }
  unfold genesis_inputs in HQ.
  injection HQ as E1 E2 E3 E4 E5 E6 E7 E8 E9 E10 E11.
  repeat split; try assumption.
  - rewrite Hpay. cbn [res_bind]. now apply split_items_items.
  - rewrite E10, length_app, basic_fields_length. unfold BasicFields. lia.
  - change (N.to_nat BasicFields) with (length (basic_fields P)).
    rewrite drop_app_length. now rewrite E11.
Qed.

End Assembly.

(* ===================================================================== *)
(** ** Parsing                                                            *)
(* ===================================================================== *)

(** Invert [res_bind e k = Ok x]: [e] returned normally. *)
Ltac inv_bind H :=
  match type of H with
  | res_bind ?e _ = Ok _ =>
      let E := fresh "E" in
      destruct e eqn:E; cbn [res_bind] in H; [|discriminate H]
  end.

Tactic Notation "inv_bind_as" hyp(H) ident(x) ident(E) :=
  match type of H with
  | res_bind ?e _ = Ok _ =>
      destruct e as [x|] eqn:E; cbn [res_bind] in H; [|discriminate H]
  end.

Lemma fold_otherParams_Err (l : list (string * mValue)) (e : exn) :
  fold_left otherParams_step l (Err e) = Err e.
Proof. induction l as [|kv l IH]; [reflexivity | exact IH]. Qed.

(** What the loop of lines 116-118 leaves in [otherParams]. *)
Lemma fold_otherParams (l : list (string * mValue)) :
  forall m0 m : gmap string string,
  NoDup (l.*1) ->
  fold_left otherParams_step l (Ok m0) = Ok m ->
  (forall k v, (k, v) ∈ l -> is_named_param k = false ->
     exists s, v = Str_v s /\ m !! k = Some s) /\
  (forall k, is_named_param k = true \/ k ∉ l.*1 -> m !! k = m0 !! k).
Proof.
  induction l as [|[k0 v0] l IH]; intros m0 m Hnd H.
  - injection H as <-. split; [intros k v Hin; inversion Hin | reflexivity].
  - cbn [fold_left] in H. apply NoDup_cons in Hnd as [Hk0 Hnd].
    unfold otherParams_step at 2 in H. cbn [res_bind fst snd] in H.
    destruct (is_named_param k0) eqn:Enamed; cbn [negb] in H.
    + destruct (IH _ _ Hnd H) as [IH1 IH2]. split.
      * intros k v Hin Hk. apply elem_of_cons in Hin as [[= -> ->]|Hin]; [congruence|].
        now apply IH1.
      * intros k [Hk|Hk]; apply IH2; [now left|].
        right. cbn in Hk. now apply not_elem_of_cons in Hk as [_ Hk].
    + destruct v0 as [|s0| | | | |]; cbn [get_str res_bind] in H;
        try (rewrite fold_otherParams_Err in H; discriminate).
      destruct (IH _ _ Hnd H) as [IH1 IH2]. split.
      * intros k v Hin Hk. apply elem_of_cons in Hin as [[= -> ->]|Hin].
        -- exists s0. split; [reflexivity|].
           rewrite IH2 by (now right). apply lookup_insert_eq.
        -- now apply IH1.
      * intros k Hk. rewrite IH2.
        -- destruct Hk as [Hk|Hk].
           ++ apply lookup_insert_ne. intros ->. congruence.
           ++ apply lookup_insert_ne. intros ->. apply Hk. cbn. apply elem_of_cons. now left.
        -- destruct Hk as [Hk|Hk]; [now left|]. right. cbn in Hk.
           now apply not_elem_of_cons in Hk as [_ Hk].
Qed.

Section Parsing.
Context `{Collab : Collaborators}.

(** The last statement of [setGenesis] (line 89) touches [stateRoot] only. *)
Lemma setGenesis_stateRoot_frame (sr : h256) (cp0 cp : ChainParams) :
  (if FixedHash_bool sr then Ok (set_stateRoot sr cp0)
   else let '(r, cp1) := calculateStateRoot cp0 in
        res_bind r (fun r0 => Ok (set_stateRoot r0 cp1))) = Ok cp ->
  sealFields cp = sealFields cp0 /\ sealRLP cp = sealRLP cp0.
Proof.
  destruct cp0 as [? ? ? ? ? ? ? ? sr0 ? ? ? ? ? ? ? ? ?].
  unfold calculateStateRoot. cbn.
  destruct (FixedHash_bool sr); [intros [= <-]; split; reflexivity|].
  destruct (FixedHash_bool sr0); cbn; intros [= <-]; split; reflexivity.
Qed.

Lemma header_setters_seal (org : ChainParams) a a0 a1 a2 a3 a4 a5 :
  let cp0 := set_extraData a5 (set_timestamp a4 (set_gasUsed a3 (set_gasLimit a2
               (set_difficulty a1 (set_author a0 (set_parentHash a org)))))) in
  sealFields cp0 = sealFields org /\ sealRLP cp0 = sealRLP org.
Proof. destruct org. split; reflexivity. Qed.

Lemma seal_setters_seal (cp0 : ChainParams) (n : N) (d : bytes) :
  sealFields (set_sealRLP d (set_sealFields n cp0)) = n /\
  sealRLP (set_sealRLP d (set_sealFields n cp0)) = d.
Proof. destruct cp0. split; reflexivity. Qed.



(** C6. [setGenesis] detects the proof-of-work seal: with a ["mixhash"] or
    ["mixHash"] key (["mixhash"] looked up first) and a ["nonce"] key,
    [sealFields] is 2 and [sealRLP] is [rlp(mixHash)] followed by
    [rlp(nonce)], which splits into exactly those two items; without
    them, both fields are [_org]'s. *)
Theorem setGenesis_seal (json : json_text) (sr : h256) (org cp : ChainParams)
    (genesis : mObject) :
  get_obj (read_string json) = Ok genesis ->
  setGenesis json sr org = Ok cp ->
  if (obj_count genesis "mixhash" || obj_count genesis "mixHash")
     && obj_count genesis "nonce"
  then
    exists (mixText nonceText : string) (mixHash : h256) (nonce : h64),
      get_str (obj_at genesis (if obj_count genesis "mixhash" then "mixhash" else "mixHash"))
        = Ok mixText /\
      FixedHash_of_string 32 mixText = Ok mixHash /\
      get_str (obj_at genesis "nonce") = Ok nonceText /\
      FixedHash_of_string 8 nonceText = Ok nonce /\
      sealFields cp = 2%N /\
      rlp_hash mixHash = Ok (enc_data (fh_data mixHash)) /\
      rlp_hash nonce = Ok (enc_data (fh_data nonce)) /\
      sealRLP cp = enc_data (fh_data mixHash) ++ enc_data (fh_data nonce) /\
      split_items (sealRLP cp) = Ok [enc_data (fh_data mixHash); enc_data (fh_data nonce)]
  else sealFields cp = sealFields org /\ sealRLP cp = sealRLP org.
Proof.
  intros Hobj H. unfold setGenesis in H. rewrite ChainParams_copy_id, Hobj in H.
  cbn [res_bind] in H.
  do 7 inv_bind H.
  destruct ((obj_count genesis "mixhash" || obj_count genesis "mixHash")
            && obj_count genesis "nonce").
  - inv_bind_as H cp0 Ecp0.
    inv_bind_as Ecp0 mixHash Emix. inv_bind_as Emix mixText Emt.
    inv_bind_as Ecp0 nonce Enonce. inv_bind_as Enonce nonceText Ent.
    rewrite !rlp_hash_enc in Ecp0 by reflexivity.
    cbn [res_bind] in Ecp0. injection Ecp0 as <-.
    exists mixText, nonceText, mixHash, nonce.
    apply setGenesis_stateRoot_frame in H. destruct H as [Hsf Hsr].
    rewrite (proj1 (seal_setters_seal _ _ _)) in Hsf.
    rewrite (proj2 (seal_setters_seal _ _ _)) in Hsr.
    split; [first [exact Emt | reflexivity]|]. split; [exact Emix|].
    split; [first [exact Ent | reflexivity]|]. split; [exact Enonce|].
    split; [exact Hsf|].
    split; [apply rlp_hash_enc; reflexivity|].
    split; [apply rlp_hash_enc; reflexivity|].
    split; [exact Hsr|].
    rewrite Hsr.
    assert (Hc : enc_data (fh_data mixHash) ++ enc_data (fh_data nonce) =
                 concat [enc_data (fh_data mixHash); enc_data (fh_data nonce)])
      by (cbn [concat]; now rewrite app_nil_r).
    rewrite Hc. apply split_items_items.
    apply Forall_cons_2; [apply item_ok_enc_data; rewrite FixedHash_length; reflexivity|].
    apply Forall_cons_2; [apply item_ok_enc_data; rewrite FixedHash_length; reflexivity|].
    apply Forall_nil_2.
  - cbn [res_bind] in H.
    apply setGenesis_stateRoot_frame in H. destruct H as [Hsf Hsr].
    rewrite Hsf, Hsr. apply header_setters_seal.
Qed.

(** C7, as amended. [genesisBlock] does not look at
    [maximumExtraDataSize]: changing it does not change the bytes, and a
    value with a well-formed seal is assembled whatever the size of its
    [extraData], the header carrying [extraData] whole. *)
Theorem genesisBlock_ignores_maximumExtraDataSize (cp : ChainParams) (m : u256)
    (items : list bytes) :
  fst (genesisBlock (set_maximumExtraDataSize m cp)) = fst (genesisBlock cp) /\
  (split_items (sealRLP cp) = Ok items ->
   N.of_nat (length items) = sealFields cp ->
   (BasicFields + sealFields cp < UNSIGNED_MOD)%N ->
   fits_size_t cp ->
   exists (blk : bytes) (bi : BlockHeader),
     fst (genesisBlock cp) = Ok blk /\
     BlockHeader_of blk BlockData = Ok bi /\
     m_extraData bi = extraData cp).
Proof.
  split.
  - apply genesisBlock_reads_inputs. destruct cp; reflexivity.
  - intros Hsplit Hlen Hov Hfit.
    destruct (calculateStateRoot_frame cp)
      as (_ & _ & _ & _ & _ & _ & _ & Hed & Hsf & Hsr & _).
    pose proof (split_items_concat _ _ Hsplit) as Hcat.
    pose proof (split_items_ok _ _ Hsplit) as Hitems.
    assert (Hgb : fst (genesisBlock cp)
                  = Ok (canonical_block (snd (calculateStateRoot cp)) items)).
    { rewrite genesisBlock_stream. cbn [fst].
      apply genesis_stream_canonical; rewrite ?Hsr, ?Hsf; try assumption.
      unfold fits_size_t in *. now rewrite Hed, Hsr. }
    eexists. eexists. split; [exact Hgb|]. split.
    + apply BlockHeader_of_canonical; [assumption|].
      unfold fits_size_t in Hfit. now rewrite Hed, Hcat.
    + exact Hed.
Qed.

End Parsing.

(* ===================================================================== *)
(** ** Copies and the genesis header fields                              *)
(* ===================================================================== *)

Section GenesisSpec.
Context `{Collab : Collaborators}.

(** X1. The copy constructor gives an equal value: copying [otherParams] entry
    by entry rebuilds the same map, and every other field is assigned. *)
Theorem ChainParams_copy_equal (org : ChainParams) : ChainParams_copy org = org.
Proof.
  destruct org as [? ? ? ? ? op ? ? ? ? ? ? ? ? ? ? ? ?].
  unfold ChainParams_copy. cbn. f_equal.
  apply (map_fold_weak_ind (fun copied m => copied = m)); [reflexivity|].
  intros k v m copied _ ->. reflexivity.
Qed.

(** The state root [setGenesis] leaves (line 89). *)
Lemma setGenesis_stateRoot_value (sr : h256) (cp0 cp : ChainParams) :
  (if FixedHash_bool sr then Ok (set_stateRoot sr cp0)
   else let '(r, cp1) := calculateStateRoot cp0 in
        res_bind r (fun r0 => Ok (set_stateRoot r0 cp1))) = Ok cp ->
  cp = set_stateRoot
         (if FixedHash_bool sr then sr
          else if FixedHash_bool (stateRoot cp0) then stateRoot cp0
               else root (commit (genesisState cp0) trie_init)) cp0.
Proof.
  destruct cp0 as [? ? ? ? ? ? ? ? sr0 ? ? ? ? ? ? ? ? ?].
  unfold calculateStateRoot. cbn.
  destruct (FixedHash_bool sr); [intros [= <-]; reflexivity|].
  destruct (FixedHash_bool sr0); cbn; intros [= <-]; reflexivity.
Qed.

(** What [setGenesis] returns, field by field. *)
Lemma setGenesis_inv (json : json_text) (sr : h256) (org cp : ChainParams)
    (genesis : mObject) :
  get_obj (read_string json) = Ok genesis ->
  setGenesis json sr org = Ok cp ->
  exists ph au di gl gu ts ed sf srlp,
    res_bind (get_str (obj_at genesis "parentHash")) (FixedHash_of_string 32) = Ok ph /\
    (if obj_count genesis "coinbase"
     then res_bind (get_str (obj_at genesis "coinbase")) (FixedHash_of_string 20)
     else res_bind (get_str (obj_at genesis "author")) (FixedHash_of_string 20)) = Ok au /\
    (if obj_count genesis "difficulty"
     then res_bind (get_str (obj_at genesis "difficulty")) u256_of_hex
     else Ok u256_zero) = Ok di /\
    res_bind (get_str (obj_at genesis "gasLimit")) u256_of_hex = Ok gl /\
    (if obj_count genesis "gasUsed"
     then res_bind (get_str (obj_at genesis "gasUsed")) u256_of_hex
     else Ok u256_zero) = Ok gu /\
    res_bind (get_str (obj_at genesis "timestamp")) u256_of_hex = Ok ts /\
    res_bind (get_str (obj_at genesis "extraData")) fromHex = Ok ed /\
    (if (obj_count genesis "mixhash" || obj_count genesis "mixHash")
        && obj_count genesis "nonce"
     then exists (mixHash : h256) (nonce : h64),
       res_bind (get_str (obj_at genesis
                   (if obj_count genesis "mixhash" then "mixhash" else "mixHash")))
                (FixedHash_of_string 32) = Ok mixHash /\
       res_bind (get_str (obj_at genesis "nonce")) (FixedHash_of_string 8) = Ok nonce /\
       sf = 2%N /\ srlp = enc_data (fh_data mixHash) ++ enc_data (fh_data nonce)
     else sf = sealFields org /\ srlp = sealRLP org) /\
    cp = mk_ChainParams (sealEngineName org) (accountStartNonce org)
           (maximumExtraDataSize org) (tieBreakingGas org) (blockReward org)
           (otherParams org) (precompiled org) (genesisState org)
           (if FixedHash_bool sr then sr
            else if FixedHash_bool (stateRoot org) then stateRoot org
                 else root (commit (genesisState org) trie_init))
           ph au di gl gu ts ed sf srlp.
Proof.
  intros Hobj H. unfold setGenesis in H. rewrite ChainParams_copy_id, Hobj in H.
  cbn [res_bind] in H.
  inv_bind_as H ph Eph. inv_bind_as H au Eau. inv_bind_as H di Edi.
  inv_bind_as H gl Egl. inv_bind_as H gu Egu. inv_bind_as H ts Ets.
  inv_bind_as H ed Eed.
  destruct ((obj_count genesis "mixhash" || obj_count genesis "mixHash")
            && obj_count genesis "nonce").
  - inv_bind_as H cp0 Ecp0.
    inv_bind_as Ecp0 mixHash Emix.
    inv_bind_as Ecp0 nonce Enonce.
    rewrite !rlp_hash_enc in Ecp0 by reflexivity.
    cbn [res_bind] in Ecp0. injection Ecp0 as <-.
    apply setGenesis_stateRoot_value in H.
    exists ph, au, di, gl, gu, ts, ed, 2%N,
      (enc_data (fh_data mixHash) ++ enc_data (fh_data nonce)).
    do 7 (split; [first [assumption | reflexivity]|]).
    split; [exists mixHash, nonce; repeat split; first [assumption | reflexivity]|].
    rewrite H. destruct org; reflexivity.
  - cbn [res_bind] in H. apply setGenesis_stateRoot_value in H.
    exists ph, au, di, gl, gu, ts, ed, (sealFields org), (sealRLP org).
    do 7 (split; [first [assumption | reflexivity]|]).
    split; [split; reflexivity|].
    rewrite H. destruct org; reflexivity.
Qed.


(** The other direction: from the parsed values to the result. *)
Lemma setGenesis_intro (json : json_text) (sr : h256) (org : ChainParams)
    (genesis : mObject) ph au di gl gu ts ed sf srlp :
  get_obj (read_string json) = Ok genesis ->
  res_bind (get_str (obj_at genesis "parentHash")) (FixedHash_of_string 32) = Ok ph ->
  (if obj_count genesis "coinbase"
   then res_bind (get_str (obj_at genesis "coinbase")) (FixedHash_of_string 20)
   else res_bind (get_str (obj_at genesis "author")) (FixedHash_of_string 20)) = Ok au ->
  (if obj_count genesis "difficulty"
   then res_bind (get_str (obj_at genesis "difficulty")) u256_of_hex
   else Ok u256_zero) = Ok di ->
  res_bind (get_str (obj_at genesis "gasLimit")) u256_of_hex = Ok gl ->
  (if obj_count genesis "gasUsed"
   then res_bind (get_str (obj_at genesis "gasUsed")) u256_of_hex
   else Ok u256_zero) = Ok gu ->
  res_bind (get_str (obj_at genesis "timestamp")) u256_of_hex = Ok ts ->
  res_bind (get_str (obj_at genesis "extraData")) fromHex = Ok ed ->
  (if (obj_count genesis "mixhash" || obj_count genesis "mixHash")
      && obj_count genesis "nonce"
   then exists (mixHash : h256) (nonce : h64),
     res_bind (get_str (obj_at genesis
                 (if obj_count genesis "mixhash" then "mixhash" else "mixHash")))
              (FixedHash_of_string 32) = Ok mixHash /\
     res_bind (get_str (obj_at genesis "nonce")) (FixedHash_of_string 8) = Ok nonce /\
     sf = 2%N /\ srlp = enc_data (fh_data mixHash) ++ enc_data (fh_data nonce)
   else sf = sealFields org /\ srlp = sealRLP org) ->
  setGenesis json sr org =
  Ok (mk_ChainParams (sealEngineName org) (accountStartNonce org)
        (maximumExtraDataSize org) (tieBreakingGas org) (blockReward org)
        (otherParams org) (precompiled org) (genesisState org)
        (if FixedHash_bool sr then sr
         else if FixedHash_bool (stateRoot org) then stateRoot org
              else root (commit (genesisState org) trie_init))
        ph au di gl gu ts ed sf srlp).
Proof.
  intros Hobj Eph Eau Edi Egl Egu Ets Eed Hseal.
  unfold setGenesis. rewrite ChainParams_copy_id, Hobj. cbn [res_bind].
  rewrite Eph. cbn [res_bind]. rewrite Eau. cbn [res_bind].
  rewrite Edi. cbn [res_bind]. rewrite Egl. cbn [res_bind].
  rewrite Egu. cbn [res_bind]. rewrite Ets. cbn [res_bind].
  rewrite Eed. cbn [res_bind].
  destruct ((obj_count genesis "mixhash" || obj_count genesis "mixHash")
            && obj_count genesis "nonce").
  - destruct Hseal as (mixHash & nonce & Emix & Enonce & -> & ->).
    rewrite Emix. cbn [res_bind]. rewrite Enonce. cbn [res_bind].
    rewrite !rlp_hash_enc by reflexivity. cbn [res_bind].
    destruct org as [? ? ? ? ? ? ? ? sr0 ? ? ? ? ? ? ? ? ?].
    unfold calculateStateRoot. cbn.
    destruct (FixedHash_bool sr); [reflexivity|].
    destruct (FixedHash_bool sr0); reflexivity.
  - destruct Hseal as [-> ->]. cbn [res_bind].
    destruct org as [? ? ? ? ? ? ? ? sr0 ? ? ? ? ? ? ? ? ?].
    unfold calculateStateRoot. cbn.
    destruct (FixedHash_bool sr); [reflexivity|].
    destruct (FixedHash_bool sr0); reflexivity.
Qed.

Lemma setGenesis_object (json : json_text) (sr : h256) (org cp : ChainParams) :
  setGenesis json sr org = Ok cp -> exists genesis, get_obj (read_string json) = Ok genesis.
Proof.
  unfold setGenesis. destruct (get_obj (read_string json)) as [genesis|e];
    [intros _; now exists genesis | discriminate].
Qed.

Lemma get_str_obj_at (o : mObject) (k : string) (s : string) :
  get_str (obj_at o k) = Ok s -> o !! k = Some (Str_v s).
Proof.
  unfold obj_at. destruct (o !! k) as [[]|]; cbn; intros [= ->]; reflexivity.
Qed.

Lemma bind_get_str {A} (o : mObject) (k : string) (f : string -> Res A) (a : A) :
  res_bind (get_str (obj_at o k)) f = Ok a ->
  exists s, o !! k = Some (Str_v s) /\ f s = Ok a.
Proof.
  destruct (get_str (obj_at o k)) as [s|e] eqn:E; cbn; [|discriminate].
  intros H. exists s. split; [now apply get_str_obj_at | exact H].
Qed.

(** The fields [setGenesis] leaves alone, and the state root it settles on. *)
Lemma setGenesis_frame_root (json : json_text) (sr : h256) (org cp : ChainParams) :
  setGenesis json sr org = Ok cp ->
  sealEngineName cp = sealEngineName org /\
  accountStartNonce cp = accountStartNonce org /\
  maximumExtraDataSize cp = maximumExtraDataSize org /\
  tieBreakingGas cp = tieBreakingGas org /\
  blockReward cp = blockReward org /\
  otherParams cp = otherParams org /\
  precompiled cp = precompiled org /\
  genesisState cp = genesisState org /\
  stateRoot cp =
    (if FixedHash_bool sr then sr
     else if FixedHash_bool (stateRoot org) then stateRoot org
          else root (commit (genesisState org) trie_init)).
Proof.
  intros H. destruct (setGenesis_object _ _ _ _ H) as [genesis Hobj].
  destruct (setGenesis_inv _ _ _ _ _ Hobj H)
    as (ph & au & di & gl & gu & ts & ed & sf & srlp & _ & _ & _ & _ & _ & _ & _ & _ & ->).
  repeat split.
Qed.

(** X2. [setGenesis] assigns the header fields and [stateRoot] only: the chain
    configuration, the precompiled table and the account mapping are
    [_org]'s. The state root is the override when that is non-zero, else
    [_org]'s when that is non-zero, else the trie root of [_org]'s
    accounts. *)
Theorem setGenesis_keeps_config (json : json_text) (sr : h256) (org cp : ChainParams) :
  setGenesis json sr org = Ok cp ->
  sealEngineName cp = sealEngineName org /\
  accountStartNonce cp = accountStartNonce org /\
  maximumExtraDataSize cp = maximumExtraDataSize org /\
  tieBreakingGas cp = tieBreakingGas org /\
  blockReward cp = blockReward org /\
  otherParams cp = otherParams org /\
  precompiled cp = precompiled org /\
  genesisState cp = genesisState org /\
  stateRoot cp =
    (if FixedHash_bool sr then sr
     else if FixedHash_bool (stateRoot org) then stateRoot org
          else root (commit (genesisState org) trie_init)).
Proof.
  intros H. destruct (setGenesis_object _ _ _ _ H) as [genesis Hobj].
  destruct (setGenesis_inv _ _ _ _ _ Hobj H)
    as (ph & au & di & gl & gu & ts & ed & sf & srlp & _ & _ & _ & _ & _ & _ & _ & _ & ->).
  repeat split.
Qed.

(** X3. [setGenesis]: ["coinbase"] wins over ["author"]; [difficulty] and
    [gasUsed] are zero when their keys are absent. *)
Theorem setGenesis_precedence_defaults (json : json_text) (sr : h256)
    (org cp : ChainParams) (genesis : mObject) :
  get_obj (read_string json) = Ok genesis ->
  setGenesis json sr org = Ok cp ->
  (forall v, genesis !! "coinbase" = Some v ->
     res_bind (get_str v) (FixedHash_of_string 20) = Ok (author cp)) /\
  (genesis !! "coinbase" = None ->
     res_bind (get_str (obj_at genesis "author")) (FixedHash_of_string 20)
       = Ok (author cp)) /\
  (genesis !! "difficulty" = None -> difficulty cp = u256_zero) /\
  (forall v, genesis !! "difficulty" = Some v ->
     res_bind (get_str v) u256_of_hex = Ok (difficulty cp)) /\
  (genesis !! "gasUsed" = None -> gasUsed cp = u256_zero) /\
  (forall v, genesis !! "gasUsed" = Some v ->
     res_bind (get_str v) u256_of_hex = Ok (gasUsed cp)).
Proof.
  intros Hobj H.
  destruct (setGenesis_inv _ _ _ _ _ Hobj H)
    as (ph & au & di & gl & gu & ts & ed & sf & srlp
        & _ & Eau & Edi & _ & Egu & _ & _ & _ & ->).
  cbn [author difficulty gasUsed].
  unfold obj_count, obj_at in Eau, Edi, Egu.
  split; [intros v Hv; now rewrite Hv in Eau|].
  split; [intros Hv; unfold obj_at; now rewrite Hv in Eau|].
  split; [intros Hv; rewrite Hv in Edi; congruence|].
  split; [intros v Hv; now rewrite Hv in Edi|].
  split; [intros Hv; rewrite Hv in Egu; congruence|].
  intros v Hv; now rewrite Hv in Egu.
Qed.

(** X4. [setGenesis] returns only for a JSON object that has string values at
    ["parentHash"], ["gasLimit"], ["timestamp"], ["extraData"] and at
    ["coinbase"] or, without that key, ["author"]; the header fields are
    what these strings parse to. A document that is not an object, and an
    object without ["parentHash"], raise the json_spirit type error. *)
Theorem setGenesis_required_keys (json : json_text) (sr : h256) (org : ChainParams) :
  (forall cp, setGenesis json sr org = Ok cp ->
     exists (genesis : mObject) (ph au gl ts ed : string),
       json = Obj_v genesis /\
       genesis !! "parentHash" = Some (Str_v ph) /\
       FixedHash_of_string 32 ph = Ok (parentHash cp) /\
       (genesis !! "coinbase" = Some (Str_v au) \/
        (genesis !! "coinbase" = None /\ genesis !! "author" = Some (Str_v au))) /\
       FixedHash_of_string 20 au = Ok (author cp) /\
       genesis !! "gasLimit" = Some (Str_v gl) /\
       u256_of_hex gl = Ok (gasLimit cp) /\
       genesis !! "timestamp" = Some (Str_v ts) /\
       u256_of_hex ts = Ok (timestamp cp) /\
       genesis !! "extraData" = Some (Str_v ed) /\
       fromHex ed = Ok (extraData cp)) /\
  ((forall genesis, json <> Obj_v genesis) -> setGenesis json sr org = Err JsonTypeError) /\
  (forall genesis, json = Obj_v genesis -> genesis !! "parentHash" = None ->
     setGenesis json sr org = Err JsonTypeError).
Proof.
  split; [|split].
  - intros cp H. destruct (setGenesis_object _ _ _ _ H) as [genesis Hobj].
    destruct (setGenesis_inv _ _ _ _ _ Hobj H)
      as (ph & au & di & gl & gu & ts & ed & sf & srlp
          & Eph & Eau & _ & Egl & _ & Ets & Eed & _ & ->).
    cbn [parentHash author gasLimit timestamp extraData].
    apply bind_get_str in Eph as (phs & Kph & Pph).
    apply bind_get_str in Egl as (gls & Kgl & Pgl).
    apply bind_get_str in Ets as (tss & Kts & Pts).
    apply bind_get_str in Eed as (eds & Ked & Ped).
    assert (Hau : exists aus,
      (genesis !! "coinbase" = Some (Str_v aus) \/
       (genesis !! "coinbase" = None /\ genesis !! "author" = Some (Str_v aus))) /\
      FixedHash_of_string 20 aus = Ok au).
    { unfold obj_count in Eau. destruct (genesis !! "coinbase") as [v|] eqn:Ecb.
      - apply bind_get_str in Eau as (aus & Kau & Pau). exists aus.
        split; [left; congruence | exact Pau].
      - apply bind_get_str in Eau as (aus & Kau & Pau). exists aus.
        split; [right; split; [reflexivity | exact Kau] | exact Pau]. }
    destruct Hau as (aus & Kau & Pau).
    exists genesis, phs, aus, gls, tss, eds.
    split. { unfold read_string in Hobj. destruct json; cbn in Hobj; congruence. }
    repeat split; assumption.
  - intros Hno. unfold setGenesis, read_string.
    destruct json as [| | | | |o|]; try reflexivity. now destruct (Hno o).
  - intros genesis -> Hph. unfold setGenesis, read_string. cbn [get_obj res_bind].
    unfold obj_at at 1. rewrite Hph. reflexivity.
Qed.

(** X5. Loading the same genesis a second time changes nothing. *)
Theorem loadGenesis_idempotent (this : ChainParams) (json : json_text) (sr : h256)
    (cp : ChainParams) :
  loadGenesis this json sr = Ok cp -> loadGenesis cp json sr = Ok cp.
Proof.
  unfold loadGenesis. intros H.
  destruct (setGenesis_object _ _ _ _ H) as [genesis Hobj].
  destruct (setGenesis_inv _ _ _ _ _ Hobj H)
    as (ph & au & di & gl & gu & ts & ed & sf & srlp
        & Eph & Eau & Edi & Egl & Egu & Ets & Eed & Hseal & ->).
  rewrite (setGenesis_intro json sr _ genesis ph au di gl gu ts ed sf srlp
             Hobj Eph Eau Edi Egl Egu Ets Eed).
  - cbn [sealEngineName accountStartNonce maximumExtraDataSize tieBreakingGas blockReward
         otherParams precompiled genesisState stateRoot].
    f_equal. f_equal.
    destruct (FixedHash_bool sr); [reflexivity|].
    destruct (FixedHash_bool (stateRoot this)) eqn:E0; [now rewrite E0|].
    destruct (FixedHash_bool (root _)); reflexivity.
  - destruct ((obj_count genesis "mixhash" || obj_count genesis "mixHash")
              && obj_count genesis "nonce"); [exact Hseal | split; reflexivity].
Qed.

End GenesisSpec.

(* ===================================================================== *)
(** ** The bytes of the genesis block                                    *)
(* ===================================================================== *)

Section GenesisBytes.
Context `{Collab : Collaborators}.

(** The stream operations of [genesisBlock] for any seal bytes: the bytes
    of [sealRLP] are copied as they are, into the header list when
    [sealFields] is not zero and behind it otherwise. *)
Lemma genesis_stream_bytes (this : ChainParams) :
  (BasicFields + sealFields this < UNSIGNED_MOD)%N ->
  fits_size_t this ->
  genesis_stream this =
  Ok (if (sealFields this =? 0)%N
      then enc_list (enc_list (concat (basic_fields this)) ++ sealRLP this
                     ++ RLPEmptyList ++ RLPEmptyList)
      else enc_list (enc_list (concat (basic_fields this) ++ sealRLP this)
                     ++ RLPEmptyList ++ RLPEmptyList)).
Proof.
  intros Hov Hfit.
  unfold fits_size_t in Hfit. change BasicFields with 13%N in *.
  assert (Hed : (N.of_nat (length (extraData this)) < 2 ^ 64)%N) by lia.
  pose proof (length_basic_fields this Hed) as Hbf.
  assert (Hcb : concat (basic_fields this) =
    ((((((((((((([] ++ enc_data (fh_data (parentHash this))) ++
      enc_data (fh_data EmptyListSHA3)) ++ enc_data (fh_data (author this))) ++
      enc_data (fh_data (stateRoot this))) ++ enc_data (fh_data EmptyTrie)) ++
      enc_data (fh_data EmptyTrie)) ++ enc_data (fh_data (FixedHash_zero 256))) ++
      enc_int (u256_val (difficulty this))) ++ enc_int 0) ++
      enc_int (u256_val (gasLimit this))) ++ enc_int (u256_val (gasUsed this))) ++
      enc_int (u256_val (timestamp this))) ++ enc_data (extraData this))).
  { unfold basic_fields. cbn [concat]. rewrite app_nil_r, <- !app_assoc. reflexivity. }
  unfold genesis_stream. change BasicFields with 13%N.
  rewrite N.mod_small by assumption.
  change (RLPStream_list 3) with (Ok (mk_RLPStream [] [(3%N, 0%nat)])).
  cbn [res_bind]. unfold appendList.
  destruct (N.eqb_spec (13 + sealFields this) 0%N); [lia|].
  cbn [negb res_bind m_out m_listStack length].
  do 12 (first [ rewrite append_hash_enc by reflexivity
                | rewrite append_u256_enc
                | rewrite append_bigint_enc by reflexivity ];
         rewrite noteAppended_push_open by lia; cbn [res_bind]).
  rewrite append_bytes_enc by assumption.
  destruct (N.eqb_spec (sealFields this) 0%N) as [E0|E0].
  - rewrite E0.
    unfold noteAppended at 1. cbn [N.eqb push_bytes m_out m_listStack].
    rewrite <- Hcb.
    rewrite noteAppended_loop_close; [| reflexivity | lia].
    rewrite noteAppended_loop_outer. cbn [res_bind].
    unfold appendRaw at 1. change (noteAppended 0 ?x) with (Ok x). cbn [res_bind].
    unfold push_bytes. cbn [m_out m_listStack].
    rewrite finish_outer.
    + now rewrite <- app_assoc.
    + pose proof (length_enc_list (concat (basic_fields this)) ltac:(lia)).
      rewrite length_app. lia.
  - rewrite noteAppended_push_open by lia. cbn [res_bind].
    rewrite <- Hcb.
    unfold appendRaw at 1. unfold noteAppended at 1.
    destruct (N.eqb_spec (sealFields this) 0%N); [contradiction|].
    unfold push_bytes. cbn [m_out m_listStack].
    rewrite noteAppended_loop_close; [| lia | rewrite length_app; lia].
    rewrite noteAppended_loop_outer. cbn [res_bind].
    apply finish_outer.
    pose proof (length_enc_list (concat (basic_fields this) ++ sealRLP this)
                  ltac:(rewrite length_app; lia)) as Hl.
    rewrite length_app in Hl. lia.
Qed.

(** X6. [genesisBlock] does not look into [sealRLP] and does not throw: when
    [BasicFields + sealFields] does not wrap, it returns the outer list of
    the header list and two empty lists, with the bytes of [sealRLP] copied
    as they are to the end of the header list when [sealFields] is not
    zero, and between the header list and the empty lists when it is. *)
Theorem genesisBlock_copies_sealRLP (cp : ChainParams) :
  (BasicFields + sealFields cp < UNSIGNED_MOD)%N ->
  fits_size_t cp ->
  let this := snd (calculateStateRoot cp) in
  genesisBlock cp =
  (Ok (if (sealFields cp =? 0)%N
       then enc_list (enc_list (concat (basic_fields this)) ++ sealRLP cp
                      ++ RLPEmptyList ++ RLPEmptyList)
       else enc_list (enc_list (concat (basic_fields this) ++ sealRLP cp)
                      ++ RLPEmptyList ++ RLPEmptyList)), this).
Proof.
  intros Hov Hfit this.
  destruct (calculateStateRoot_frame cp)
    as (_ & _ & _ & _ & _ & _ & _ & Hed & Hsf & Hsr & _).
  fold this in Hed, Hsf, Hsr.
  rewrite genesisBlock_stream. fold this. f_equal.
  rewrite genesis_stream_bytes.
  - now rewrite Hsf, Hsr.
  - now rewrite Hsf.
  - unfold fits_size_t in *. now rewrite Hed, Hsr.
Qed.

(** The state root a header carries: the cached one, else the trie root. *)
Lemma settled_stateRoot (cp : ChainParams) :
  stateRoot (snd (calculateStateRoot cp)) =
  if FixedHash_bool (stateRoot cp) then stateRoot cp
  else root (commit (genesisState cp) trie_init).
Proof. unfold calculateStateRoot. destruct (FixedHash_bool (stateRoot cp)); reflexivity. Qed.

Lemma genesisBlock_decoded (cp : ChainParams) (items : list bytes) :
  split_items (sealRLP cp) = Ok items ->
  N.of_nat (length items) = sealFields cp ->
  (BasicFields + sealFields cp < UNSIGNED_MOD)%N ->
  fits_size_t cp ->
  let this := snd (calculateStateRoot cp) in
  fst (genesisBlock cp) = Ok (canonical_block this items) /\
  BlockHeader_of (canonical_block this items) BlockData =
  Ok (mk_BlockHeader (parentHash cp) EmptyListSHA3 (author cp)
        (if FixedHash_bool (stateRoot cp) then stateRoot cp
         else root (commit (genesisState cp) trie_init))
        EmptyTrie EmptyTrie (FixedHash_zero 256) (difficulty cp) u256_zero
        (gasLimit cp) (gasUsed cp) (timestamp cp) (extraData cp) items).
Proof.
  intros Hsplit Hlen Hov Hfit this.
  destruct (calculateStateRoot_frame cp)
    as (Hph & Hau & _ & Hdi & Hgl & Hgu & Hts & Hed & Hsf & Hsr & _).
  fold this in Hph, Hau, Hdi, Hgl, Hgu, Hts, Hed, Hsf, Hsr.
  pose proof (split_items_concat _ _ Hsplit) as Hcat.
  pose proof (split_items_ok _ _ Hsplit) as Hitems.
  split.
  - rewrite genesisBlock_stream. cbn [fst]. fold this.
    apply genesis_stream_canonical; rewrite ?Hsr, ?Hsf; try assumption.
    unfold fits_size_t in *. now rewrite Hed, Hsr.
  - rewrite BlockHeader_of_canonical.
    + rewrite Hph, Hau, Hdi, Hgl, Hgu, Hts, Hed. unfold this.
      now rewrite settled_stateRoot.
    + assumption.
    + unfold fits_size_t in Hfit. now rewrite Hed, Hcat.
Qed.

(** X7. Decoding the genesis block of a value with a well-formed seal gives
    back every field [genesisBlock] wrote: the header fields of the value,
    the settled state root, the constants for uncles, transactions,
    receipts and log bloom, block number 0, and the raw seal items. *)
Theorem genesisBlock_decodes (cp : ChainParams) (items : list bytes) :
  split_items (sealRLP cp) = Ok items ->
  N.of_nat (length items) = sealFields cp ->
  (BasicFields + sealFields cp < UNSIGNED_MOD)%N ->
  fits_size_t cp ->
  exists blk : bytes,
    fst (genesisBlock cp) = Ok blk /\
    BlockHeader_of blk BlockData =
    Ok (mk_BlockHeader (parentHash cp) EmptyListSHA3 (author cp)
          (if FixedHash_bool (stateRoot cp) then stateRoot cp
           else root (commit (genesisState cp) trie_init))
          EmptyTrie EmptyTrie (FixedHash_zero 256) (difficulty cp) u256_zero
          (gasLimit cp) (gasUsed cp) (timestamp cp) (extraData cp) items).
Proof.
  intros Hsplit Hlen Hov Hfit.
  destruct (genesisBlock_decoded cp items Hsplit Hlen Hov Hfit) as [H1 H2].
  eexists. split; [exact H1 | exact H2].
Qed.

(** X8. Two values with well-formed seals and the same genesis block agree on
    every field [genesisBlock] writes. *)
Theorem genesisBlock_injective (cp1 cp2 : ChainParams) (items1 items2 : list bytes) :
  split_items (sealRLP cp1) = Ok items1 ->
  N.of_nat (length items1) = sealFields cp1 ->
  (BasicFields + sealFields cp1 < UNSIGNED_MOD)%N ->
  fits_size_t cp1 ->
  split_items (sealRLP cp2) = Ok items2 ->
  N.of_nat (length items2) = sealFields cp2 ->
  (BasicFields + sealFields cp2 < UNSIGNED_MOD)%N ->
  fits_size_t cp2 ->
  fst (genesisBlock cp1) = fst (genesisBlock cp2) ->
  parentHash cp1 = parentHash cp2 /\ author cp1 = author cp2 /\
  stateRoot (snd (genesisBlock cp1)) = stateRoot (snd (genesisBlock cp2)) /\
  difficulty cp1 = difficulty cp2 /\ gasLimit cp1 = gasLimit cp2 /\
  gasUsed cp1 = gasUsed cp2 /\ timestamp cp1 = timestamp cp2 /\
  extraData cp1 = extraData cp2 /\
  sealFields cp1 = sealFields cp2 /\ sealRLP cp1 = sealRLP cp2.
Proof.
  intros S1 L1 O1 F1 S2 L2 O2 F2 E.
  destruct (genesisBlock_decoded cp1 items1 S1 L1 O1 F1) as [G1 D1].
  destruct (genesisBlock_decoded cp2 items2 S2 L2 O2 F2) as [G2 D2].
  rewrite G1, G2 in E. injection E as E. rewrite E in D1. rewrite D1 in D2.
  injection D2 as Eph Eau Esr Edi Egl Egu Ets Eed Eit.
  rewrite !genesisBlock_stream. cbn [snd]. rewrite !settled_stateRoot.
  repeat split; try assumption.
  - now rewrite <- L1, <- L2, Eit.
  - now rewrite <- (split_items_concat _ _ S1), <- (split_items_concat _ _ S2), Eit.
Qed.

End GenesisBytes.

(* ===================================================================== *)
(** ** Loading composed with assembly                                    *)
(* ===================================================================== *)

Section Composition.
Context `{Collab : Collaborators}.

(** [setGenesis] keeps the seal well-formed. *)
Lemma setGenesis_seal_items (json : json_text) (sr : h256) (org cp : ChainParams)
    (items : list bytes) :
  setGenesis json sr org = Ok cp ->
  split_items (sealRLP org) = Ok items ->
  N.of_nat (length items) = sealFields org ->
  (BasicFields + sealFields org < UNSIGNED_MOD)%N ->
  exists items' : list bytes,
    split_items (sealRLP cp) = Ok items' /\
    N.of_nat (length items') = sealFields cp /\
    (BasicFields + sealFields cp < UNSIGNED_MOD)%N.
Proof.
  intros H Hsplit Hlen Hov.
  destruct (setGenesis_object _ _ _ _ H) as [genesis Hobj].
  destruct (setGenesis_inv _ _ _ _ _ Hobj H)
    as (ph & au & di & gl & gu & ts & ed & sf & srlp
        & _ & _ & _ & _ & _ & _ & _ & Hseal & ->).
  cbn [sealFields sealRLP].
  destruct ((obj_count genesis "mixhash" || obj_count genesis "mixHash")
            && obj_count genesis "nonce").
  - destruct Hseal as (mixHash & nonce & _ & _ & -> & ->).
    exists [enc_data (fh_data mixHash); enc_data (fh_data nonce)].
    split; [|split; reflexivity].
    assert (Hc : enc_data (fh_data mixHash) ++ enc_data (fh_data nonce) =
                 concat [enc_data (fh_data mixHash); enc_data (fh_data nonce)])
      by (cbn [concat]; now rewrite app_nil_r).
    rewrite Hc. apply split_items_items.
    apply Forall_cons_2; [apply item_ok_enc_data; rewrite FixedHash_length; reflexivity|].
    apply Forall_cons_2; [apply item_ok_enc_data; rewrite FixedHash_length; reflexivity|].
    apply Forall_nil_2.
  - destruct Hseal as [-> ->]. exists items. repeat split; assumption.
Qed.

(** X9. End to end through [loadGenesis]: the genesis block of the value it
    returns decodes to a header that carries what the genesis object says:
    its parent hash, gas limit, time stamp and extra data, the state root of
    the value, and block number 0. *)
Theorem loadGenesis_genesisBlock (this : ChainParams) (json : json_text) (sr : h256)
    (cp : ChainParams) (genesis : mObject) (items : list bytes) :
  get_obj (read_string json) = Ok genesis ->
  loadGenesis this json sr = Ok cp ->
  split_items (sealRLP this) = Ok items ->
  N.of_nat (length items) = sealFields this ->
  (BasicFields + sealFields this < UNSIGNED_MOD)%N ->
  fits_size_t cp ->
  exists (blk : bytes) (bi : BlockHeader),
    fst (genesisBlock cp) = Ok blk /\
    BlockHeader_of blk BlockData = Ok bi /\
    res_bind (get_str (obj_at genesis "parentHash")) (FixedHash_of_string 32)
      = Ok (m_parentHash bi) /\
    res_bind (get_str (obj_at genesis "gasLimit")) u256_of_hex = Ok (m_gasLimit bi) /\
    res_bind (get_str (obj_at genesis "timestamp")) u256_of_hex = Ok (m_timestamp bi) /\
    res_bind (get_str (obj_at genesis "extraData")) fromHex = Ok (m_extraData bi) /\
    m_stateRoot bi = stateRoot cp /\
    m_number bi = u256_zero /\
    length (m_seal bi) = N.to_nat (sealFields cp).
Proof.
  unfold loadGenesis. intros Hobj H Hsplit Hlen Hov Hfit.
  destruct (setGenesis_seal_items _ _ _ _ _ H Hsplit Hlen Hov)
    as (items' & Hsplit' & Hlen' & Hov').
  destruct (genesisBlock_decoded cp items' Hsplit' Hlen' Hov' Hfit) as [G D].
  destruct (setGenesis_inv _ _ _ _ _ Hobj H)
    as (ph & au & di & gl & gu & ts & ed & sf & srlp
        & Eph & _ & _ & Egl & _ & Ets & Eed & _ & Ecp).
  eexists. eexists. split; [exact G|]. split; [exact D|].
  cbn [m_parentHash m_gasLimit m_timestamp m_extraData m_stateRoot m_number m_seal].
  rewrite Ecp. cbn [parentHash gasLimit timestamp extraData stateRoot genesisState].
  split; [exact Eph|]. split; [exact Egl|]. split; [exact Ets|]. split; [exact Eed|].
  split.
  - destruct (FixedHash_bool sr) eqn:E1; [now rewrite E1|].
    destruct (FixedHash_bool (stateRoot this)) eqn:E2; [now rewrite E2|].
    destruct (FixedHash_bool (root _)); reflexivity.
  - split; [reflexivity|]. rewrite <- Ecp, <- Hlen'. lia.
Qed.

Lemma setGenesisState_result (json : json_text) (pre : PrecompiledMap)
    (org cp : ChainParams) :
  setGenesisState json pre org = Ok cp ->
  exists accounts pre',
    jsonToAccountMap json pre = Ok (accounts, pre') /\
    cp = mk_ChainParams (sealEngineName org) (accountStartNonce org)
           (maximumExtraDataSize org) (tieBreakingGas org) (blockReward org)
           (otherParams org) pre' accounts (stateRoot org) (parentHash org)
           (author org) (difficulty org) (gasLimit org) (gasUsed org)
           (timestamp org) (extraData org) (sealFields org) (sealRLP org).
Proof.
  unfold setGenesisState. rewrite ChainParams_copy_id.
  destruct org; cbn. destruct (jsonToAccountMap json pre) as [[accounts pre']|e];
    cbn; [|discriminate].
  intros [= <-]. now exists accounts, pre'.
Qed.

(** X10. Once the state root is cached, loading another genesis state does not
    reach the genesis block: [setGenesisState] keeps the old root, and the
    block of the value it returns is the block of [_org], whatever the new
    accounts are. *)
Theorem setGenesisState_stale_root (json : json_text) (pre : PrecompiledMap)
    (org cp : ChainParams) :
  FixedHash_bool (stateRoot org) = true ->
  setGenesisState json pre org = Ok cp ->
  stateRoot cp = stateRoot org /\
  fst (calculateStateRoot cp) = Ok (stateRoot org) /\
  fst (genesisBlock cp) = fst (genesisBlock org).
Proof.
  intros Hnz H.
  destruct (setGenesisState_result _ _ _ _ H) as (accounts & pre' & _ & ->).
  split; [reflexivity|].
  rewrite !genesisBlock_stream. cbn [fst].
  rewrite !calculateStateRoot_cached by exact Hnz.
  split; [reflexivity|]. cbn [snd]. destruct org; reflexivity.
Qed.

(** X11. The order of the two loads decides the state root when none is cached
    and none is supplied: genesis after state commits the loaded accounts,
    state after genesis leaves the root of the accounts held before. *)
Theorem load_order_stateRoot (this : ChainParams) (genesis accounts : json_text)
    (pre : PrecompiledMap) (sr : h256) :
  FixedHash_bool (stateRoot this) = false ->
  FixedHash_bool sr = false ->
  (forall a b,
     loadGenesisState this accounts pre = Ok a ->
     loadGenesis a genesis sr = Ok b ->
     genesisState b = genesisState a /\
     stateRoot b = root (commit (genesisState a) trie_init)) /\
  (forall a b,
     loadGenesis this genesis sr = Ok a ->
     loadGenesisState a accounts pre = Ok b ->
     (exists pre', jsonToAccountMap accounts pre = Ok (genesisState b, pre')) /\
     stateRoot b = root (commit (genesisState this) trie_init)).
Proof.
  intros Hz Hsr. unfold loadGenesisState, loadGenesis. split; intros a b Ha Hb.
  - destruct (setGenesisState_result _ _ _ _ Ha) as (acc & pre' & _ & Ea).
    destruct (setGenesis_frame_root _ _ _ _ Hb)
      as (_ & _ & _ & _ & _ & _ & _ & Hgs & Hroot).
    split; [exact Hgs|]. rewrite Hroot, Hsr.
    replace (stateRoot a) with (stateRoot this) by (rewrite Ea; reflexivity).
    now rewrite Hz.
  - destruct (setGenesis_frame_root _ _ _ _ Ha)
      as (_ & _ & _ & _ & _ & _ & _ & Hgs & Hroot).
    destruct (setGenesisState_result _ _ _ _ Hb) as (acc & pre' & Hj & Eb).
    split.
    + exists pre'. rewrite Eb. exact Hj.
    + rewrite Eb. cbn [stateRoot]. rewrite Hroot, Hsr, Hz. reflexivity.
Qed.

End Composition.

(* ===================================================================== *)
(** ** Chain configuration                                               *)
(* ===================================================================== *)

(** The loop of lines 116-118 changes nothing in a map that already holds
    what it would insert. *)
Lemma fold_otherParams_again (l : list (string * mValue)) (m : gmap string string) :
  (forall k v, (k, v) ∈ l -> is_named_param k = false ->
     exists s, v = Str_v s /\ m !! k = Some s) ->
  fold_left otherParams_step l (Ok m) = Ok m.
Proof.
  induction l as [|[k0 v0] l IH]; intros H; [reflexivity|].
  cbn [fold_left]. unfold otherParams_step at 2. cbn [res_bind fst snd].
  destruct (is_named_param k0) eqn:En; cbn [negb].
  - apply IH. intros k v Hin. apply H. apply elem_of_cons. now right.
  - destruct (H k0 v0) as (s & -> & Hs); [apply elem_of_cons; now left | exact En|].
    cbn [get_str res_bind]. rewrite insert_id by exact Hs.
    apply IH. intros k v Hin. apply H. apply elem_of_cons. now right.
Qed.

Section ChainConfig.
Context `{Collab : Collaborators}.

(** What [loadConfig] returns, field by field, and what it checked on the
    way. *)
Lemma loadConfig_inv (this : ChainParams) (json : json_text) (importGenesis : bool)
    (sr : h256) (cp : ChainParams) :
  loadConfig this json importGenesis sr = Ok cp ->
  exists (obj params : mObject) sen asn meds tbg br op,
    get_obj (read_string json) = Ok obj /\
    get_str (obj_at obj "sealEngine") = Ok sen /\
    get_obj (obj_at obj "params") = Ok params /\
    res_bind (get_str (obj_at params "accountStartNonce")) u256_of_hex = Ok asn /\
    res_bind (get_str (obj_at params "maximumExtraDataSize")) u256_of_hex = Ok meds /\
    (if obj_count params "tieBreakingGas"
     then get_bool (obj_at params "tieBreakingGas") else Ok true) = Ok tbg /\
    res_bind (get_str (obj_at params "blockReward")) u256_of_hex = Ok br /\
    fold_left otherParams_step (map_to_list params) (Ok (otherParams this)) = Ok op /\
    (importGenesis = true ->
       exists g, setGenesis (write_string (obj_at obj "genesis")) sr cp = Ok g) /\
    (exists a, setGenesisState (write_string (obj_at obj "accounts"))
                 PrecompiledMap_empty cp = Ok a) /\
    cp = mk_ChainParams sen asn meds tbg br op (precompiled this) (genesisState this)
           (stateRoot this) (parentHash this) (author this) (difficulty this)
           (gasLimit this) (gasUsed this) (timestamp this) (extraData this)
           (sealFields this) (sealRLP this).
Proof.
  intros H. unfold loadConfig in H. rewrite ChainParams_copy_id in H.
  inv_bind_as H obj Eobj. inv_bind_as H sen Esen. inv_bind_as H params Eparams.
  inv_bind_as H asn Easn. inv_bind_as H meds Emeds. inv_bind_as H tbg Etbg.
  inv_bind_as H br Ebr. inv_bind_as H op Eop.
  assert (Ecp : set_otherParams op (set_blockReward br (set_tieBreakingGas tbg
                  (set_maximumExtraDataSize meds (set_accountStartNonce asn
                     (set_sealEngineName sen this))))) =
          mk_ChainParams sen asn meds tbg br op (precompiled this) (genesisState this)
           (stateRoot this) (parentHash this) (author this) (difficulty this)
           (gasLimit this) (gasUsed this) (timestamp this) (extraData this)
           (sealFields this) (sealRLP this)) by (destruct this; reflexivity).
  rewrite Ecp in H. clear Ecp.
  match type of H with
  | res_bind ?e _ = Ok _ => destruct e as [[]|] eqn:Eg; cbn [res_bind] in H; [|discriminate H]
  end.
  inv_bind_as H a Ea. injection H as <-.
  exists obj, params, sen, asn, meds, tbg, br, op.
  do 8 (split; [first [assumption | reflexivity]|]).
  split; [|split; [now exists a | reflexivity]].
  intros ->. match type of Eg with
  | res_bind ?e _ = Ok _ => destruct e as [g|]; [now exists g | discriminate Eg]
  end.
Qed.

(** X12. [loadConfig] returns a value that has nothing of the ["genesis"] and
    ["accounts"] entries: the header fields, the state root, the seal, the
    account mapping and the precompiled table are the receiver's, whatever
    the document says and whether or not the genesis is imported; so is
    the genesis block. *)
Theorem loadConfig_keeps_genesis (this : ChainParams) (json : json_text)
    (importGenesis : bool) (sr : h256) (cp : ChainParams) :
  loadConfig this json importGenesis sr = Ok cp ->
  genesis_inputs cp = genesis_inputs this /\
  precompiled cp = precompiled this /\
  fst (genesisBlock cp) = fst (genesisBlock this).
Proof.
  intros H. destruct (loadConfig_inv _ _ _ _ _ H)
    as (obj & params & sen & asn & meds & tbg & br & op & _ & _ & _ & _ & _ & _ & _ & _
        & _ & _ & ->).
  split; [reflexivity|]. split; [reflexivity|].
  apply genesisBlock_reads_inputs. reflexivity.
Qed.

(** X13. Though their results are dropped, the calls of lines 124 and 129 are
    made: [loadConfig] returns only if [setGenesis] accepts the ["genesis"]
    entry (when the genesis is imported) and the account parser accepts the
    ["accounts"] entry with an empty precompiled table. *)
Theorem loadConfig_validates (this : ChainParams) (json : json_text)
    (importGenesis : bool) (sr : h256) (cp : ChainParams) :
  loadConfig this json importGenesis sr = Ok cp ->
  exists obj : mObject,
    json = Obj_v obj /\
    (importGenesis = true ->
       exists g, setGenesis (write_string (obj_at obj "genesis")) sr cp = Ok g) /\
    (exists accounts pre',
       jsonToAccountMap (write_string (obj_at obj "accounts")) PrecompiledMap_empty
         = Ok (accounts, pre')).
Proof.
  intros H. destruct (loadConfig_inv _ _ _ _ _ H)
    as (obj & params & sen & asn & meds & tbg & br & op & Eobj & _ & _ & _ & _ & _ & _ & _
        & Hg & [a Ha] & _).
  exists obj. split.
  { unfold read_string in Eobj. destruct json; cbn in Eobj; congruence. }
  split; [exact Hg|].
  destruct (setGenesisState_result _ _ _ _ Ha) as (accounts & pre' & Hj & _).
  now exists accounts, pre'.
Qed.

Lemma obj_at_insert_ne (o : mObject) (k k' : string) (v : mValue) :
  k <> k' -> obj_at (<[k := v]> o) k' = obj_at o k'.
Proof. intros Hne. unfold obj_at. now rewrite lookup_insert_ne. Qed.

(** X14. Without the import flag [loadConfig] reads neither the ["genesis"]
    entry nor the state root argument. *)
Theorem loadConfig_without_import (this : ChainParams) (obj : mObject) (g : mValue)
    (sr sr' : h256) :
  loadConfig this (Obj_v (<["genesis" := g]> obj)) false sr =
  loadConfig this (Obj_v obj) false sr'.
Proof.
  unfold loadConfig, read_string. cbn [get_obj res_bind].
  rewrite !obj_at_insert_ne by discriminate. reflexivity.
Qed.

(** X15. [loadConfig] returns only for an object with a string at
    ["sealEngine"] and an object at ["params"] that has hexadecimal
    strings at ["accountStartNonce"], ["maximumExtraDataSize"] and
    ["blockReward"], a boolean at ["tieBreakingGas"] when the key is there,
    and strings at all other keys; the typed fields are what these parse
    to. A document that is not an object, or has no ["sealEngine"], raises
    the json_spirit type error. *)
Theorem loadConfig_required_keys (this : ChainParams) (json : json_text)
    (importGenesis : bool) (sr : h256) :
  (forall cp, loadConfig this json importGenesis sr = Ok cp ->
     exists (obj params : mObject) (asn meds br : string),
       json = Obj_v obj /\
       obj !! "sealEngine" = Some (Str_v (sealEngineName cp)) /\
       obj !! "params" = Some (Obj_v params) /\
       params !! "accountStartNonce" = Some (Str_v asn) /\
       u256_of_hex asn = Ok (accountStartNonce cp) /\
       params !! "maximumExtraDataSize" = Some (Str_v meds) /\
       u256_of_hex meds = Ok (maximumExtraDataSize cp) /\
       params !! "blockReward" = Some (Str_v br) /\
       u256_of_hex br = Ok (blockReward cp) /\
       (forall v, params !! "tieBreakingGas" = Some v -> v = Bool_v (tieBreakingGas cp)) /\
       (forall k v, params !! k = Some v -> is_named_param k = false ->
          exists s, v = Str_v s)) /\
  ((forall obj, json <> Obj_v obj) ->
     loadConfig this json importGenesis sr = Err JsonTypeError) /\
  (forall obj, json = Obj_v obj -> obj !! "sealEngine" = None ->
     loadConfig this json importGenesis sr = Err JsonTypeError).
Proof.
  split; [|split].
  - intros cp H. destruct (loadConfig_inv _ _ _ _ _ H)
      as (obj & params & sen & asn & meds & tbg & br & op & Eobj & Esen & Eparams & Easn
          & Emeds & Etbg & Ebr & Eop & _ & _ & ->).
    cbn [sealEngineName accountStartNonce maximumExtraDataSize blockReward tieBreakingGas].
    apply get_str_obj_at in Esen.
    apply bind_get_str in Easn as (asns & Kasn & Pasn).
    apply bind_get_str in Emeds as (medss & Kmeds & Pmeds).
    apply bind_get_str in Ebr as (brs & Kbr & Pbr).
    exists obj, params, asns, medss, brs.
    split. { unfold read_string in Eobj. destruct json; cbn in Eobj; congruence. }
    split; [exact Esen|].
    split. { unfold obj_at in Eparams. destruct (obj !! "params") as [[]|];
             cbn in Eparams; congruence. }
    do 6 (split; [assumption|]).
    split.
    + intros v Hv. unfold obj_count, obj_at in Etbg. rewrite Hv in Etbg.
      destruct v; cbn in Etbg; congruence.
    + intros k v Hk Hn.
      destruct (fold_otherParams _ _ _ (NoDup_fst_map_to_list params) Eop) as [F1 _].
      destruct (F1 k v) as (s & -> & _); [now apply elem_of_map_to_list | exact Hn|].
      now exists s.
  - intros Hno. unfold loadConfig, read_string.
    destruct json as [| | | | |o|]; try reflexivity. now destruct (Hno o).
  - intros obj -> Hse. unfold loadConfig, read_string. cbn [get_obj res_bind].
    unfold obj_at at 1. rewrite Hse. reflexivity.
Qed.

(** X16. [loadConfig] adds to the receiver's [otherParams]: a key of [params]
    other than the four named ones gets the string of [params]; every
    other key keeps what the receiver had for it. *)
Theorem loadConfig_merges_otherParams (this : ChainParams) (json : json_text)
    (importGenesis : bool) (sr : h256) (cp : ChainParams) (obj params : mObject) :
  loadConfig this json importGenesis sr = Ok cp ->
  get_obj (read_string json) = Ok obj ->
  get_obj (obj_at obj "params") = Ok params ->
  (forall k s, params !! k = Some (Str_v s) -> is_named_param k = false ->
     otherParams cp !! k = Some s) /\
  (forall k, is_named_param k = true \/ params !! k = None ->
     otherParams cp !! k = otherParams this !! k).
Proof.
  intros H Hobj Hparams.
  destruct (loadConfig_inv _ _ _ _ _ H)
    as (obj' & params' & sen & asn & meds & tbg & br & op & Eobj & _ & Eparams & _ & _ & _
        & _ & Eop & _ & _ & ->).
  rewrite Hobj in Eobj. injection Eobj as <-.
  rewrite Hparams in Eparams. injection Eparams as <-.
  cbn [otherParams].
  destruct (fold_otherParams _ _ _ (NoDup_fst_map_to_list params) Eop) as [F1 F2].
  split.
  - intros k s Hk Hn. destruct (F1 k (Str_v s)) as (s' & [= <-] & Hs');
      [now apply elem_of_map_to_list | exact Hn | exact Hs'].
  - intros k Hk. apply F2. destruct Hk as [Hk|Hk]; [now left | right].
    intros Hin. apply list_elem_of_fmap in Hin as ([k' v] & -> & Hin).
    apply elem_of_map_to_list in Hin. cbn in Hk. congruence.
Qed.

(** X17. Applying the same configuration to the value [loadConfig] returned
    gives that value again. *)
Theorem loadConfig_idempotent (this : ChainParams) (json : json_text)
    (importGenesis : bool) (sr : h256) (cp : ChainParams) :
  loadConfig this json importGenesis sr = Ok cp ->
  loadConfig cp json importGenesis sr = Ok cp.
Proof.
  intros H. destruct (loadConfig_inv _ _ _ _ _ H)
    as (obj & params & sen & asn & meds & tbg & br & op & Eobj & Esen & Eparams & Easn
        & Emeds & Etbg & Ebr & Eop & Hg & [a Ha] & Ecp).
  destruct (fold_otherParams _ _ _ (NoDup_fst_map_to_list params) Eop) as [F1 _].
  assert (Eop' : fold_left otherParams_step (map_to_list params) (Ok (otherParams cp))
                 = Ok (otherParams cp)).
  { apply fold_otherParams_again. rewrite Ecp. cbn [otherParams]. exact F1. }
  assert (Ecp' : set_otherParams (otherParams cp) (set_blockReward br (set_tieBreakingGas tbg
                  (set_maximumExtraDataSize meds (set_accountStartNonce asn
                     (set_sealEngineName sen cp))))) = cp)
    by (rewrite Ecp; reflexivity).
  unfold loadConfig. rewrite ChainParams_copy_id, Eobj. cbn [res_bind].
  rewrite Esen. cbn [res_bind]. rewrite Eparams. cbn [res_bind].
  rewrite Easn. cbn [res_bind]. rewrite Emeds. cbn [res_bind].
  rewrite Etbg. cbn [res_bind]. rewrite Ebr. cbn [res_bind].
  assert (Eo : otherParams (set_blockReward br (set_tieBreakingGas tbg
                  (set_maximumExtraDataSize meds (set_accountStartNonce asn
                     (set_sealEngineName sen cp))))) = otherParams cp)
    by (destruct cp; reflexivity).
  rewrite Eo, Eop'. cbn [res_bind]. rewrite Ecp'.
  rewrite Ha. destruct importGenesis.
  - destruct (Hg eq_refl) as [g Hg']. rewrite Hg'. reflexivity.
  - reflexivity.
Qed.

End ChainConfig.

(* ===================================================================== *)
(** ** Reading a genesis block back                                      *)
(* ===================================================================== *)

Section ReadBack.
Context `{Collab : Collaborators}.

(** The assignments of lines 158-170 do not depend on the receiver: the
    same values go into the same fields of any value. *)
Lemma populate_fields_shape (raw : bytes) (st : AccountMap) :
  (exists e, forall X : ChainParams, fst (populate_fields raw st X) = Err e) \/
  (exists ph au di gl gu ts ed sf srlp, forall X : ChainParams,
     populate_fields raw st X =
     (Ok tt, mk_ChainParams (sealEngineName X) (accountStartNonce X)
               (maximumExtraDataSize X) (tieBreakingGas X) (blockReward X)
               (otherParams X) (precompiled X) st (stateRoot X)
               ph au di gl gu ts ed sf srlp)).
Proof.
  unfold populate_fields.
  destruct (res_bind (RLP_strict raw) _) as [bi|e]; [|left; now exists e].
  destruct (res_bind (RLP_strict raw) _) as [[header cnt]|e]; [|left; now exists e].
  assert (Hnil : forall Y : ChainParams, sealRLP (set_sealRLP [] Y) = [])
    by (intros Y; destruct Y; reflexivity).
  destruct (collect_seal header cnt []) as [[[]|e] seal] eqn:Ecs.
  - right. exists (m_parentHash bi), (m_author bi), (m_difficulty bi), (m_gasLimit bi),
      (m_gasUsed bi), (m_timestamp bi), (m_extraData bi),
      (to_unsigned (Z.of_nat cnt - Z.of_N BasicFields)), seal.
    intros X. rewrite Hnil, Ecs. destruct X; reflexivity.
  - left. exists e. intros X. rewrite Hnil, Ecs. reflexivity.
Qed.

Lemma populate_fields_config (raw : bytes) (st : AccountMap) (this : ChainParams) :
  let Q := snd (populate_fields raw st this) in
  sealEngineName Q = sealEngineName this /\
  accountStartNonce Q = accountStartNonce this /\
  maximumExtraDataSize Q = maximumExtraDataSize this /\
  tieBreakingGas Q = tieBreakingGas this /\
  blockReward Q = blockReward this /\
  otherParams Q = otherParams this /\
  precompiled Q = precompiled this.
Proof.
  unfold populate_fields.
  destruct (res_bind (RLP_strict raw) _) as [bi|e]; [|repeat split].
  destruct (res_bind (RLP_strict raw) _) as [[header cnt]|e]; [|destruct this; repeat split].
  destruct (collect_seal header cnt _) as [looped seal]. destruct this; repeat split.
Qed.

Lemma calculateStateRoot_config (cp : ChainParams) :
  let Q := snd (calculateStateRoot cp) in
  sealEngineName Q = sealEngineName cp /\
  accountStartNonce Q = accountStartNonce cp /\
  maximumExtraDataSize Q = maximumExtraDataSize cp /\
  tieBreakingGas Q = tieBreakingGas cp /\
  blockReward Q = blockReward cp /\
  otherParams Q = otherParams cp /\
  precompiled Q = precompiled cp.
Proof.
  unfold calculateStateRoot. destruct (FixedHash_bool (stateRoot cp)); repeat split.
Qed.

Lemma populateFromGenesis_state (raw : bytes) (st : AccountMap) (this : ChainParams) :
  snd (populateFromGenesis raw st this) = snd (populate_fields raw st this) \/
  snd (populateFromGenesis raw st this) =
    snd (calculateStateRoot (snd (populate_fields raw st this))).
Proof.
  rewrite populateFromGenesis_steps.
  destruct (populate_fields raw st this) as [[[]|e] cp1]; [|now left].
  rewrite genesisBlock_stream. cbn [snd].
  destruct (genesis_stream _) as [b|e]; [|now right].
  destruct (bool_decide (b = raw)); now right.
Qed.

(** X18. [populateFromGenesis] never touches the chain configuration: the seal
    engine name, the three numeric parameters, the tie-breaking flag, the
    open bag and the precompiled table are the receiver's afterwards,
    whether it returns or throws. When it returns, the account mapping is
    the one supplied. *)
Theorem populateFromGenesis_keeps_config (raw : bytes) (st : AccountMap)
    (this : ChainParams) :
  let Q := snd (populateFromGenesis raw st this) in
  sealEngineName Q = sealEngineName this /\
  accountStartNonce Q = accountStartNonce this /\
  maximumExtraDataSize Q = maximumExtraDataSize this /\
  tieBreakingGas Q = tieBreakingGas this /\
  blockReward Q = blockReward this /\
  otherParams Q = otherParams this /\
  precompiled Q = precompiled this /\
  (fst (populateFromGenesis raw st this) = Ok tt -> genesisState Q = st).
Proof.
  intros Q.
  pose proof (populate_fields_config raw st this) as (C1 & C2 & C3 & C4 & C5 & C6 & C7).
  pose proof (calculateStateRoot_config (snd (populate_fields raw st this)))
    as (D1 & D2 & D3 & D4 & D5 & D6 & D7).
  assert (Hgs : fst (populateFromGenesis raw st this) = Ok tt -> genesisState Q = st).
  { subst Q. rewrite populateFromGenesis_steps.
    pose proof (populate_fields_stateRoot raw st this) as [_ Hst].
    destruct (populate_fields raw st this) as [[[]|e] cp1]; [|discriminate].
    cbn [fst snd] in Hst. specialize (Hst eq_refl).
    rewrite genesisBlock_stream.
    destruct (calculateStateRoot_frame cp1) as (_ & _ & Hg & _).
    destruct (genesis_stream _) as [b|e]; [|discriminate].
    destruct (bool_decide (b = raw)); [|discriminate].
    intros _. cbn [snd]. now rewrite Hg. }
  subst Q. destruct (populateFromGenesis_state raw st this) as [E|E]; rewrite E in *.
  - repeat split; assumption.
  - rewrite D1, D2, D3, D4, D5, D6, D7. repeat split; assumption.
Qed.

(** X19. A genesis accepted once is accepted again: called a second time with
    the same arguments on the value it left, [populateFromGenesis] returns
    normally and leaves that value as it is. *)
Theorem populateFromGenesis_idempotent (raw : bytes) (st : AccountMap)
    (this Q : ChainParams) :
  populateFromGenesis raw st this = (Ok tt, Q) ->
  populateFromGenesis raw st Q = (Ok tt, Q).
Proof.
  rewrite !populateFromGenesis_steps.
  destruct (populate_fields_shape raw st) as [[e He]|Hshape].
  { specialize (He this). destruct (populate_fields raw st this) as [[[]|e'] cp1];
      cbn in He; [discriminate|]. discriminate. }
  destruct Hshape as (ph & au & di & gl & gu & ts & ed & sf & srlp & Hshape).
  rewrite (Hshape this), (Hshape Q).
  set (cp1 := mk_ChainParams _ _ _ _ _ _ _ st (stateRoot this) _ _ _ _ _ _ _ _ _).
  pose proof (genesisBlock_again cp1) as Hagain.
  pose proof (genesisBlock_stream cp1) as Hstream.
  destruct (genesisBlock cp1) as [[b|e] cp2] eqn:Egb; [|discriminate].
  destruct (bool_decide_reflect (b = raw)) as [->|Hne]; [|discriminate].
  intros [= <-]. cbn [snd] in Hagain.
  apply (f_equal snd) in Hstream. cbn [snd] in Hstream.
  assert (EQ : mk_ChainParams (sealEngineName cp2) (accountStartNonce cp2)
                 (maximumExtraDataSize cp2) (tieBreakingGas cp2) (blockReward cp2)
                 (otherParams cp2) (precompiled cp2) st (stateRoot cp2)
                 ph au di gl gu ts ed sf srlp = cp2).
  { rewrite Hstream. unfold calculateStateRoot. subst cp1. cbn.
    destruct (FixedHash_bool (stateRoot this)); reflexivity. }
  rewrite EQ, Hagain. now rewrite bool_decide_eq_true_2.
Qed.

(** X20. A genesis block whose state root is not the one the receiver arrives
    at is rejected: with the block of [P] and an account mapping, a receiver
    whose own root (the cached one, else the trie root of the mapping)
    differs from the root in the block throws 0. *)
Theorem populateFromGenesis_wrong_root (P T : ChainParams) (st : AccountMap)
    (items : list bytes) :
  split_items (sealRLP P) = Ok items ->
  N.of_nat (length items) = sealFields P ->
  (BasicFields + sealFields P < UNSIGNED_MOD)%N ->
  fits_size_t P ->
  FixedHash_bool (stateRoot P) = true ->
  (if FixedHash_bool (stateRoot T) then stateRoot T
   else root (commit st trie_init)) <> stateRoot P ->
  exists blk : bytes,
    genesisBlock P = (Ok blk, P) /\
    fst (populateFromGenesis blk st T) = Err (IntThrown 0).
Proof.
  intros Hsplit Hlen Hov Hfit Hnz Hroot.
  pose proof (split_items_concat _ _ Hsplit) as Hcat.
  pose proof (split_items_ok _ _ Hsplit) as Hitems.
  assert (Hbound : (N.of_nat (length (extraData P) + length (concat items)) + 1024
                    < 2 ^ 64 - 257)%N).
  { unfold fits_size_t in Hfit. now rewrite Hcat. }
  exists (canonical_block P items). split.
  { rewrite genesisBlock_stream, (calculateStateRoot_cached P Hnz). cbn [snd]. f_equal.
    now apply genesis_stream_canonical. }
  rewrite populateFromGenesis_steps.
  rewrite populate_fields_canonical by (rewrite ?Hlen; assumption).
  set (T1 := populated P T st items).
  rewrite genesisBlock_stream.
  set (Q := snd (calculateStateRoot T1)).
  destruct (calculateStateRoot_frame T1)
    as (E1 & E2 & E3 & E4 & E5 & E6 & E7 & E8 & E9 & E10 & _).
  fold Q in E1, E2, E3, E4, E5, E6, E7, E8, E9, E10.
  assert (HsrQ : stateRoot Q = if FixedHash_bool (stateRoot T) then stateRoot T
                               else root (commit st trie_init)).
  { subst Q. rewrite settled_stateRoot. reflexivity. }
  assert (HQs : genesis_stream Q = Ok (canonical_block Q items)).
  { apply genesis_stream_canonical.
    - rewrite E10. subst T1. cbn [populated sealRLP]. now apply split_items_items.
    - rewrite E9. reflexivity.
    - rewrite E9. subst T1. cbn [populated sealFields]. now rewrite Hlen.
    - unfold fits_size_t. rewrite E8, E10. subst T1. cbn [populated extraData sealRLP].
      lia. }
  rewrite HQs.
  destruct (bool_decide_reflect (canonical_block Q items = canonical_block P items))
    as [Eblk|Hne]; [|reflexivity].
  exfalso. apply Hroot. rewrite <- HsrQ.
  pose proof (BlockHeader_of_canonical P items Hitems Hbound) as DP.
  assert (HboundQ : (N.of_nat (length (extraData Q) + length (concat items)) + 1024
                     < 2 ^ 64 - 257)%N).
  { rewrite E8. subst T1. cbn [populated extraData]. exact Hbound. }
  pose proof (BlockHeader_of_canonical Q items Hitems HboundQ) as DQ.
  rewrite Eblk, DP in DQ. now injection DQ.
Qed.

End ReadBack.

(** *** A stream with no open list *)

Lemma noteAppended_idle (n : N) (out : bytes) :
  noteAppended n (mk_RLPStream out []) = Ok (mk_RLPStream out []).
Proof. unfold noteAppended. cbn. destruct (n =? 0)%N; reflexivity. Qed.

Lemma noteAppended_closed (n : N) (d out : bytes) :
  noteAppended n (push_bytes d (mk_RLPStream out [])) = Ok (mk_RLPStream (out ++ d) []).
Proof. unfold noteAppended, push_bytes. cbn. destruct (n =? 0)%N; reflexivity. Qed.

Lemma appendRaw_closed (n : N) (d out : bytes) :
  appendRaw d n (mk_RLPStream out []) = Ok (mk_RLPStream (out ++ d) []).
Proof. apply noteAppended_closed. Qed.

Lemma append_bytes_closed (d out : bytes) (s : RLPStream) :
  append_bytes d (mk_RLPStream out []) = Ok s ->
  exists d', s = mk_RLPStream (out ++ d') [].
Proof.
  assert (G : forall s1 : Res RLPStream,
    (forall x, s1 = Ok x -> exists p, x = mk_RLPStream (out ++ p) []) ->
    res_bind s1 (fun s1 => res_bind (appendRaw d 0 s1) (noteAppended 1)) = Ok s ->
    exists d', s = mk_RLPStream (out ++ d') []).
  { intros [x|e] Hx; cbn [res_bind]; [|discriminate].
    destruct (Hx x eq_refl) as [p ->]. rewrite appendRaw_closed. cbn [res_bind].
    rewrite noteAppended_idle. intros [= <-].
    exists (p ++ d). now rewrite app_assoc. }
  assert (P : forall x,
    (if (N.of_nat (length d) <? c_rlpDataImmLenCount)%N
     then Ok (push_bytes [byte_of_N (N.of_nat (length d) + c_rlpDataImmLenStart)]
                (mk_RLPStream out []))
     else pushCount (length d) c_rlpDataIndLenZero (mk_RLPStream out [])) = Ok x ->
    exists p, x = mk_RLPStream (out ++ p) []).
  { intros x. destruct (N.of_nat (length d) <? c_rlpDataImmLenCount)%N.
    - intros [= <-]. eexists. reflexivity.
    - unfold pushCount. destruct (_ <? _)%N; [discriminate|].
      intros [= <-]. eexists. reflexivity. }
  destruct d as [|b [|b' d']]; unfold append_bytes; try (apply G, P).
  destruct (Byte.to_N b <? c_rlpDataImmLenStart)%N.
  - rewrite noteAppended_closed. intros [= <-]. now exists [b].
  - change (push_bytes [byte_of_N (1 + c_rlpDataImmLenStart)] (mk_RLPStream out []))
      with (mk_RLPStream (out ++ [byte_of_N (1 + c_rlpDataImmLenStart)]) []).
    rewrite appendRaw_closed. cbn [res_bind].
    rewrite noteAppended_idle. intros [= <-].
    eexists. rewrite <- app_assoc. reflexivity.
Qed.

Lemma RLP_strict_id (d : bytes) (r : RLP) : RLP_strict d = Ok r -> r = d.
Proof.
  unfold RLP_strict. destruct (actualSize d) as [sz|]; cbn [res_bind]; [|discriminate].
  destruct (_ <? _)%N; [discriminate|]. destruct (_ <? _)%N; [discriminate|].
  now intros [= <-].
Qed.

Section BareHeader.
Context `{Collab : Collaborators}.

(** When [BasicFields + sealFields] wraps to zero, [appendList(0)] writes
    an empty list as the first item of the outer list, which the next two
    fields complete. *)
Lemma genesis_stream_wrapped (this : ChainParams) (b : bytes) :
  sealFields this = 4294967283%N ->
  genesis_stream this = Ok b ->
  exists rest,
    b = enc_list (RLPEmptyList ++ enc_data (fh_data (parentHash this))
                  ++ enc_data (fh_data EmptyListSHA3)) ++ rest.
Proof.
  intros Hsf. unfold genesis_stream. rewrite Hsf.
  change ((BasicFields + 4294967283) mod UNSIGNED_MOD)%N with 0%N.
  change (RLPStream_list 3) with (Ok (mk_RLPStream [] [(3%N, 0%nat)])).
  cbn [res_bind].
  change (appendList 0 (mk_RLPStream [] [(3%N, 0%nat)]))
    with (Ok (mk_RLPStream RLPEmptyList [(2%N, 0%nat)])).
  cbn [res_bind].
  rewrite append_hash_enc by reflexivity.
  rewrite noteAppended_push_open by lia. cbn [res_bind].
  rewrite append_hash_enc by reflexivity.
  unfold noteAppended at 1. cbn [N.eqb push_bytes m_out m_listStack N.sub Pos.sub_mask].
  pose proof (length_enc_data (fh_data (parentHash this))) as L1.
  pose proof (length_enc_data (fh_data EmptyListSHA3)) as L2.
  rewrite !FixedHash_length in *.
  specialize (L1 ltac:(lia)). specialize (L2 ltac:(lia)).
  rewrite noteAppended_loop_close;
    [| reflexivity | rewrite !length_app; unfold RLPEmptyList; cbn [length]; lia].
  cbn [noteAppended_loop res_bind].
  rewrite <- app_assoc.
  set (X := enc_list _).
  do 5 (rewrite append_hash_enc by reflexivity; rewrite noteAppended_closed;
        cbn [res_bind]).
  rewrite append_u256_enc, noteAppended_closed. cbn [res_bind].
  rewrite append_bigint_enc by reflexivity. rewrite noteAppended_closed. cbn [res_bind].
  do 3 (rewrite append_u256_enc, noteAppended_closed; cbn [res_bind]).
  destruct (append_bytes (extraData this) _) as [s|e] eqn:Es; cbn [res_bind]; [|discriminate].
  apply append_bytes_closed in Es as [d' ->].
  rewrite !appendRaw_closed. cbn [res_bind out m_listStack m_out].
  intros [= <-]. rewrite <- !app_assoc. eexists. reflexivity.
Qed.

Lemma RLP_index_wrapped (e1 e2 rest : bytes) :
  item_ok e1 -> item_ok e2 ->
  (N.of_nat (length (RLPEmptyList ++ e1 ++ e2)) < 2 ^ 64 - 257)%N ->
  RLP_index (enc_list (RLPEmptyList ++ e1 ++ e2) ++ rest) 0 = Ok RLPEmptyList.
Proof.
  intros H1 H2 Hlen. unfold RLP_index, enc_list. rewrite <- app_assoc.
  rewrite (payload_prefixed true _ rest Hlen). cbn [res_bind].
  assert (Hc : RLPEmptyList ++ e1 ++ e2 = concat [RLPEmptyList; e1; e2] ++ []).
  { cbn [concat]. now rewrite !app_nil_r. }
  rewrite Hc.
  rewrite (item_at_concat [RLPEmptyList; e1; e2] [] ltac:(
    repeat (apply Forall_cons_2; [first [apply item_ok_RLPEmptyList | assumption]|]);
    apply Forall_nil_2) 0%nat RLPEmptyList eq_refl).
  cbn [res_bind]. apply item_ok_lax, item_ok_RLPEmptyList.
Qed.

(** After the assignments, the first item of the input is known, and when
    it is not a list the item count of line 167 is zero, so the
    subtraction wraps. *)
Lemma populate_fields_first (raw : bytes) (st : AccountMap) (this cp1 : ChainParams) :
  populate_fields raw st this = (Ok tt, cp1) ->
  exists first, RLP_index raw 0 = Ok first /\
    (isList first = false -> sealFields cp1 = 4294967283%N).
Proof.
  unfold populate_fields.
  destruct (RLP_strict raw) as [r|e] eqn:Er; cbn [res_bind]; [|discriminate].
  apply RLP_strict_id in Er as ->.
  destruct (RLP_index raw 0) as [first|e] eqn:Ef; cbn [res_bind]; [|discriminate].
  destruct (BlockHeader_of raw _) as [bi|e]; [|discriminate].
  intros H. exists first. split; [reflexivity|]. intros Hl.
  unfold itemCount in H. rewrite Hl in H. cbn [res_bind] in H.
  destruct (collect_seal first 0 _) as [looped seal].
  injection H as _ <-. destruct this; reflexivity.
Qed.

(** An accepted input has a list as its first item. *)
Lemma populate_first_list (raw : bytes) (st : AccountMap)
    (this : ChainParams) :
  fst (populateFromGenesis raw st this) = Ok tt ->
  exists first, RLP_index raw 0 = Ok first /\ isList first = true.
Proof.
  rewrite populateFromGenesis_steps.
  destruct (populate_fields raw st this) as [[[]|e] cp1] eqn:Epf; [|discriminate].
  destruct (populate_fields_first _ _ _ _ Epf) as (first & Hf & Hw).
  rewrite genesisBlock_stream.
  destruct (genesis_stream _) as [b|e] eqn:Eb; [|discriminate].
  destruct (bool_decide_reflect (b = raw)) as [->|Hne]; [|discriminate].
  intros _. exists first. split; [exact Hf|].
  destruct (isList first) eqn:El; [reflexivity|]. exfalso.
  specialize (Hw eq_refl).
  destruct (calculateStateRoot_frame cp1) as (_ & _ & _ & _ & _ & _ & _ & _ & Hsf & _).
  apply genesis_stream_wrapped in Eb as [rest ->]; [|now rewrite Hsf].
  rewrite RLP_index_wrapped in Hf.
  - injection Hf as <-. discriminate El.
  - apply item_ok_enc_data. rewrite FixedHash_length. reflexivity.
  - apply item_ok_enc_data. rewrite FixedHash_length. reflexivity.
  - pose proof (length_enc_data (fh_data (parentHash (snd (calculateStateRoot cp1))))) as L1.
    pose proof (length_enc_data (fh_data EmptyListSHA3)) as L2.
    rewrite !FixedHash_length in *.
    specialize (L1 ltac:(lia)). specialize (L2 ltac:(lia)).
    rewrite !length_app. unfold RLPEmptyList. cbn [length]. lia.
Qed.

(** X21. Line 157 passes [HeaderData] when the first item of the input is not a
    list, but such an input is never accepted: [populateFromGenesis]
    returns normally only for bytes whose first item is a list. *)
Theorem populateFromGenesis_needs_block (raw : bytes) (st : AccountMap)
    (this : ChainParams) :
  fst (populateFromGenesis raw st this) = Ok tt ->
  exists first, RLP_index raw 0 = Ok first /\ isList first = true.
Proof. apply populate_first_list. Qed.

End BareHeader.

(** *** Items of a payload, by index and all at once *)

Lemma item_at_nil (i : nat) : item_at i [] = Ok [].
Proof. destruct i; reflexivity. Qed.

Lemma item_at_split_loop (fuel : nat) : forall (d : bytes) (its : list bytes),
  split_items_loop fuel d = Ok its ->
  forall i, item_at i d = Ok (default [] (its !! i)).
Proof.
  induction fuel as [|fuel IH]; intros d its H i.
  - destruct d; cbn in H; [|discriminate]. injection H as <-.
    rewrite lookup_nil. apply item_at_nil.
  - destruct d as [|b d]; [cbn in H; injection H as <-; rewrite lookup_nil; apply item_at_nil|].
    cbn [split_items_loop] in H.
    destruct (sizeAsEncoded (b :: d)) as [sz|] eqn:Esz; cbn [res_bind] in H; [|discriminate].
    destruct (split_items_loop fuel (drop sz (b :: d))) as [tl|] eqn:Etl;
      cbn [res_bind] in H; [|discriminate].
    injection H as <-.
    destruct (sizeAsEncoded_item (b :: d) sz ltac:(discriminate) Esz) as [Hsz _].
    destruct i as [|j]; cbn [item_at]; rewrite Esz; cbn [res_bind].
    + reflexivity.
    + destruct (Nat.eqb_spec sz 0); [lia|]. apply (IH _ _ Etl).
Qed.

Lemma RLP_index_split (r : RLP) (p : bytes) (its : list bytes) :
  payload r = Ok p -> split_items p = Ok its ->
  forall i, RLP_index r i = Ok (default [] (its !! i)).
Proof.
  intros Hp Hs i. unfold RLP_index. rewrite Hp. cbn [res_bind].
  rewrite (item_at_split_loop _ _ _ Hs i). cbn [res_bind].
  destruct (its !! i) as [it|] eqn:Ei; cbn [default]; [|reflexivity].
  apply item_ok_lax. pose proof (split_items_ok _ _ Hs) as Hall.
  rewrite Forall_lookup in Hall. now apply (Hall i).
Qed.

Lemma toBytes_nonempty (r : RLP) (d : bytes) : toBytes r = Ok d -> r <> [].
Proof. intros H ->. discriminate H. Qed.

Section SealInvariant.
Context `{Collab : Collaborators}.

(** A header [BlockHeader] could decode has at least the thirteen basic
    items. *)
Lemma BlockHeader_populate_items (header : RLP) (bi : BlockHeader) (p : bytes)
    (its : list bytes) :
  BlockHeader_populate header = Ok bi ->
  payload header = Ok p -> split_items p = Ok its ->
  (13 <= length its)%nat.
Proof.
  intros H Hp Hs. unfold BlockHeader_populate in H.
  do 12 inv_bind H.
  match type of H with
  | res_bind ?e _ = Ok _ => destruct e as [f12|] eqn:E12; [|discriminate H]
  end.
  rewrite (RLP_index_split _ _ _ Hp Hs 12) in E12. cbn [res_bind] in E12.
  destruct (its !! 12%nat) as [it|] eqn:Ei.
  - apply lookup_lt_Some in Ei. unfold bytes in *. lia.
  - cbn [default] in E12. discriminate E12.
Qed.

(** What lines 166-170 leave in the seal fields for a block. *)
Lemma populate_fields_seal (raw : bytes) (st : AccountMap) (this cp1 : ChainParams)
    (first : RLP) :
  populate_fields raw st this = (Ok tt, cp1) ->
  RLP_index raw 0 = Ok first -> isList first = true ->
  exists its : list bytes,
    Forall item_ok its /\ (13 <= length its)%nat /\
    (N.of_nat (length its) < UNSIGNED_MOD)%N /\
    sealFields cp1 = N.of_nat (length its - 13) /\
    sealRLP cp1 = concat (drop 13 its).
Proof.
  unfold populate_fields. intros H Hf Hl.
  destruct (RLP_strict raw) as [r|e] eqn:Er; cbn [res_bind] in H; [|discriminate].
  apply RLP_strict_id in Er as Er'. subst r.
  rewrite Hf in H. cbn [res_bind] in H. rewrite Hl in H.
  destruct (BlockHeader_of raw BlockData) as [bi|e] eqn:Ebi; [|discriminate].
  assert (Hpop : BlockHeader_populate first = Ok bi).
  { unfold BlockHeader_of, extractHeader in Ebi. rewrite Er in Ebi. cbn [res_bind] in Ebi.
    destruct (negb (isList raw)); [discriminate|].
    rewrite Hf in Ebi. cbn [res_bind] in Ebi. rewrite Hl in Ebi. cbn [negb] in Ebi.
    destruct (RLP_index raw 1) as [txs|]; cbn [res_bind] in Ebi; [|discriminate].
    destruct (negb (isList txs)); [discriminate|].
    destruct (RLP_index raw 2) as [uncles|]; cbn [res_bind] in Ebi; [|discriminate].
    destruct (negb (isList uncles)); [discriminate|]. exact Ebi. }
  unfold itemCount in H. rewrite Hl in H.
  destruct (payload first) as [p|e] eqn:Ep; cbn [res_bind] in H; [|discriminate].
  destruct (split_items p) as [its|e] eqn:Es; cbn [res_bind] in H; [|discriminate].
  pose proof (BlockHeader_populate_items _ _ _ _ Hpop Ep Es) as H13.
  pose proof (split_items_ok _ _ Es) as Hall.
  assert (Hnil : forall Y : ChainParams, sealRLP (set_sealRLP [] Y) = [])
    by (intros Y; destruct Y; reflexivity).
  rewrite Hnil in H.
  unfold collect_seal in H.
  destruct ((N.to_nat BasicFields <? length its)%nat && (UNSIGNED_MOD <=? N.of_nat (length its))%N)
    eqn:Ediv; [discriminate|].
  assert (Hlt : (N.of_nat (length its) < UNSIGNED_MOD)%N).
  { apply andb_false_iff in Ediv as [E|E].
    - apply Nat.ltb_ge in E. change (N.to_nat BasicFields) with 13%nat in E.
      unfold UNSIGNED_MOD. lia.
    - now apply N.leb_gt in E. }
  assert (HI : forall i it, its !! i = Some it -> RLP_index first i = Ok it).
  { intros i it Hi. rewrite (RLP_index_split _ _ _ Ep Es i).
    unfold RLP, bytes in *. now rewrite Hi. }
  rewrite (collect_seal_loop_index first its HI) in H
    by (change (N.to_nat BasicFields) with 13%nat; lia).
  injection H as <-.
  exists its. split; [exact Hall|]. split; [exact H13|]. split; [exact Hlt|].
  assert (Htu : to_unsigned (Z.of_nat (length its) - Z.of_N BasicFields)
                = N.of_nat (length its - 13)).
  { rewrite <- (to_unsigned_seal (length its - 13)).
    - change (N.to_nat BasicFields) with 13%nat. do 3 f_equal. lia.
    - unfold BasicFields, UNSIGNED_MOD in *. lia. }
  change (N.to_nat BasicFields) with 13%nat.
  rewrite firstn_all2 by (rewrite length_drop; lia).
  destruct this; split; [exact Htu | reflexivity].
Qed.

(** The seal fields of the receiver after an accepted input. *)
Lemma populate_seal_wellformed (raw : bytes) (st : AccountMap)
    (this Q : ChainParams) :
  populateFromGenesis raw st this = (Ok tt, Q) ->
  exists items : list bytes,
    split_items (sealRLP Q) = Ok items /\
    N.of_nat (length items) = sealFields Q /\
    (BasicFields + sealFields Q < UNSIGNED_MOD)%N.
Proof.
  intros H.
  destruct (populate_first_list raw st this) as (first & Hf & Hl);
    [now rewrite H|].
  rewrite populateFromGenesis_steps in H.
  destruct (populate_fields raw st this) as [[[]|e] cp1] eqn:Epf; [|discriminate].
  destruct (populate_fields_seal _ _ _ _ _ Epf Hf Hl)
    as (its & Hall & H13 & Hlt & Hsf & Hsr).
  rewrite genesisBlock_stream in H.
  destruct (calculateStateRoot_frame cp1)
    as (_ & _ & _ & _ & _ & _ & _ & _ & Fsf & Fsr & _).
  destruct (genesis_stream _) as [b|e]; [|discriminate].
  destruct (bool_decide (b = raw)); [|discriminate].
  injection H as <-. rewrite Fsf, Fsr, Hsf, Hsr.
  exists (drop 13 its). split; [|split].
  - apply split_items_items. now apply Forall_drop.
  - now rewrite length_drop.
  - unfold BasicFields, UNSIGNED_MOD in *. lia.
Qed.

(** X22. When [populateFromGenesis] returns, the receiver's seal is well
    formed: [sealRLP] splits into exactly [sealFields] raw items, and
    [BasicFields + sealFields] is the item count of the header, below
    2^32. *)
Theorem populateFromGenesis_seal_invariant (raw : bytes) (st : AccountMap)
    (this Q : ChainParams) :
  populateFromGenesis raw st this = (Ok tt, Q) ->
  exists items : list bytes,
    split_items (sealRLP Q) = Ok items /\
    N.of_nat (length items) = sealFields Q /\
    (BasicFields + sealFields Q < UNSIGNED_MOD)%N.
Proof. apply populate_seal_wellformed. Qed.

(** X23. [populateFromGenesis] accepts canonical blocks only: the bytes it
    returns normally for are the outer list of the header list (the
    thirteen basic fields of the receiver as it is left, then its seal
    items) and two empty lists. *)
Theorem populateFromGenesis_accepts_canonical (raw : bytes) (st : AccountMap)
    (this Q : ChainParams) :
  populateFromGenesis raw st this = (Ok tt, Q) ->
  fits_size_t Q ->
  exists items : list bytes,
    raw = canonical_block Q items /\
    concat items = sealRLP Q /\
    N.of_nat (length items) = sealFields Q.
Proof.
  intros H Hfit.
  destruct (populate_seal_wellformed _ _ _ _ H) as (items & Hsplit & Hlen & Hov).
  exists items. split; [|split; [now apply split_items_concat | exact Hlen]].
  rewrite populateFromGenesis_steps in H.
  destruct (populate_fields raw st this) as [[[]|e] cp1]; [|discriminate].
  pose proof (genesisBlock_again cp1) as Hagain.
  destruct (genesisBlock cp1) as [[b|e] cp2]; [|discriminate].
  destruct (bool_decide_reflect (b = raw)) as [->|Hne]; [|discriminate].
  injection H as <-. cbn [snd] in Hagain.
  rewrite genesisBlock_stream in Hagain. injection Hagain as Hs HQ.
  rewrite HQ in Hs.
  rewrite (genesis_stream_canonical cp2 items Hsplit Hlen Hov Hfit) in Hs.
  now injection Hs.
Qed.

End SealInvariant.

(* ===================================================================== *)
(** ** The model at concrete inputs                                       *)
(* ===================================================================== *)

Lemma Ok_value_of {A} (r : Res A) (fallback : A) :
  is_Ok r = true -> r = Ok (Example.value_of r fallback).
Proof. destruct r; [reflexivity | discriminate]. Qed.

Lemma pair_of_fst {A B} (x : A * B) (a : A) : fst x = a -> x = (a, snd x).
Proof. destruct x. simpl. now intros ->. Qed.

Section Runs.
Import Example.
Local Existing Instance collaborators.

Lemma block_of_Ok (cp : ChainParams) :
  is_Ok (fst (genesisBlock cp)) = true -> fst (genesisBlock cp) = Ok (block_of cp).
Proof. unfold block_of. destruct (fst (genesisBlock cp)); [reflexivity | discriminate]. Qed.

(** C3: the code at the failing input. [loadConfig] on the end-to-end
    configuration, called on a fresh value, returns normally, yet the value
    it returns still has the receiver's gas limit 2^31, and so does the
    header of its genesis block; [setGenesis] on the same genesis object
    does give 0x2fefd8, but [loadConfig] drops what it returns. *)
Theorem loadConfig_drops_genesis :
  exists (cp : ChainParams) (blk : bytes) (bi : BlockHeader),
    loadConfig fresh config true zero256 = Ok cp /\
    gasLimit cp = gasLimit fresh /\
    fst (genesisBlock cp) = Ok blk /\
    BlockHeader_of blk BlockData = Ok bi /\
    u256_val (m_gasLimit bi) = (2 ^ 31)%N /\
    u256_val (m_gasLimit bi) <> 0x2fefd8%N /\
    (exists cp', setGenesis (write_string (obj_at (value_of (get_obj config) ∅) "genesis"))
                   zero256 fresh = Ok cp' /\
                 u256_val (gasLimit cp') = 0x2fefd8%N).
Proof.
  exists (value_of (loadConfig fresh config true zero256) fresh).
  exists (block_of (value_of (loadConfig fresh config true zero256) fresh)).
  exists (value_of (BlockHeader_of
            (block_of (value_of (loadConfig fresh config true zero256) fresh)) BlockData)
            (mk_BlockHeader zero256 zero256 (FixedHash_zero 20) zero256 zero256 zero256
               (FixedHash_zero 256) u256_zero u256_zero u256_zero u256_zero u256_zero [] [])).
  split; [apply Ok_value_of; vm_compute; reflexivity|].
  split; [vm_compute; reflexivity|].
  split; [apply block_of_Ok; vm_compute; reflexivity|].
  split; [apply Ok_value_of; vm_compute; reflexivity|].
  split; [vm_compute; reflexivity|].
  split; [vm_compute; discriminate|].
  exists (value_of (setGenesis (write_string (obj_at (value_of (get_obj config) ∅) "genesis"))
                      zero256 fresh) fresh).
  split; [apply Ok_value_of; vm_compute; reflexivity | vm_compute; reflexivity].
Qed.

(** C1: the claim read for every value fails where the counter and the
    seal bytes disagree. With [sealFields = 1] and an empty [sealRLP] the
    header list has 13 items, not [BasicFields + sealFields = 14]. *)
Lemma genesisBlock_every_value_counterexample :
  res_bind (fst (genesisBlock miscounted))
    (fun blk => res_bind (RLP_strict blk)
       (fun r => res_bind (RLP_index r 0) itemCount)) = Ok 13%nat /\
  (BasicFields + sealFields miscounted)%N = 14%N.
Proof. split; vm_compute; reflexivity. Qed.

Lemma genesisBlock_canonical_witness :
  split_items (sealRLP sealed) = Ok sealed_items /\
  N.of_nat (length sealed_items) = sealFields sealed /\
  (BasicFields + sealFields sealed < UNSIGNED_MOD)%N /\
  fits_size_t sealed /\
  genesisBlock sealed = (Ok (canonical_block sealed sealed_items), sealed).
Proof.
  assert (H1 : split_items (sealRLP sealed) = Ok sealed_items) by (vm_compute; reflexivity).
  assert (H2 : N.of_nat (length sealed_items) = sealFields sealed) by reflexivity.
  assert (H3 : (BasicFields + sealFields sealed < UNSIGNED_MOD)%N) by reflexivity.
  assert (H4 : fits_size_t sealed) by (vm_compute; reflexivity).
  repeat (split; [assumption|]).
  pose proof (proj1 (genesisBlock_canonical sealed sealed_items H1 H2 H3 H4)) as H.
  rewrite (calculateStateRoot_cached sealed) in H by (vm_compute; reflexivity).
  exact H.
Defined.

(** C2: the claim fails for a value whose seal bytes are not counted by
    [sealFields]. [stray_seal] has a non-zero state root, the root of its
    accounts; its genesis block is rejected, by a fresh receiver and by
    [stray_seal] itself. *)
Lemma populateFromGenesis_roundtrip_counterexample :
  FixedHash_bool (stateRoot stray_seal) = true /\
  stateRoot stray_seal = root (commit (genesisState stray_seal) trie_init) /\
  is_Ok (fst (genesisBlock stray_seal)) = true /\
  fst (populateFromGenesis (block_of stray_seal) (genesisState stray_seal) fresh)
    = Err (IntThrown 0) /\
  fst (populateFromGenesis (block_of stray_seal) (genesisState stray_seal) stray_seal)
    = Err (IntThrown 0).
Proof. repeat split; vm_compute; reflexivity. Qed.

Lemma populateFromGenesis_roundtrip_witness :
  exists Q : ChainParams,
    populateFromGenesis (block_of sealed) (genesisState sealed) fresh = (Ok tt, Q) /\
    fst (genesisBlock Q) = fst (genesisBlock sealed) /\
    sealFields Q = 2%N /\ sealRLP Q = sealRLP sealed.
Proof.
  assert (H1 : split_items (sealRLP sealed) = Ok sealed_items) by (vm_compute; reflexivity).
  assert (H2 : N.of_nat (length sealed_items) = sealFields sealed) by reflexivity.
  assert (H3 : (BasicFields + sealFields sealed < UNSIGNED_MOD)%N) by reflexivity.
  assert (H4 : fits_size_t sealed) by (vm_compute; reflexivity).
  assert (H5 : FixedHash_bool (stateRoot sealed) = true) by (vm_compute; reflexivity).
  assert (H6 : stateRoot fresh = stateRoot sealed \/
               (FixedHash_bool (stateRoot fresh) = false /\
                root (commit (genesisState sealed) trie_init) = stateRoot sealed))
    by (right; split; vm_compute; reflexivity).
  destruct (populateFromGenesis_roundtrip sealed fresh sealed_items H1 H2 H3 H4 H5 H6)
    as (blk & Q & hdr & all & Hgb & Hpop & HgbQ & _ & _ & _ & _ & _ & _ & _ & _ & _
        & _ & _ & _ & _ & Hsf & Hsr).
  exists Q. unfold block_of. rewrite Hgb. cbn [fst]. rewrite HgbQ. cbn [fst].
  repeat split; assumption.
Defined.

Lemma populateFromGenesis_integrity_witness :
  genesisBlock (snd (populateFromGenesis (block_of sealed) (genesisState sealed) fresh))
    = (Ok (block_of sealed),
       snd (populateFromGenesis (block_of sealed) (genesisState sealed) fresh)) /\
  populateFromGenesis (block_of stray_seal) (genesisState fresh) fresh =
    (Err (IntThrown 0),
     snd (genesisBlock
            (snd (populate_fields (block_of stray_seal) (genesisState fresh) fresh)))).
Proof.
  split.
  - apply (proj1 (populateFromGenesis_integrity (block_of sealed) (genesisState sealed) fresh)).
    vm_compute; reflexivity.
  - apply (proj1 (proj2 (populateFromGenesis_integrity (block_of stray_seal)
                           (genesisState fresh) fresh))
             (snd (populate_fields (block_of stray_seal) (genesisState fresh) fresh)) _
             (block_of (snd (populate_fields (block_of stray_seal)
                               (genesisState fresh) fresh)))).
    + apply pair_of_fst. vm_compute; reflexivity.
    + apply pair_of_fst. apply block_of_Ok. vm_compute; reflexivity.
    + intros E. apply (f_equal length) in E. vm_compute in E. discriminate.
Defined.

Lemma calculateStateRoot_memoized_witness :
  calculateStateRoot sealed = (Ok (stateRoot sealed), sealed) /\
  calculateStateRoot fresh =
    (Ok (root (commit (genesisState fresh) trie_init)),
     set_stateRoot (root (commit (genesisState fresh) trie_init)) fresh).
Proof.
  split.
  - apply (proj1 (calculateStateRoot_memoized sealed)). vm_compute; reflexivity.
  - apply (proj2 (calculateStateRoot_memoized fresh)). vm_compute; reflexivity.
Defined.

Lemma holders_any_order :
  order_independent (fun m : @AccountMap collaborators => (m : list (bytes * N))).
Proof.
  intros m1 m2 Hperm. cbn in *. rewrite !app_nil_r.
  pose proof (Permutation_length Hperm) as Hlen.
  destruct m1 as [|a m1], m2 as [|b m2]; try discriminate Hlen; [reflexivity|].
  now rewrite Hlen.
Qed.

Lemma genesisBlock_deterministic_witness :
  fh_data (stateRoot (after_calls 1 fresh_ab)) <> fh_data (stateRoot fresh_ab) /\
  fst (genesisBlock (after_calls 2 fresh_ab)) = fst (genesisBlock fresh_ab) /\
  fst (genesisBlock (snd (calculateStateRoot fresh_ab))) = fst (genesisBlock fresh_ab) /\
  fst (genesisBlock (set_sealEngineName "Ethash" fresh_ab)) = fst (genesisBlock fresh_ab) /\
  order_independent (fun m : @AccountMap collaborators => (m : list (bytes * N))) /\
  genesisState fresh_ba <> genesisState fresh_ab /\
  fst (genesisBlock fresh_ba) = fst (genesisBlock fresh_ab).
Proof.
  destruct (@genesisBlock_deterministic collaborators (bytes * N)%type
              (fun m : @AccountMap collaborators => (m : list (bytes * N))) fresh_ab)
    as (Hcalls & Hroot & Hfields & _ & Horder).
  split; [vm_compute; discriminate|].
  split; [apply (Hcalls 2%nat)|].
  split; [exact Hroot|].
  split; [apply Hfields; reflexivity|].
  split; [exact holders_any_order|].
  split; [discriminate|].
  apply (Horder holders_any_order fresh_ba); [reflexivity|].
  unfold fresh_ba, fresh_ab, holders_ba, holders_ab. cbn. apply perm_swap.
Defined.

Lemma setGenesis_seal_witness :
  exists cp : ChainParams,
    setGenesis (Obj_v pow_genesis) zero256 fresh = Ok cp /\
    sealFields cp = 2%N /\
    sealRLP cp = enc_data (repeat x00 32) ++ enc_data [x00; x00; x00; x00; x00; x00; x00; x42].
Proof.
  set (cp := value_of (setGenesis (Obj_v pow_genesis) zero256 fresh) fresh).
  assert (H1 : get_obj (read_string (Obj_v pow_genesis)) = Ok pow_genesis) by reflexivity.
  assert (H2 : setGenesis (Obj_v pow_genesis) zero256 fresh = Ok cp)
    by (apply Ok_value_of; vm_compute; reflexivity).
  pose proof (setGenesis_seal (Obj_v pow_genesis) zero256 fresh cp pow_genesis H1 H2) as H.
  assert (C : (obj_count pow_genesis "mixhash" || obj_count pow_genesis "mixHash")
              && obj_count pow_genesis "nonce" = true) by (vm_compute; reflexivity).
  rewrite C in H.
  destruct H as (mixText & nonceText & mixHash & nonce & Emt & Emix & Ent & Enonce
                 & Hsf & _ & _ & Hsr & _).
  exists cp. split; [exact H2|]. split; [exact Hsf|].
  rewrite Hsr.
  assert (Cm : obj_count pow_genesis "mixhash" = false) by (vm_compute; reflexivity).
  rewrite Cm in Emt.
  assert (Em : get_str (obj_at pow_genesis "mixHash") = Ok (zero_hex 32))
    by (vm_compute; reflexivity).
  assert (En : get_str (obj_at pow_genesis "nonce") = Ok "0x0000000000000042"%string)
    by (vm_compute; reflexivity).
  rewrite Em in Emt. injection Emt as <-.
  rewrite En in Ent. injection Ent as <-.
  assert (Hm : fh_data mixHash = repeat x00 32).
  { assert (X : res_bind (FixedHash_of_string 32 (zero_hex 32)) (fun h => Ok (fh_data h))
                = Ok (repeat x00 32)) by (vm_compute; reflexivity).
    rewrite Emix in X. now injection X. }
  assert (Hn : fh_data nonce = [x00; x00; x00; x00; x00; x00; x00; x42]).
  { assert (X : res_bind (FixedHash_of_string 8 "0x0000000000000042")
                  (fun h => Ok (fh_data h))
                = Ok [x00; x00; x00; x00; x00; x00; x00; x42]) by (vm_compute; reflexivity).
    rewrite Enonce in X. now injection X. }
  now rewrite Hm, Hn.
Defined.

(** C7: the claim fails on the code. [oversized] has three bytes of extra
    data against a maximum of two; [genesisBlock] returns a block, and its
    header carries the three bytes. *)
Lemma genesisBlock_oversized_counterexample :
  (u256_val (maximumExtraDataSize oversized) < N.of_nat (length (extraData oversized)))%N /\
  res_bind (fst (genesisBlock oversized))
    (fun blk => res_bind (BlockHeader_of blk BlockData)
       (fun bi => Ok (m_extraData bi))) = Ok [x01; x02; x03].
Proof. split; vm_compute; reflexivity. Qed.

Lemma genesisBlock_ignores_maximumExtraDataSize_witness :
  (u256_val (maximumExtraDataSize oversized) < N.of_nat (length (extraData oversized)))%N /\
  exists (blk : bytes) (bi : BlockHeader),
    fst (genesisBlock oversized) = Ok blk /\
    BlockHeader_of blk BlockData = Ok bi /\
    m_extraData bi = extraData oversized.
Proof.
  split; [vm_compute; reflexivity|].
  apply (proj2 (genesisBlock_ignores_maximumExtraDataSize oversized u256_zero [])).
  - reflexivity.
  - reflexivity.
  - reflexivity.
  - vm_compute; reflexivity.
Defined.





End Runs.

Section FurtherRuns.
Import Example.
Local Existing Instance collaborators.

Lemma genesisBlock_copies_sealRLP_witness :
  (BasicFields + sealFields stray_seal < UNSIGNED_MOD)%N /\
  fits_size_t stray_seal /\
  genesisBlock stray_seal =
  (Ok (enc_list (enc_list (concat (basic_fields stray_seal)) ++ [xc0]
                 ++ RLPEmptyList ++ RLPEmptyList)), stray_seal).
Proof.
  assert (H1 : (BasicFields + sealFields stray_seal < UNSIGNED_MOD)%N) by reflexivity.
  assert (H2 : fits_size_t stray_seal) by (vm_compute; reflexivity).
  split; [exact H1|]. split; [exact H2|].
  pose proof (genesisBlock_copies_sealRLP stray_seal H1 H2) as H.
  cbv zeta in H.
  rewrite (calculateStateRoot_cached stray_seal) in H by (vm_compute; reflexivity).
  exact H.
Defined.

Lemma genesisBlock_decodes_witness :
  exists (blk : bytes) (bi : BlockHeader),
    fst (genesisBlock sealed) = Ok blk /\
    BlockHeader_of blk BlockData = Ok bi /\
    m_number bi = u256_zero /\ m_seal bi = sealed_items /\
    m_extraData bi = extraData sealed.
Proof.
  assert (H1 : split_items (sealRLP sealed) = Ok sealed_items) by (vm_compute; reflexivity).
  assert (H2 : N.of_nat (length sealed_items) = sealFields sealed) by reflexivity.
  assert (H3 : (BasicFields + sealFields sealed < UNSIGNED_MOD)%N) by reflexivity.
  assert (H4 : fits_size_t sealed) by (vm_compute; reflexivity).
  destruct (genesisBlock_decodes sealed sealed_items H1 H2 H3 H4) as (blk & Hb & Hd).
  exists blk. eexists. split; [exact Hb|]. split; [exact Hd|]. repeat split.
Defined.

Lemma genesisBlock_injective_witness :
  fst (genesisBlock (set_sealEngineName "Ethash" sealed)) = fst (genesisBlock sealed) /\
  gasLimit (set_sealEngineName "Ethash" sealed) = gasLimit sealed /\
  sealRLP (set_sealEngineName "Ethash" sealed) = sealRLP sealed.
Proof.
  assert (H1 : split_items (sealRLP sealed) = Ok sealed_items) by (vm_compute; reflexivity).
  assert (H2 : N.of_nat (length sealed_items) = sealFields sealed) by reflexivity.
  assert (H3 : (BasicFields + sealFields sealed < UNSIGNED_MOD)%N) by reflexivity.
  assert (H4 : fits_size_t sealed) by (vm_compute; reflexivity).
  assert (E : fst (genesisBlock (set_sealEngineName "Ethash" sealed))
              = fst (genesisBlock sealed))
    by (apply genesisBlock_reads_inputs; reflexivity).
  split; [exact E|].
  destruct (genesisBlock_injective (set_sealEngineName "Ethash" sealed) sealed
              sealed_items sealed_items H1 H2 H3 H4 H1 H2 H3 H4 E)
    as (_ & _ & _ & _ & Hgl & _ & _ & _ & _ & Hsr).
  split; [exact Hgl | exact Hsr].
Defined.

Lemma setGenesis_keeps_config_witness :
  exists cp : ChainParams,
    setGenesis (Obj_v pow_genesis) zero256 fresh = Ok cp /\
    otherParams cp = otherParams fresh /\
    genesisState cp = genesisState fresh /\
    stateRoot cp = root (commit (genesisState fresh) trie_init).
Proof.
  set (cp := value_of (setGenesis (Obj_v pow_genesis) zero256 fresh) fresh).
  assert (H : setGenesis (Obj_v pow_genesis) zero256 fresh = Ok cp)
    by (apply Ok_value_of; vm_compute; reflexivity).
  destruct (setGenesis_keeps_config _ _ _ _ H)
    as (_ & _ & _ & _ & _ & Hop & _ & Hgs & Hsr).
  exists cp. split; [exact H|]. split; [exact Hop|]. split; [exact Hgs|].
  rewrite Hsr. reflexivity.
Defined.

Lemma setGenesis_precedence_defaults_witness :
  exists cp : ChainParams,
    setGenesis (Obj_v two_authors_genesis) zero256 fresh = Ok cp /\
    FixedHash_of_string 20 "0x1111111111111111111111111111111111111111" = Ok (author cp) /\
    difficulty cp = u256_zero /\ gasUsed cp = u256_zero.
Proof.
  set (cp := value_of (setGenesis (Obj_v two_authors_genesis) zero256 fresh) fresh).
  assert (H0 : get_obj (read_string (Obj_v two_authors_genesis)) = Ok two_authors_genesis)
    by reflexivity.
  assert (H : setGenesis (Obj_v two_authors_genesis) zero256 fresh = Ok cp)
    by (apply Ok_value_of; vm_compute; reflexivity).
  destruct (setGenesis_precedence_defaults _ _ _ _ _ H0 H)
    as (Hcb & _ & Hdi & _ & Hgu & _).
  exists cp. split; [exact H|]. split; [|split].
  - apply (Hcb (Str_v "0x1111111111111111111111111111111111111111")).
    vm_compute; reflexivity.
  - apply Hdi. vm_compute; reflexivity.
  - apply Hgu. vm_compute; reflexivity.
Defined.

Lemma setGenesis_required_keys_witness :
  setGenesis Null_v zero256 fresh = Err JsonTypeError /\
  setGenesis (Obj_v ∅) zero256 fresh = Err JsonTypeError /\
  exists (cp : ChainParams) (gl : string),
    setGenesis (Obj_v pow_genesis) zero256 fresh = Ok cp /\
    pow_genesis !! "gasLimit" = Some (Str_v gl) /\
    u256_of_hex gl = Ok (gasLimit cp).
Proof.
  destruct (setGenesis_required_keys Null_v zero256 fresh) as (_ & Hnull & _).
  destruct (setGenesis_required_keys (Obj_v ∅) zero256 fresh) as (_ & _ & Hempty).
  destruct (setGenesis_required_keys (Obj_v pow_genesis) zero256 fresh) as (Hok & _ & _).
  split; [apply Hnull; discriminate|].
  split; [apply (Hempty ∅); reflexivity|].
  set (cp := value_of (setGenesis (Obj_v pow_genesis) zero256 fresh) fresh).
  assert (H : setGenesis (Obj_v pow_genesis) zero256 fresh = Ok cp)
    by (apply Ok_value_of; vm_compute; reflexivity).
  destruct (Hok cp H) as (genesis & ph & au & gl & ts & ed & [= <-] & _ & _ & _ & _ & Kgl
                          & Pgl & _).
  exists cp, gl. split; [exact H|]. split; [exact Kgl | exact Pgl].
Defined.

Lemma loadGenesis_idempotent_witness :
  exists cp : ChainParams,
    loadGenesis fresh (Obj_v pow_genesis) zero256 = Ok cp /\
    loadGenesis cp (Obj_v pow_genesis) zero256 = Ok cp.
Proof.
  set (cp := value_of (loadGenesis fresh (Obj_v pow_genesis) zero256) fresh).
  assert (H : loadGenesis fresh (Obj_v pow_genesis) zero256 = Ok cp)
    by (apply Ok_value_of; vm_compute; reflexivity).
  exists cp. split; [exact H|]. exact (loadGenesis_idempotent _ _ _ _ H).
Defined.

Lemma loadGenesis_genesisBlock_witness :
  exists (cp : ChainParams) (blk : bytes) (bi : BlockHeader),
    loadGenesis fresh (Obj_v pow_genesis) zero256 = Ok cp /\
    fst (genesisBlock cp) = Ok blk /\
    BlockHeader_of blk BlockData = Ok bi /\
    u256_of_hex "0x2fefd8" = Ok (m_gasLimit bi) /\
    length (m_seal bi) = 2%nat.
Proof.
  set (cp := value_of (loadGenesis fresh (Obj_v pow_genesis) zero256) fresh).
  assert (H0 : get_obj (read_string (Obj_v pow_genesis)) = Ok pow_genesis) by reflexivity.
  assert (H : loadGenesis fresh (Obj_v pow_genesis) zero256 = Ok cp)
    by (apply Ok_value_of; vm_compute; reflexivity).
  assert (H1 : split_items (sealRLP fresh) = Ok []) by reflexivity.
  assert (H2 : N.of_nat (length (@nil bytes)) = sealFields fresh) by reflexivity.
  assert (H3 : (BasicFields + sealFields fresh < UNSIGNED_MOD)%N) by reflexivity.
  assert (H4 : fits_size_t cp).
  { unfold fits_size_t.
    assert (L : (length (extraData cp) + length (sealRLP cp))%nat = 46%nat)
      by (vm_compute; reflexivity).
    rewrite L. reflexivity. }
  destruct (loadGenesis_genesisBlock fresh _ zero256 cp pow_genesis [] H0 H H1 H2 H3 H4)
    as (blk & bi & Hb & Hd & _ & Hgl & _ & _ & _ & _ & Hseal).
  exists cp, blk, bi. split; [exact H|]. split; [exact Hb|]. split; [exact Hd|].
  split.
  - rewrite <- Hgl. vm_compute; reflexivity.
  - rewrite Hseal. vm_compute; reflexivity.
Defined.

Lemma setGenesisState_stale_root_witness :
  exists cp : ChainParams,
    setGenesisState one_account no_precompiled sealed = Ok cp /\
    length (genesisState cp) = 1%nat /\
    length (genesisState sealed) = 0%nat /\
    stateRoot cp = stateRoot sealed /\
    fst (genesisBlock cp) = fst (genesisBlock sealed).
Proof.
  set (cp := value_of (setGenesisState one_account no_precompiled sealed) fresh).
  assert (H0 : FixedHash_bool (stateRoot sealed) = true) by (vm_compute; reflexivity).
  assert (H : setGenesisState one_account no_precompiled sealed = Ok cp)
    by (apply Ok_value_of; vm_compute; reflexivity).
  destruct (setGenesisState_stale_root _ _ _ _ H0 H) as (Hsr & _ & Hgb).
  exists cp. split; [exact H|]. split; [vm_compute; reflexivity|].
  split; [reflexivity|]. split; [exact Hsr | exact Hgb].
Defined.

Lemma load_order_stateRoot_witness :
  exists a b a' b' : ChainParams,
    loadGenesisState fresh one_account no_precompiled = Ok a /\
    loadGenesis a (Obj_v pow_genesis) zero256 = Ok b /\
    loadGenesis fresh (Obj_v pow_genesis) zero256 = Ok a' /\
    loadGenesisState a' one_account no_precompiled = Ok b' /\
    stateRoot b = root (commit (genesisState a) trie_init) /\
    stateRoot b' = root (commit (genesisState fresh) trie_init) /\
    fh_data (stateRoot b) <> fh_data (stateRoot b').
Proof.
  set (a := value_of (loadGenesisState fresh one_account no_precompiled) fresh).
  set (b := value_of (loadGenesis a (Obj_v pow_genesis) zero256) fresh).
  set (a' := value_of (loadGenesis fresh (Obj_v pow_genesis) zero256) fresh).
  set (b' := value_of (loadGenesisState a' one_account no_precompiled) fresh).
  assert (Ha : loadGenesisState fresh one_account no_precompiled = Ok a)
    by (apply Ok_value_of; vm_compute; reflexivity).
  assert (Hb : loadGenesis a (Obj_v pow_genesis) zero256 = Ok b)
    by (apply Ok_value_of; vm_compute; reflexivity).
  assert (Ha' : loadGenesis fresh (Obj_v pow_genesis) zero256 = Ok a')
    by (apply Ok_value_of; vm_compute; reflexivity).
  assert (Hb' : loadGenesisState a' one_account no_precompiled = Ok b')
    by (apply Ok_value_of; vm_compute; reflexivity).
  assert (Hz : FixedHash_bool (stateRoot fresh) = false) by (vm_compute; reflexivity).
  assert (Hs : FixedHash_bool zero256 = false) by (vm_compute; reflexivity).
  destruct (load_order_stateRoot fresh (Obj_v pow_genesis) one_account no_precompiled zero256 Hz Hs)
    as [O1 O2].
  destruct (O1 a b Ha Hb) as [_ R1]. destruct (O2 a' b' Ha' Hb') as [_ R2].
  exists a, b, a', b'. repeat (split; [assumption|]).
  rewrite R1, R2. vm_compute. discriminate.
Defined.

Lemma loadConfig_keeps_genesis_witness :
  exists cp : ChainParams,
    loadConfig fresh config true zero256 = Ok cp /\
    genesis_inputs cp = genesis_inputs fresh /\
    fst (genesisBlock cp) = fst (genesisBlock fresh).
Proof.
  set (cp := value_of (loadConfig fresh config true zero256) fresh).
  assert (H : loadConfig fresh config true zero256 = Ok cp)
    by (apply Ok_value_of; vm_compute; reflexivity).
  destruct (loadConfig_keeps_genesis _ _ _ _ _ H) as (Hin & _ & Hgb).
  exists cp. split; [exact H|]. split; [exact Hin | exact Hgb].
Defined.

Lemma loadConfig_validates_witness :
  exists (cp g : ChainParams) (obj : mObject),
    loadConfig fresh config true zero256 = Ok cp /\
    config = Obj_v obj /\
    setGenesis (write_string (obj_at obj "genesis")) zero256 cp = Ok g.
Proof.
  set (cp := value_of (loadConfig fresh config true zero256) fresh).
  assert (H : loadConfig fresh config true zero256 = Ok cp)
    by (apply Ok_value_of; vm_compute; reflexivity).
  destruct (loadConfig_validates _ _ _ _ _ H) as (obj & Hobj & Hg & _).
  destruct (Hg eq_refl) as [g Hg'].
  exists cp, g, obj. split; [exact H|]. split; [exact Hobj | exact Hg'].
Defined.

Lemma loadConfig_required_keys_witness :
  loadConfig fresh Null_v true zero256 = Err JsonTypeError /\
  loadConfig fresh (Obj_v ∅) true zero256 = Err JsonTypeError /\
  exists (cp : ChainParams) (obj : mObject),
    loadConfig fresh config true zero256 = Ok cp /\
    config = Obj_v obj /\
    obj !! "sealEngine" = Some (Str_v (sealEngineName cp)).
Proof.
  destruct (loadConfig_required_keys fresh Null_v true zero256) as (_ & Hnull & _).
  destruct (loadConfig_required_keys fresh (Obj_v ∅) true zero256) as (_ & _ & Hempty).
  destruct (loadConfig_required_keys fresh config true zero256) as (Hok & _ & _).
  split; [apply Hnull; discriminate|].
  split; [apply (Hempty ∅); reflexivity|].
  set (cp := value_of (loadConfig fresh config true zero256) fresh).
  assert (H : loadConfig fresh config true zero256 = Ok cp)
    by (apply Ok_value_of; vm_compute; reflexivity).
  destruct (Hok cp H) as (obj & params & asn & meds & br & Hobj & Hse & _).
  exists cp, obj. split; [exact H|]. split; [exact Hobj | exact Hse].
Defined.

Lemma loadConfig_merges_otherParams_witness :
  exists cp : ChainParams,
    loadConfig with_chain_id config_with_extra true zero256 = Ok cp /\
    otherParams cp !! "networkID" = Some "0x01"%string /\
    otherParams cp !! "chainID" = Some "0x3d"%string.
Proof.
  set (cp := value_of (loadConfig with_chain_id config_with_extra true zero256) fresh).
  set (obj := value_of (get_obj (read_string config_with_extra)) ∅).
  set (params := value_of (get_obj (obj_at obj "params")) ∅).
  assert (H1 : loadConfig with_chain_id config_with_extra true zero256 = Ok cp)
    by (apply Ok_value_of; vm_compute; reflexivity).
  assert (H2 : get_obj (read_string config_with_extra) = Ok obj)
    by (apply Ok_value_of; vm_compute; reflexivity).
  assert (H3 : get_obj (obj_at obj "params") = Ok params)
    by (apply Ok_value_of; vm_compute; reflexivity).
  destruct (loadConfig_merges_otherParams _ _ _ _ _ _ _ H1 H2 H3) as [M1 M2].
  exists cp. split; [exact H1|]. split.
  - apply M1; vm_compute; reflexivity.
  - rewrite M2 by (right; vm_compute; reflexivity). vm_compute; reflexivity.
Defined.

Lemma loadConfig_idempotent_witness :
  exists cp : ChainParams,
    loadConfig with_chain_id config_with_extra true zero256 = Ok cp /\
    loadConfig cp config_with_extra true zero256 = Ok cp.
Proof.
  set (cp := value_of (loadConfig with_chain_id config_with_extra true zero256) fresh).
  assert (H : loadConfig with_chain_id config_with_extra true zero256 = Ok cp)
    by (apply Ok_value_of; vm_compute; reflexivity).
  exists cp. split; [exact H|]. exact (loadConfig_idempotent _ _ _ _ _ H).
Defined.

Lemma populateFromGenesis_keeps_config_witness :
  fst (populateFromGenesis (block_of sealed) (genesisState sealed) with_chain_id) = Ok tt /\
  otherParams (snd (populateFromGenesis (block_of sealed) (genesisState sealed) with_chain_id))
    = otherParams with_chain_id /\
  genesisState (snd (populateFromGenesis (block_of sealed) (genesisState sealed) with_chain_id))
    = genesisState sealed.
Proof.
  assert (H : fst (populateFromGenesis (block_of sealed) (genesisState sealed) with_chain_id)
              = Ok tt) by (vm_compute; reflexivity).
  destruct (populateFromGenesis_keeps_config (block_of sealed) (genesisState sealed)
              with_chain_id) as (_ & _ & _ & _ & _ & Hop & _ & Hgs).
  split; [exact H|]. split; [exact Hop | exact (Hgs H)].
Defined.

Lemma populateFromGenesis_idempotent_witness :
  populateFromGenesis (block_of sealed) (genesisState sealed)
    (snd (populateFromGenesis (block_of sealed) (genesisState sealed) fresh)) =
  (Ok tt, snd (populateFromGenesis (block_of sealed) (genesisState sealed) fresh)).
Proof.
  assert (H : fst (populateFromGenesis (block_of sealed) (genesisState sealed) fresh) = Ok tt)
    by (vm_compute; reflexivity).
  exact (populateFromGenesis_idempotent _ _ _ _ (pair_of_fst _ _ H)).
Defined.

Lemma populateFromGenesis_wrong_root_witness :
  exists blk : bytes,
    genesisBlock sealed = (Ok blk, sealed) /\
    fst (populateFromGenesis blk one_holder fresh) = Err (IntThrown 0).
Proof.
  assert (H1 : split_items (sealRLP sealed) = Ok sealed_items) by (vm_compute; reflexivity).
  assert (H2 : N.of_nat (length sealed_items) = sealFields sealed) by reflexivity.
  assert (H3 : (BasicFields + sealFields sealed < UNSIGNED_MOD)%N) by reflexivity.
  assert (H4 : fits_size_t sealed) by (vm_compute; reflexivity).
  assert (H5 : FixedHash_bool (stateRoot sealed) = true) by (vm_compute; reflexivity).
  apply (populateFromGenesis_wrong_root sealed fresh one_holder sealed_items
           H1 H2 H3 H4 H5).
  intros E. apply (f_equal fh_data) in E. vm_compute in E. discriminate E.
Defined.

Lemma populateFromGenesis_needs_block_witness :
  exists first : RLP,
    RLP_index (block_of sealed) 0 = Ok first /\ isList first = true.
Proof.
  apply (populateFromGenesis_needs_block (block_of sealed) (genesisState sealed) fresh).
  vm_compute; reflexivity.
Defined.

Lemma populateFromGenesis_seal_invariant_witness :
  exists items : list bytes,
    split_items
      (sealRLP (snd (populateFromGenesis (block_of sealed) (genesisState sealed) fresh)))
      = Ok items /\
    N.of_nat (length items)
      = sealFields (snd (populateFromGenesis (block_of sealed) (genesisState sealed) fresh)).
Proof.
  assert (H : fst (populateFromGenesis (block_of sealed) (genesisState sealed) fresh) = Ok tt)
    by (vm_compute; reflexivity).
  destruct (populateFromGenesis_seal_invariant _ _ _ _ (pair_of_fst _ _ H))
    as (items & Hs & Hl & _).
  exists items. split; [exact Hs | exact Hl].
Defined.

Lemma populateFromGenesis_accepts_canonical_witness :
  exists items : list bytes,
    block_of sealed =
    canonical_block
      (snd (populateFromGenesis (block_of sealed) (genesisState sealed) fresh)) items.
Proof.
  assert (H : fst (populateFromGenesis (block_of sealed) (genesisState sealed) fresh) = Ok tt)
    by (vm_compute; reflexivity).
  assert (Hfit : fits_size_t
            (snd (populateFromGenesis (block_of sealed) (genesisState sealed) fresh))).
  { unfold fits_size_t.
    assert (L : (length (extraData
                   (snd (populateFromGenesis (block_of sealed) (genesisState sealed) fresh)))
                 + length (sealRLP
                   (snd (populateFromGenesis (block_of sealed) (genesisState sealed) fresh))))%nat
                = 112%nat)
      by (vm_compute; reflexivity).
    rewrite L. reflexivity. }
  destruct (populateFromGenesis_accepts_canonical _ _ _ _ (pair_of_fst _ _ H) Hfit)
    as (items & Hc & _).
  exists items. exact Hc.
Defined.

End FurtherRuns.
